(** * Head Racing Game: the driving simulator and the head-pose pipeline

    A shallow embedding of [src/game/racing.py] (class [RacingGame]) and of
    [src/head_tracking/head_tracker.py] (class [HeadTracker]), followed by the
    properties of the specification proved about them.

    Conventions of the embedding.
    - A Python [float] is an exact rational ([Q]); rounding is not modelled.
      A Python [int] is a [Z].  Mixed arithmetic injects the integer.
    - [time.time()], the [random] module and the camera are oracles carried by
      the world: the n-th call reads the n-th value and advances a counter.
    - Attributes that are assigned once in [__init__] and never again are
      constants of the module; attributes that change are record fields.
    - Printing and drawing have no effect on the state and are left out. *)

From Stdlib Require Import QArith Qminmax Qabs ZArith List String Bool Lia Lqa.
Import ListNotations.

(** ** Python numerics *)

Module Py.

Local Open Scope Q_scope.

(** [a < b] on floats. *)
Definition Qltb (a b : Q) : bool := negb (Qle_bool b a).

(** [max(a, b)]: the first argument unless the second is greater. *)
Definition max (a b : Q) : Q := if Qltb a b then b else a.

(** [min(a, b)]: the first argument unless the second is smaller. *)
Definition min (a b : Q) : Q := if Qltb b a then b else a.

(** [int(x)]: truncation toward zero. *)
Definition int (x : Q) : Z := Z.quot (Qnum x) (Z.pos (Qden x)).

(** [float('inf')] as the missing bound: [None] is plus infinity. *)
Definition lt_inf (d : Q) (bound : option Q) : bool :=
  match bound with
  | None => true
  | Some m => Qltb d m
  end.

(** [list.pop(i)] seen as the list that is left. *)
Fixpoint pop {A : Type} (i : nat) (l : list A) : list A :=
  match l, i with
  | [], _ => []
  | _ :: tl, O => tl
  | hd :: tl, S j => hd :: pop j tl
  end.

End Py.

Declare Scope py_scope.
Delimit Scope py_scope with py.
Infix "<?" := Py.Qltb (at level 70, no associativity) : py_scope.
Notation "a >? b" := (Py.Qltb b a) (at level 70, no associativity) : py_scope.
Notation "a <=? b" := (Qle_bool a b) (at level 70, no associativity) : py_scope.
Notation "a >=? b" := (Qle_bool b a) (at level 70, no associativity) : py_scope.

(** ** The driving simulator: [class RacingGame] *)

Module RacingGame.

Local Open Scope string_scope.
Local Open Scope Q_scope.
Local Open Scope py_scope.

(** One entry of [self.road_segments]: the dict [{'y': y, 'curve': c}]. *)
Record Segment : Type := mkSegment { seg_y : Q; seg_curve : Q }.

(** [(x, y)] of an obstacle, [(x, height, width)] of a mountain,
    [(x, y, radius, speed)] of a cloud, [(text, time_added)] of a message. *)
Definition Obstacle : Type := (Q * Q)%type.
Definition Mountain : Type := (Z * Z * Z)%type.
Definition Cloud : Type := (Q * Z * Z * Q)%type.
Definition Message : Type := (string * Q)%type.

(** The attributes of a [RacingGame] object.  [width] is a natural number and
    [height] a positive one: [pygame.Surface((width, height))] refuses
    negative sizes, and with [height = 0] the constructor itself raises
    [ZeroDivisionError] in [_spawn_initial_obstacles]. *)
Record Game : Type := mkGame {
  width : N;
  height : positive;
  road_line_offset : Q;
  road_curvature : Q;
  target_curve : Q;
  road_segments : list Segment;
  speed : Q;
  car_x : Q;
  car_speed_x : Q;
  score : Z;
  game_over : bool;
  start_time : Q;
  last_time_score : Q;
  obstacles : list Obstacle;
  last_obstacle_time : Q;
  last_collision_time : Q;
  mountains : list Mountain;
  clouds : list Cloud;
  messages : list Message
}.

(** Attributes fixed by the constructor. *)
Definition road_width : Z := 300.
Definition road_line_length : Z := 30.
Definition road_line_gap : Z := 30.
Definition max_curvature : Q := 0.3.
Definition curvature_change_speed : Q := 0.002.
Definition segment_height : Z := 5.
Definition max_speed : Q := 10.0.
Definition min_speed : Q := 0.0.
Definition acceleration : Q := 0.05.
Definition deceleration : Q := 0.1.
Definition friction : Q := 0.01.
Definition steering_sensitivity : Q := 5.0.
Definition car_width : Z := 40.
Definition car_height : Z := 70.
Definition time_score_interval : Q := 5.0.
Definition time_score_amount : Z := 5.
Definition obstacle_width : Z := 40.
Definition obstacle_height : Z := 60.
Definition obstacle_spawn_rate : Q := 0.03.
Definition min_obstacle_distance : Q := 100.
Definition collision_penalty : Z := 10.
Definition off_road_penalty : Z := 5.
Definition collision_cooldown : Q := 1.0.
Definition message_duration : Q := 2.0.

(** Attributes computed from the constructor's arguments. *)
Definition road_center_x (g : Game) : Z := (Z.of_N (width g) / 2)%Z.
Definition num_segments (g : Game) : Z := (Z.pos (height g) / segment_height + 10)%Z.
Definition car_y (g : Game) : Z := (Z.pos (height g) - 100)%Z.

(** Assignment to one attribute. *)
Definition set_road_line_offset (v : Q) (g : Game) : Game :=
  mkGame (width g) (height g) v (road_curvature g) (target_curve g)
    (road_segments g) (speed g) (car_x g) (car_speed_x g) (score g)
    (game_over g) (start_time g) (last_time_score g) (obstacles g)
    (last_obstacle_time g) (last_collision_time g) (mountains g) (clouds g)
    (messages g).
Definition set_road_curvature (v : Q) (g : Game) : Game :=
  mkGame (width g) (height g) (road_line_offset g) v (target_curve g)
    (road_segments g) (speed g) (car_x g) (car_speed_x g) (score g)
    (game_over g) (start_time g) (last_time_score g) (obstacles g)
    (last_obstacle_time g) (last_collision_time g) (mountains g) (clouds g)
    (messages g).
Definition set_target_curve (v : Q) (g : Game) : Game :=
  mkGame (width g) (height g) (road_line_offset g) (road_curvature g) v
    (road_segments g) (speed g) (car_x g) (car_speed_x g) (score g)
    (game_over g) (start_time g) (last_time_score g) (obstacles g)
    (last_obstacle_time g) (last_collision_time g) (mountains g) (clouds g)
    (messages g).
Definition set_road_segments (v : list Segment) (g : Game) : Game :=
  mkGame (width g) (height g) (road_line_offset g) (road_curvature g)
    (target_curve g) v (speed g) (car_x g) (car_speed_x g) (score g)
    (game_over g) (start_time g) (last_time_score g) (obstacles g)
    (last_obstacle_time g) (last_collision_time g) (mountains g) (clouds g)
    (messages g).
Definition set_speed (v : Q) (g : Game) : Game :=
  mkGame (width g) (height g) (road_line_offset g) (road_curvature g)
    (target_curve g) (road_segments g) v (car_x g) (car_speed_x g) (score g)
    (game_over g) (start_time g) (last_time_score g) (obstacles g)
    (last_obstacle_time g) (last_collision_time g) (mountains g) (clouds g)
    (messages g).
Definition set_car_x (v : Q) (g : Game) : Game :=
  mkGame (width g) (height g) (road_line_offset g) (road_curvature g)
    (target_curve g) (road_segments g) (speed g) v (car_speed_x g) (score g)
    (game_over g) (start_time g) (last_time_score g) (obstacles g)
    (last_obstacle_time g) (last_collision_time g) (mountains g) (clouds g)
    (messages g).
Definition set_car_speed_x (v : Q) (g : Game) : Game :=
  mkGame (width g) (height g) (road_line_offset g) (road_curvature g)
    (target_curve g) (road_segments g) (speed g) (car_x g) v (score g)
    (game_over g) (start_time g) (last_time_score g) (obstacles g)
    (last_obstacle_time g) (last_collision_time g) (mountains g) (clouds g)
    (messages g).
Definition set_score (v : Z) (g : Game) : Game :=
  mkGame (width g) (height g) (road_line_offset g) (road_curvature g)
    (target_curve g) (road_segments g) (speed g) (car_x g) (car_speed_x g) v
    (game_over g) (start_time g) (last_time_score g) (obstacles g)
    (last_obstacle_time g) (last_collision_time g) (mountains g) (clouds g)
    (messages g).
Definition set_game_over (v : bool) (g : Game) : Game :=
  mkGame (width g) (height g) (road_line_offset g) (road_curvature g)
    (target_curve g) (road_segments g) (speed g) (car_x g) (car_speed_x g)
    (score g) v (start_time g) (last_time_score g) (obstacles g)
    (last_obstacle_time g) (last_collision_time g) (mountains g) (clouds g)
    (messages g).
Definition set_last_time_score (v : Q) (g : Game) : Game :=
  mkGame (width g) (height g) (road_line_offset g) (road_curvature g)
    (target_curve g) (road_segments g) (speed g) (car_x g) (car_speed_x g)
    (score g) (game_over g) (start_time g) v (obstacles g)
    (last_obstacle_time g) (last_collision_time g) (mountains g) (clouds g)
    (messages g).
Definition set_obstacles (v : list Obstacle) (g : Game) : Game :=
  mkGame (width g) (height g) (road_line_offset g) (road_curvature g)
    (target_curve g) (road_segments g) (speed g) (car_x g) (car_speed_x g)
    (score g) (game_over g) (start_time g) (last_time_score g) v
    (last_obstacle_time g) (last_collision_time g) (mountains g) (clouds g)
    (messages g).
Definition set_last_obstacle_time (v : Q) (g : Game) : Game :=
  mkGame (width g) (height g) (road_line_offset g) (road_curvature g)
    (target_curve g) (road_segments g) (speed g) (car_x g) (car_speed_x g)
    (score g) (game_over g) (start_time g) (last_time_score g) (obstacles g)
    v (last_collision_time g) (mountains g) (clouds g) (messages g).
Definition set_last_collision_time (v : Q) (g : Game) : Game :=
  mkGame (width g) (height g) (road_line_offset g) (road_curvature g)
    (target_curve g) (road_segments g) (speed g) (car_x g) (car_speed_x g)
    (score g) (game_over g) (start_time g) (last_time_score g) (obstacles g)
    (last_obstacle_time g) v (mountains g) (clouds g) (messages g).
Definition set_clouds (v : list Cloud) (g : Game) : Game :=
  mkGame (width g) (height g) (road_line_offset g) (road_curvature g)
    (target_curve g) (road_segments g) (speed g) (car_x g) (car_speed_x g)
    (score g) (game_over g) (start_time g) (last_time_score g) (obstacles g)
    (last_obstacle_time g) (last_collision_time g) (mountains g) v
    (messages g).
Definition set_messages (v : list Message) (g : Game) : Game :=
  mkGame (width g) (height g) (road_line_offset g) (road_curvature g)
    (target_curve g) (road_segments g) (speed g) (car_x g) (car_speed_x g)
    (score g) (game_over g) (start_time g) (last_time_score g) (obstacles g)
    (last_obstacle_time g) (last_collision_time g) (mountains g) (clouds g) v.

(** *** The world outside the object

    [clock n] is what the n-th call of [time.time()] returns and [rnd n] the
    n-th draw of [random.random()], a float of [0, 1). *)
Record World : Type := mkWorld {
  clock : nat -> Q;
  clock_ix : nat;
  rnd : nat -> Q;
  rnd_ix : nat
}.

(** A method body: it reads and writes the object and the world. *)
Definition M (A : Type) : Type := Game -> World -> A * Game * World.

Definition ret {A : Type} (a : A) : M A := fun g w => (a, g, w).

Definition bind {A B : Type} (m : M A) (k : A -> M B) : M B :=
  fun g w => let '(a, g1, w1) := m g w in k a g1 w1.

Notation "x <- m ;; k" := (bind m (fun x => k))
  (at level 61, m at next level, right associativity).
Notation "m ;; k" := (bind m (fun _ => k))
  (at level 61, right associativity).

(** [self.f] read, and [self.f = v] written through a setter. *)
Definition self {A : Type} (f : Game -> A) : M A := fun g w => (f g, g, w).
Definition assign (f : Game -> Game) : M unit := fun g w => (tt, f g, w).
Definition when (b : bool) (m : M unit) : M unit := if b then m else ret tt.

Definition exec {A : Type} (m : M A) (g : Game) (w : World) : Game := snd (fst (m g w)).
Definition world_after {A : Type} (m : M A) (g : Game) (w : World) : World := snd (m g w).
Definition value {A : Type} (m : M A) (g : Game) (w : World) : A := fst (fst (m g w)).

(** [time.time()]. *)
Definition time : M Q :=
  fun g w => (clock w (clock_ix w), g,
              mkWorld (clock w) (S (clock_ix w)) (rnd w) (rnd_ix w)).

(** [random.random()]. *)
Definition random : M Q :=
  fun g w => (rnd w (rnd_ix w), g,
              mkWorld (clock w) (clock_ix w) (rnd w) (S (rnd_ix w))).

(** [random.uniform(a, b)], which is [a + (b - a) * random()]. *)
Definition uniform (a b : Q) : M Q :=
  u <- random ;; ret (a + (b - a) * u).

(** [random.randint(a, b)]: one draw scaled into the integers of [a, b]. *)
Definition randint (a b : Z) : M Z :=
  u <- random ;; ret (a + Py.int (u * inject_Z (b - a + 1)))%Z.

(** [_add_message] (lines 623-625). *)
Definition _add_message (message : string) : M unit :=
  t <- time ;;
  assign (fun g => set_messages (messages g ++ [(message, t)]) g).

(** [for x in l: body(x)]. *)
Fixpoint for_each {A : Type} (l : list A) (body : A -> M unit) : M unit :=
  match l with
  | [] => ret tt
  | x :: tl => body x ;; for_each tl body
  end.

(** [range(n)]. *)
Definition range (n : Z) : list Z := map Z.of_nat (seq 0 (Z.to_nat n)).

(** The smooth transition of [road_curvature] toward [target_curve]
    (lines 128-131 and again 237-240). *)
Definition approach_target_curve : M unit :=
  c <- self road_curvature ;;
  t <- self target_curve ;;
  if c <? t then
    assign (set_road_curvature (Py.min (c + curvature_change_speed) t))
  else if c >? t then
    assign (set_road_curvature (Py.max (c - curvature_change_speed) t))
  else ret tt.

(** [generate_road_segments] (lines 115-137). *)
Definition generate_road_segments : M unit :=
  assign (set_road_segments []) ;;
  n <- self num_segments ;;
  h <- self height ;;
  for_each (range n) (fun i =>
    let y := (Z.pos h - i * segment_height)%Z in
    r <- random ;;
    (if r <? 0.1 then
       t <- uniform (- max_curvature) max_curvature ;;
       assign (set_target_curve t)
     else ret tt) ;;
    approach_target_curve ;;
    c <- self road_curvature ;;
    assign (fun g => set_road_segments
                       (road_segments g ++ [mkSegment (inject_Z y) c]) g)).

(** [generate_mountains] (lines 139-155), ten of them. *)
Fixpoint mountains_from (w : N) (l : list Z) (acc : list Mountain)
  : M (list Mountain) :=
  match l with
  | [] => ret acc
  | i :: tl =>
      let x := Py.int (inject_Z (i * Z.of_N w) / 10) in
      height <- randint 20 50 ;;
      width <- randint 100 200 ;;
      mountains_from w tl (acc ++ [(x, height, width)])
  end.

Definition generate_mountains : M (list Mountain) :=
  w <- self width ;;
  mountains_from w (range 10) [].

(** [generate_clouds] (lines 157-174), five of them. *)
Fixpoint clouds_from (w : N) (l : list Z) (acc : list Cloud) : M (list Cloud) :=
  match l with
  | [] => ret acc
  | _ :: tl =>
      x <- randint 0 (Z.of_N w) ;;
      y <- randint 20 100 ;;
      radius <- randint 20 40 ;;
      speed <- uniform 0.2 0.5 ;;
      clouds_from w tl (acc ++ [(inject_Z x, y, radius, speed)])
  end.

Definition generate_clouds : M (list Cloud) :=
  w <- self width ;;
  clouds_from w (range 5) [].

(** The search loop of [_get_road_boundaries] (lines 317-324): the pair
    [(closest_segment, min_distance)] after the segments seen so far. *)
Definition closer (y_pos : Q) (best : option Segment * option Q) (segment : Segment)
  : option Segment * option Q :=
  let distance := Qabs (seg_y segment - y_pos) in
  if Py.lt_inf distance (snd best) then (Some segment, Some distance) else best.

Definition closest_segment (segments : list Segment) (y_pos : Q) : option Segment :=
  fst (fold_left (closer y_pos) segments (None, None)).

(** [_get_road_boundaries] (lines 314-337).  It changes nothing. *)
Definition _get_road_boundaries (g : Game) (y_pos : Q) : Q * Q :=
  match closest_segment (road_segments g) y_pos with
  | Some closest =>
      let center_x := inject_Z (road_center_x g)
                      + seg_curve closest * (y_pos / inject_Z (Z.pos (height g))) * 200 in
      let left_boundary := center_x - inject_Z (road_width / 2) in
      let right_boundary := center_x + inject_Z (road_width / 2) in
      (left_boundary, right_boundary)
  | None =>
      (inject_Z (road_center_x g - road_width / 2),
       inject_Z (road_center_x g + road_width / 2))
  end.

(** [_spawn_initial_obstacles] (lines 176-181). *)
Definition _spawn_initial_obstacles : M unit :=
  for_each (range 3) (fun i =>
    bounds <- self (fun g => _get_road_boundaries g (inject_Z (i * 200))) ;;
    let '(road_left, road_right) := bounds in
    obstacle_x <- uniform (road_left + 20)
                          (road_right - inject_Z obstacle_width - 20) ;;
    assign (fun g => set_obstacles
                       (obstacles g ++ [(obstacle_x, inject_Z (i * 200))]) g)).

(** [__init__] (lines 9-113), in the order of its assignments. *)
Definition __init__ (width : N) (height : positive) : World -> Game * World :=
  fun w =>
    let blank :=
      mkGame width height 0 0.0 0.0 [] 0.0 (inject_Z (Z.of_N width / 2)) 0 100
             false 0 0 [] 0 0 [] [] [] in
    let body : M unit :=
      t0 <- time ;;
      t1 <- time ;;
      t2 <- time ;;
      ms <- generate_mountains ;;
      cs <- generate_clouds ;;
      assign (fun g =>
        mkGame width height 0 0.0 0.0 [] 0.0 (inject_Z (Z.of_N width / 2)) 0 100
               false t0 t1 [] t2 0 ms cs []) ;;
      generate_road_segments ;;
      _spawn_initial_obstacles ;;
      assign (set_messages []) in
    (exec body blank w, world_after body blank w).

(** [pygame.Rect(x, y, w, h)]. *)
Record Rect : Type := mkRect { rect_x : Z; rect_y : Z; rect_w : Z; rect_h : Z }.

(** Modelled from the spec: [pygame.Rect.colliderect] is library code; the
    spec calls it "axis-aligned rectangle intersection", which for rectangles
    of positive size is the overlap of both projections. *)
Definition colliderect (a b : Rect) : bool :=
  ((rect_x a <? rect_x b + rect_w b) && (rect_x b <? rect_x a + rect_w a)
   && (rect_y a <? rect_y b + rect_h b) && (rect_y b <? rect_y a + rect_h a))%Z.

(** **** Blocks of [update], in source order *)

(** Speed from the head tilt, the clamp and the floor (lines 197-215). *)
Definition update_speed (head_tilt : Q) : M unit :=
  (if head_tilt <? -0.1 then
     assign (fun g => set_speed (speed g + acceleration * (- head_tilt) * 3) g) ;;
     _add_message "Accelerating..."
   else if head_tilt >? 0.1 then
     assign (fun g => set_speed (speed g - deceleration * head_tilt * 3) g) ;;
     _add_message "Braking..."
   else
     assign (fun g =>
       set_speed (speed g - (if speed g >? 0 then friction else - friction)) g)) ;;
  assign (fun g => set_speed (Py.max min_speed (Py.min max_speed (speed g))) g) ;;
  over <- self game_over ;;
  s <- self speed ;;
  when (negb over && (s <? 1.0)) (assign (set_speed 1.0)).

(** One turn of the loop that adds road segments (lines 232-247). *)
Definition add_road_segment : M unit :=
  r <- random ;;
  (if r <? 0.05 then
     t <- uniform (- max_curvature) max_curvature ;;
     assign (set_target_curve t)
   else ret tt) ;;
  approach_target_curve ;;
  segments <- self road_segments ;;
  c <- self road_curvature ;;
  let new_y := match segments with
               | first :: _ => seg_y first - inject_Z segment_height
               | [] => 0
               end in
  assign (set_road_segments (mkSegment new_y c :: segments)).

Fixpoint add_road_segments (turns : nat) : M unit :=
  match turns with
  | O => ret tt
  | S k => add_road_segment ;; add_road_segments k
  end.

(** The road scrolls (lines 217-247).  Every turn of the [while] loop
    inserts one segment, so it runs [num_segments - len(road_segments)]
    times, or not at all. *)
Definition scroll_road : M unit :=
  s <- self speed ;;
  when (s >? 0) (
    assign (fun g => set_road_line_offset (road_line_offset g + speed g * 3) g) ;;
    offset <- self road_line_offset ;;
    when (offset >? inject_Z (road_line_length + road_line_gap))
         (assign (set_road_line_offset 0)) ;;
    assign (fun g => set_road_segments
      (map (fun seg => mkSegment (seg_y seg + speed g * 3) (seg_curve seg))
           (road_segments g)) g) ;;
    assign (fun g => set_road_segments
      (filter (fun seg => seg_y seg <? inject_Z (Z.pos (height g) + segment_height))
              (road_segments g)) g) ;;
    missing <- self (fun g =>
      Z.to_nat (num_segments g - Z.of_nat (List.length (road_segments g)))) ;;
    add_road_segments missing).

(** The car moves sideways (lines 249-251). *)
Definition steer (head_angle : Q) : M unit :=
  assign (set_car_speed_x (head_angle * steering_sensitivity)) ;;
  assign (fun g => set_car_x (car_x g + car_speed_x g) g).

(** [time.time() - self.last_collision_time > self.collision_cooldown]. *)
Definition cooldown_elapsed : M bool :=
  t <- time ;;
  last <- self last_collision_time ;;
  ret (t - last >? collision_cooldown).

(** The off-road penalty (lines 256-263). *)
Definition off_road_check (road_left road_right : Q) : M unit :=
  x <- self car_x ;;
  when ((x <? road_left) || (x + inject_Z car_width >? road_right)) (
    elapsed <- cooldown_elapsed ;;
    when elapsed (
      assign (fun g => set_score (score g - off_road_penalty) g) ;;
      t <- time ;;
      assign (set_last_collision_time t) ;;
      _add_message "Off-road! -5 points")).

(** The car is kept near the road (lines 265-266). *)
Definition limit_car_to_road (road_left road_right : Q) : M unit :=
  assign (fun g => set_car_x
    (Py.max (road_left - 20)
            (Py.min (road_right - inject_Z car_width + 20) (car_x g))) g).

(** The loop of [_update_obstacles] over the obstacles (lines 343-353). *)
Fixpoint move_obstacles (l new_obstacles : list Obstacle) : M (list Obstacle) :=
  match l with
  | [] => ret new_obstacles
  | (x, y) :: tl =>
      s <- self speed ;;
      h <- self height ;;
      let y := y + s * 3 in
      if y <? inject_Z (Z.pos h) then
        move_obstacles tl (new_obstacles ++ [(x, y)])
      else
        assign (fun g => set_score (score g + 1) g) ;;
        _add_message "Avoided obstacle +1 point" ;;
        move_obstacles tl new_obstacles
  end.

(** [_update_obstacles] (lines 339-383).  [and] evaluates its operands
    from the left and stops at the first false one. *)
Definition _update_obstacles : M unit :=
  old <- self obstacles ;;
  new_obstacles <- move_obstacles old [] ;;
  assign (set_obstacles new_obstacles) ;;
  current_time <- time ;;
  last <- self last_obstacle_time ;;
  drawn <- (if current_time - last >? 1.0
            then r <- random ;; ret (r <? obstacle_spawn_rate)
            else ret false) ;;
  s <- self speed ;;
  when (drawn && (s >? 0.5)) (
    present <- self obstacles ;;
    let can_spawn :=
      forallb (fun o : Obstacle => negb (snd o <? min_obstacle_distance)) present in
    when can_spawn (
      bounds <- self (fun g => _get_road_boundaries g 0) ;;
      let '(road_left, road_right) := bounds in
      obstacle_x <- uniform (road_left + 20)
                            (road_right - inject_Z obstacle_width - 20) ;;
      assign (fun g => set_obstacles (obstacles g ++ [(obstacle_x, 0)]) g) ;;
      assign (set_last_obstacle_time current_time))).

(** The index of the first obstacle whose rectangle meets the car's. *)
Fixpoint first_hit (car_rect : Rect) (l : list Obstacle) (i : nat) : option nat :=
  match l with
  | [] => None
  | (x, y) :: tl =>
      let obstacle_rect := mkRect (Py.int x) (Py.int y) obstacle_width obstacle_height in
      if colliderect car_rect obstacle_rect then Some i
      else first_hit car_rect tl (S i)
  end.

(** [_check_collision] (lines 385-413). *)
Definition _check_collision : M bool :=
  x <- self car_x ;;
  y <- self car_y ;;
  let car_rect := mkRect (Py.int x) y car_width car_height in
  present <- self obstacles ;;
  match first_hit car_rect present 0 with
  | Some i =>
      assign (fun g => set_obstacles (Py.pop i (obstacles g)) g) ;;
      ret true
  | None =>
      bounds <- self (fun g => _get_road_boundaries g (inject_Z (car_y g))) ;;
      let '(road_left, road_right) := bounds in
      if (x + inject_Z car_width <? road_left - 50) || (x >? road_right + 50) then
        assign (fun g => set_score (score g - off_road_penalty * 2) g) ;;
        ret true
      else ret false
  end.

(** The collision penalty (lines 272-278). *)
Definition collision_check : M unit :=
  hit <- _check_collision ;;
  when hit (
    elapsed <- cooldown_elapsed ;;
    when elapsed (
      assign (fun g => set_score (score g - collision_penalty) g) ;;
      t <- time ;;
      assign (set_last_collision_time t) ;;
      _add_message "Collision! -10 points")).

(** The end of the game (lines 280-285). *)
Definition check_game_over : M unit :=
  sc <- self score ;;
  when (sc <=? 0)%Z (
    assign (set_score 0) ;;
    assign (set_game_over true) ;;
    _add_message "Game Over: Score is 0").

(** The clouds drift (lines 287-292). *)
Definition drift (w : N) (c : Cloud) : Cloud :=
  let '(x, y, radius, speed) := c in
  let x := x + speed in
  let x := if x >? inject_Z (Z.of_N w + radius) then inject_Z (- radius) else x in
  (x, y, radius, speed).

Definition update_clouds : M unit :=
  assign (fun g => set_clouds (map (drift (width g)) (clouds g)) g).

(** Score by speed (lines 294-296). *)
Definition speed_points (s : Q) : Z := Py.int (s * 0.01).

Definition score_by_speed : M unit :=
  s <- self speed ;;
  over <- self game_over ;;
  when ((s >? 0) && negb over)
       (assign (fun g => set_score (score g + speed_points (speed g)) g)).

(** Score by time (lines 298-304). *)
Definition score_by_time (current_time : Q) : M unit :=
  last <- self last_time_score ;;
  over <- self game_over ;;
  when ((current_time - last >=? time_score_interval) && negb over) (
    assign (fun g => set_score (score g + time_score_amount) g) ;;
    assign (set_last_time_score current_time) ;;
    _add_message "Survival bonus +5 points").

(** Old messages are dropped (lines 306-308). *)
Definition expire_messages (current_time : Q) : M unit :=
  assign (fun g => set_messages
    (filter (fun m : Message => current_time - snd m <? message_duration)
            (messages g)) g).

(** [update] (lines 183-312).  No statement of the body raises, so the
    [except] clause is never entered. *)
Definition update (head_angle head_tilt : Q) : M unit :=
  over <- self game_over ;;
  if over then ret tt
  else
    update_speed head_tilt ;;
    scroll_road ;;
    steer head_angle ;;
    bounds <- self (fun g => _get_road_boundaries g (inject_Z (car_y g))) ;;
    let '(road_left, road_right) := bounds in
    off_road_check road_left road_right ;;
    limit_car_to_road road_left road_right ;;
    _update_obstacles ;;
    collision_check ;;
    check_game_over ;;
    update_clouds ;;
    score_by_speed ;;
    current_time <- time ;;
    score_by_time current_time ;;
    expire_messages current_time.

(** A run of the driver loop: one [update] per pair of control signals. *)
Fixpoint play (signals : list (Q * Q)) : M unit :=
  match signals with
  | [] => ret tt
  | (head_angle, head_tilt) :: tl => update head_angle head_tilt ;; play tl
  end.

End RacingGame.

(** ** The head-pose pipeline: [class HeadTracker] *)

Module HeadTracker.

Local Open Scope Q_scope.
Local Open Scope py_scope.

(** A MediaPipe landmark: normalized [x], [y] and relative depth [z]. *)
Record Landmark : Type := mkLandmark { lm_x : Q; lm_y : Q; lm_z : Q }.

(** [face_landmarks.landmark], indexed by the topology of the face mesh. *)
Definition FaceLandmarks : Type := nat -> Landmark.

(** What the camera and the face mesh give for one frame: [None] when
    [cap.read()] fails, else [results.multi_face_landmarks], that is the
    landmarks of the one face looked for, or [None] without a face. *)
Definition Frame : Type := option (option FaceLandmarks).

(** The attributes the tracking logic reads or writes.  [cap] is [false]
    for [self.cap = None], the state [__init__] leaves without a camera. *)
Record Tracker : Type := mkTracker {
  cap : bool;
  calibration_samples : list (Q * Q);
  is_calibrated : bool;
  neutral_angle : Q;
  neutral_tilt : Q;
  last_angle : Q;
  last_tilt : Q;
  last_detection_time : Q;
  multi_face_landmarks : option FaceLandmarks;
  face_detected : bool;
  current_tilt : Q
}.

(** Attributes fixed by the constructor. *)
Definition calibration_count : nat := 30.
Definition angle_sensitivity : Q := 2.0.
Definition tilt_sensitivity : Q := 2.0.
Definition smoothing_factor : Q := 0.3.
Definition detection_timeout : Q := 1.0.
Definition calibration_timeout : Q := 10.

Definition set_calibration_samples (v : list (Q * Q)) (t : Tracker) : Tracker :=
  mkTracker (cap t) v (is_calibrated t) (neutral_angle t) (neutral_tilt t)
    (last_angle t) (last_tilt t) (last_detection_time t)
    (multi_face_landmarks t) (face_detected t) (current_tilt t).
Definition set_is_calibrated (v : bool) (t : Tracker) : Tracker :=
  mkTracker (cap t) (calibration_samples t) v (neutral_angle t) (neutral_tilt t)
    (last_angle t) (last_tilt t) (last_detection_time t)
    (multi_face_landmarks t) (face_detected t) (current_tilt t).
Definition set_neutral (angle tilt : Q) (t : Tracker) : Tracker :=
  mkTracker (cap t) (calibration_samples t) (is_calibrated t) angle tilt
    (last_angle t) (last_tilt t) (last_detection_time t)
    (multi_face_landmarks t) (face_detected t) (current_tilt t).
Definition set_last_angle (v : Q) (t : Tracker) : Tracker :=
  mkTracker (cap t) (calibration_samples t) (is_calibrated t) (neutral_angle t)
    (neutral_tilt t) v (last_tilt t) (last_detection_time t)
    (multi_face_landmarks t) (face_detected t) (current_tilt t).
Definition set_last_tilt (v : Q) (t : Tracker) : Tracker :=
  mkTracker (cap t) (calibration_samples t) (is_calibrated t) (neutral_angle t)
    (neutral_tilt t) (last_angle t) v (last_detection_time t)
    (multi_face_landmarks t) (face_detected t) (current_tilt t).
Definition set_last_detection_time (v : Q) (t : Tracker) : Tracker :=
  mkTracker (cap t) (calibration_samples t) (is_calibrated t) (neutral_angle t)
    (neutral_tilt t) (last_angle t) (last_tilt t) v
    (multi_face_landmarks t) (face_detected t) (current_tilt t).
Definition set_results (v : option FaceLandmarks) (t : Tracker) : Tracker :=
  mkTracker (cap t) (calibration_samples t) (is_calibrated t) (neutral_angle t)
    (neutral_tilt t) (last_angle t) (last_tilt t) (last_detection_time t)
    v (face_detected t) (current_tilt t).
Definition set_face_detected (v : bool) (t : Tracker) : Tracker :=
  mkTracker (cap t) (calibration_samples t) (is_calibrated t) (neutral_angle t)
    (neutral_tilt t) (last_angle t) (last_tilt t) (last_detection_time t)
    (multi_face_landmarks t) v (current_tilt t).
Definition set_current_tilt (v : Q) (t : Tracker) : Tracker :=
  mkTracker (cap t) (calibration_samples t) (is_calibrated t) (neutral_angle t)
    (neutral_tilt t) (last_angle t) (last_tilt t) (last_detection_time t)
    (multi_face_landmarks t) (face_detected t) v.

(** The world of the tracker: the clock and the frames of the camera. *)
Record World : Type := mkWorld {
  clock : nat -> Q;
  clock_ix : nat;
  camera : nat -> Frame;
  frame_ix : nat
}.

(** [time.time()]. *)
Definition time (w : World) : Q * World :=
  (clock w (clock_ix w), mkWorld (clock w) (S (clock_ix w)) (camera w) (frame_ix w)).

(** [cap.read()] followed by [face_mesh.process]. *)
Definition read_frame (w : World) : Frame * World :=
  (camera w (frame_ix w), mkWorld (clock w) (clock_ix w) (camera w) (S (frame_ix w))).

(** How a call ends: with a value, or with the exception it raises. *)
Inductive exn : Type := AttributeError.
Inductive outcome (A : Type) : Type :=
| Returned (a : A)
| Raised (e : exn).
Arguments Returned {A} a.
Arguments Raised {A} e.

(** The state [__init__] leaves (lines 9-81), [opened] telling whether one
    of the two cameras could be opened. *)
Definition __init__ (opened : bool) (w : World) : Tracker * World :=
  let '(t0, w1) := time w in
  let '(_, w2) := time w1 in
  (mkTracker opened [] false 0.0 0.0 0.0 0.0 t0 None false 0.0, w2).

Section Pose.

(** [math.atan2], a function of the library. *)
Variable atan2 : Q -> Q -> Q.

(** [_calculate_head_pose] (lines 229-252): [None] stands for the pair
    [(None, None)]. *)
Definition _calculate_head_pose (t : Tracker) : option (Q * Q) :=
  match multi_face_landmarks t with
  | None => None
  | Some face_landmarks =>
      let nose_tip := face_landmarks 4%nat in
      let left_eye := face_landmarks 33%nat in
      let right_eye := face_landmarks 263%nat in
      let dx_eyes := lm_x right_eye - lm_x left_eye in
      let dy_eyes := lm_y right_eye - lm_y left_eye in
      let angle := atan2 dy_eyes dx_eyes in
      let tilt := lm_z nose_tip in
      Some (angle, tilt)
  end.

(** [get_head_angle] (lines 174-198): the value returned and the tracker
    after the call. *)
Definition get_head_angle (t : Tracker) : Q * Tracker :=
  if negb (face_detected t) then (0.0, t)
  else
    match _calculate_head_pose t with
    | None => (0.0, t)
    | Some (angle, _) =>
        let angle := if is_calibrated t then angle - neutral_angle t else angle in
        let angle := angle * angle_sensitivity in
        let angle := Py.max (-1.0) (Py.min 1.0 angle) in
        let angle := last_angle t * (1 - smoothing_factor) + angle * smoothing_factor in
        (angle, set_last_angle angle t)
    end.

(** [get_head_tilt] (lines 200-227). *)
Definition get_head_tilt (t : Tracker) : Q * Tracker :=
  if negb (face_detected t) then (0.0, t)
  else
    match _calculate_head_pose t with
    | None => (0.0, t)
    | Some (_, tilt) =>
        let tilt := if is_calibrated t then tilt - neutral_tilt t else tilt in
        let tilt := tilt * tilt_sensitivity in
        let tilt := Py.max (-1.0) (Py.min 1.0 tilt) in
        let tilt := last_tilt t * (1 - smoothing_factor) + tilt * smoothing_factor in
        (tilt, set_current_tilt tilt (set_last_tilt tilt t))
    end.

(** What [_draw_control_indicators] (lines 296-350) does to the tracker:
    it asks for the angle and the tilt, which smooths both once more. *)
Definition _draw_control_indicators (t : Tracker) : Tracker :=
  match multi_face_landmarks t with
  | None => t
  | Some _ => snd (get_head_tilt (snd (get_head_angle t)))
  end.

(** [update] (lines 129-172).  [_draw_face_mesh] and
    [_draw_acceleration_status] only paint the frame. *)
Definition update (calibration_mode : bool) (t : Tracker) (w : World)
  : outcome bool * Tracker * World :=
  if negb (cap t) then (Raised AttributeError, t, w)
  else
    let '(frame, w1) := read_frame w in
    match frame with
    | None => (Returned false, t, w1)
    | Some results =>
        let t := set_results results t in
        match results with
        | Some _ =>
            let t := set_face_detected true t in
            let '(now, w2) := time w1 in
            let t := set_last_detection_time now t in
            let t := if negb calibration_mode then _draw_control_indicators t else t in
            (Returned (face_detected t), t, w2)
        | None =>
            let '(now, w2) := time w1 in
            let t := if now - last_detection_time t >? detection_timeout
                     then set_face_detected false t else t in
            (Returned (face_detected t), t, w2)
        end
    end.

(** [sum(xs)]: from [0], adding from the left. *)
Definition sum (xs : list Q) : Q := fold_left Qplus xs 0.

(** The end of [calibrate] once the loop is left (lines 114-127). *)
Definition neutral_position (t : Tracker) : bool * Tracker :=
  match calibration_samples t with
  | [] => (false, set_is_calibrated true (set_neutral 0.0 0.0 t))
  | samples =>
      let angles := map fst samples in
      let tilts := map snd samples in
      let n := inject_Z (Z.of_nat (List.length samples)) in
      (true, set_is_calibrated true
               (set_neutral (sum angles / n) (sum tilts / n) t))
  end.

(** The [while] loop of [calibrate] (lines 93-112) and what follows it.
    [fuel] bounds the number of times the loop condition is evaluated;
    [None] means the loop is still running when the fuel is spent. *)
Fixpoint calibrate_loop (fuel : nat) (calibration_start : Q) (t : Tracker) (w : World)
  : option (outcome bool * Tracker * World) :=
  match fuel with
  | O => None
  | S fuel =>
      if (List.length (calibration_samples t) <? calibration_count)%nat then
        let '(now, w1) := time w in
        if now - calibration_start >? calibration_timeout then
          Some (Returned false, set_is_calibrated true (set_neutral 0.0 0.0 t), w1)
        else
          match update true t w1 with
          | (Raised e, t2, w2) => Some (Raised e, t2, w2)
          | (Returned false, t2, w2) => calibrate_loop fuel calibration_start t2 w2
          | (Returned true, t2, w2) =>
              match _calculate_head_pose t2 with
              | Some (angle, tilt) =>
                  calibrate_loop fuel calibration_start
                    (set_calibration_samples
                       (calibration_samples t2 ++ [(angle, tilt)]) t2) w2
              | None => calibrate_loop fuel calibration_start t2 w2
              end
          end
      else
        let '(ok, t1) := neutral_position t in Some (Returned ok, t1, w)
  end.

(** [calibrate] (lines 83-127). *)
Definition calibrate (fuel : nat) (t : Tracker) (w : World)
  : option (outcome bool * Tracker * World) :=
  let t := set_is_calibrated false (set_calibration_samples [] t) in
  let '(calibration_start, w1) := time w in
  calibrate_loop fuel calibration_start t w1.

End Pose.

End HeadTracker.

(** ** The program: [run.py] *)

Module Driver.

Local Open Scope Q_scope.
Local Open Scope py_scope.

Definition WINDOW_WIDTH : N := 1024.
Definition WINDOW_HEIGHT : positive := 768.

(** Game states. *)
Inductive State : Type := STATE_CALIBRATION | STATE_GAME | STATE_PAUSED.

(** What [pygame.event.get()] hands to the loop: a request to quit, a key
    pressed, where the loop tells six keys from the rest, or any other
    event. *)
Inductive Key : Type := K_ESCAPE | K_SPACE | K_c | K_d | K_r | K_m | K_other.
Inductive Event : Type := QUIT | KEYDOWN (key : Key) | OTHER.

(** The four sounds of lines 58-84. *)
Inductive Sound : Type :=
  background_music | racing_sound | collision_sound | crash_sound.

Definition key_cooldown : Q := 0.2.

(** The world of the program: the clock and the generator of the game, the
    camera of the tracker, and what has been played so far. *)
Record World : Type := mkWorld {
  clock : nat -> Q;
  clock_ix : nat;
  rnd : nat -> Q;
  rnd_ix : nat;
  camera : nat -> HeadTracker.Frame;
  frame_ix : nat;
  speaker : list Sound
}.

(** The variables of the module.  [game_over_sound_played] is the attribute
    of that name of [racing_game], which [RacingGame.__init__] sets to
    [False] (racing.py, line 61) and only this file reads and writes;
    [sounds] tells whether the sounds could be loaded: they are four objects,
    or all [None] (lines 59-84). *)
Record Program : Type := mkProgram {
  head_tracker : HeadTracker.Tracker;
  racing_game : RacingGame.Game;
  game_over_sound_played : bool;
  sounds : bool;
  current_state : State;
  show_camera : bool;
  show_debug : bool;
  last_key_time : Q;
  running : bool
}.

Definition set_head_tracker (v : HeadTracker.Tracker) (p : Program) : Program :=
  mkProgram v (racing_game p) (game_over_sound_played p) (sounds p)
    (current_state p) (show_camera p) (show_debug p) (last_key_time p) (running p).
Definition set_racing_game (v : RacingGame.Game) (p : Program) : Program :=
  mkProgram (head_tracker p) v (game_over_sound_played p) (sounds p)
    (current_state p) (show_camera p) (show_debug p) (last_key_time p) (running p).
Definition set_game_over_sound_played (v : bool) (p : Program) : Program :=
  mkProgram (head_tracker p) (racing_game p) v (sounds p)
    (current_state p) (show_camera p) (show_debug p) (last_key_time p) (running p).
Definition set_current_state (v : State) (p : Program) : Program :=
  mkProgram (head_tracker p) (racing_game p) (game_over_sound_played p) (sounds p)
    v (show_camera p) (show_debug p) (last_key_time p) (running p).
Definition set_show_camera (v : bool) (p : Program) : Program :=
  mkProgram (head_tracker p) (racing_game p) (game_over_sound_played p) (sounds p)
    (current_state p) v (show_debug p) (last_key_time p) (running p).
Definition set_show_debug (v : bool) (p : Program) : Program :=
  mkProgram (head_tracker p) (racing_game p) (game_over_sound_played p) (sounds p)
    (current_state p) (show_camera p) v (last_key_time p) (running p).
Definition set_last_key_time (v : Q) (p : Program) : Program :=
  mkProgram (head_tracker p) (racing_game p) (game_over_sound_played p) (sounds p)
    (current_state p) (show_camera p) (show_debug p) v (running p).
Definition set_running (v : bool) (p : Program) : Program :=
  mkProgram (head_tracker p) (racing_game p) (game_over_sound_played p) (sounds p)
    (current_state p) (show_camera p) (show_debug p) (last_key_time p) v.

(** The part of the world a method of the tracker, or of the game, works
    in, and the world once it has returned. *)
Definition tracker_world (w : World) : HeadTracker.World :=
  HeadTracker.mkWorld (clock w) (clock_ix w) (camera w) (frame_ix w).
Definition after_tracker (tw : HeadTracker.World) (w : World) : World :=
  mkWorld (clock w) (HeadTracker.clock_ix tw) (rnd w) (rnd_ix w)
          (camera w) (HeadTracker.frame_ix tw) (speaker w).
Definition game_world (w : World) : RacingGame.World :=
  RacingGame.mkWorld (clock w) (clock_ix w) (rnd w) (rnd_ix w).
Definition after_game (gw : RacingGame.World) (w : World) : World :=
  mkWorld (clock w) (RacingGame.clock_ix gw) (rnd w) (RacingGame.rnd_ix gw)
          (camera w) (frame_ix w) (speaker w).

(** [time.time()]. *)
Definition time (w : World) : Q * World :=
  (clock w (clock_ix w),
   mkWorld (clock w) (S (clock_ix w)) (rnd w) (rnd_ix w)
           (camera w) (frame_ix w) (speaker w)).

(** [sound.play()]. *)
Definition play (sound : Sound) (w : World) : World :=
  mkWorld (clock w) (clock_ix w) (rnd w) (rnd_ix w)
          (camera w) (frame_ix w) (speaker w ++ [sound]).

(** SPACE and M (lines 119-125 and 136-143). *)
Definition toggle_pause (p : Program) : Program :=
  match current_state p with
  | STATE_GAME => set_current_state STATE_PAUSED p
  | STATE_PAUSED => set_current_state STATE_GAME p
  | STATE_CALIBRATION => p
  end.

(** The sound effects of a game tick (lines 165-179); [play] is taken not
    to raise. *)
Definition sound_effects (previous_speed previous_collision_time : Q)
  (p : Program) (w : World) : Program * World :=
  let g := racing_game p in
  let w := if sounds p && (RacingGame.speed g >? previous_speed + 0.5)
           then play racing_sound w else w in
  let w := if sounds p
              && (RacingGame.last_collision_time g >? previous_collision_time)
           then play collision_sound w else w in
  if sounds p && RacingGame.game_over g && negb (game_over_sound_played p)
  then (set_game_over_sound_played true p, play crash_sound w)
  else (p, w).

(** The game in an iteration (lines 156-179). *)
Definition game_tick (head_angle head_tilt : Q) (p : Program) (w : World)
  : Program * World :=
  match current_state p with
  | STATE_GAME =>
      let previous_speed := RacingGame.speed (racing_game p) in
      let previous_collision_time :=
        RacingGame.last_collision_time (racing_game p) in
      let '(_, g, gw) :=
        RacingGame.update head_angle head_tilt (racing_game p) (game_world w) in
      sound_effects previous_speed previous_collision_time
                    (set_racing_game g p) (after_game gw w)
  | _ => (p, w)
  end.

(** What [racing_game.render()] (racing.py, lines 415-502) does besides
    painting: it reads the clock for the game time, and once more on the
    game-over screen (lines 479 and 589). *)
Definition render (p : Program) (w : World) : World :=
  let w := snd (time w) in
  if RacingGame.game_over (racing_game p) then snd (time w) else w.

Section Loop.

(** [math.atan2], and a bound on the turns of the calibration loop. *)
Variable atan2 : Q -> Q -> Q.
Variable fuel : nat.

(** One event (lines 110-143).  [None]: a calibration asked for with R is
    still running when the fuel is spent. *)
Definition handle_event (event : Event) (p : Program) (w : World)
  : option (HeadTracker.outcome unit * Program * World) :=
  match event with
  | QUIT => Some (HeadTracker.Returned tt, set_running false p, w)
  | KEYDOWN key =>
      let '(current_time, w) := time w in
      if current_time - last_key_time p >? key_cooldown then
        let p := set_last_key_time current_time p in
        match key with
        | K_ESCAPE => Some (HeadTracker.Returned tt, set_running false p, w)
        | K_SPACE => Some (HeadTracker.Returned tt, toggle_pause p, w)
        | K_c =>
            Some (HeadTracker.Returned tt,
                  set_show_camera (negb (show_camera p)) p, w)
        | K_d =>
            Some (HeadTracker.Returned tt,
                  set_show_debug (negb (show_debug p)) p, w)
        | K_r =>
            match HeadTracker.calibrate atan2 fuel (head_tracker p)
                                        (tracker_world w) with
            | None => None
            | Some (HeadTracker.Returned _, t, tw) =>
                Some (HeadTracker.Returned tt, set_head_tracker t p,
                      after_tracker tw w)
            | Some (HeadTracker.Raised e, t, tw) =>
                Some (HeadTracker.Raised e, set_head_tracker t p,
                      after_tracker tw w)
            end
        | K_m => Some (HeadTracker.Returned tt, toggle_pause p, w)
        | K_other => Some (HeadTracker.Returned tt, p, w)
        end
      else Some (HeadTracker.Returned tt, p, w)
  | OTHER => Some (HeadTracker.Returned tt, p, w)
  end.

(** [for event in pygame.event.get()] (line 109). *)
Fixpoint handle_events (events : list Event) (p : Program) (w : World)
  : option (HeadTracker.outcome unit * Program * World) :=
  match events with
  | [] => Some (HeadTracker.Returned tt, p, w)
  | event :: events =>
      match handle_event event p w with
      | Some (HeadTracker.Returned _, p, w) => handle_events events p w
      | other => other
      end
  end.

(** The tracker and the game in an iteration (lines 148-183). *)
Definition frame (p : Program) (w : World)
  : HeadTracker.outcome unit * Program * World :=
  match HeadTracker.update atan2 false (head_tracker p) (tracker_world w) with
  | (HeadTracker.Raised e, t, tw) =>
      (HeadTracker.Raised e, set_head_tracker t p, after_tracker tw w)
  | (HeadTracker.Returned _, t, tw) =>
      let w := after_tracker tw w in
      let '(head_angle, t) := HeadTracker.get_head_angle atan2 t in
      let '(head_tilt, t) := HeadTracker.get_head_tilt atan2 t in
      let '(p, w) := game_tick head_angle head_tilt (set_head_tracker t p) w in
      (HeadTracker.Returned tt, p, render p w)
  end.

(** One iteration of the main loop (lines 108-234), on the events that
    have arrived since the last one.  The camera picture and the debug panel
    (lines 185-228) only paint. *)
Definition iteration (events : list Event) (p : Program) (w : World)
  : option (HeadTracker.outcome unit * Program * World) :=
  match handle_events events p w with
  | Some (HeadTracker.Returned _, p, w) => Some (frame p w)
  | other => other
  end.

(** [while running:] (line 107), as far as the events are known: one list
    of events for each iteration. *)
Fixpoint main_loop (arrivals : list (list Event)) (p : Program) (w : World)
  : option (HeadTracker.outcome unit * Program * World) :=
  match arrivals with
  | [] => Some (HeadTracker.Returned tt, p, w)
  | events :: arrivals =>
      if running p then
        match iteration events p w with
        | Some (HeadTracker.Returned _, p, w) => main_loop arrivals p w
        | other => other
        end
      else Some (HeadTracker.Returned tt, p, w)
  end.

(** The program up to the main loop (lines 38-103): the tracker, the game,
    the sounds and the calibration.  [opened] tells whether a camera could
    be opened and [loaded] whether the sounds could be loaded. *)
Definition start (opened loaded : bool) (w : World)
  : option (HeadTracker.outcome Program * World) :=
  let '(t, tw) := HeadTracker.__init__ opened (tracker_world w) in
  let w := after_tracker tw w in
  let '(g, gw) := RacingGame.__init__ WINDOW_WIDTH WINDOW_HEIGHT (game_world w) in
  let w := after_game gw w in
  let w := if loaded then play background_music w else w in
  match HeadTracker.calibrate atan2 fuel t (tracker_world w) with
  | None => None
  | Some (HeadTracker.Raised e, _, tw) =>
      Some (HeadTracker.Raised e, after_tracker tw w)
  | Some (HeadTracker.Returned _, t, tw) =>
      Some (HeadTracker.Returned
              (mkProgram t g false loaded STATE_GAME true false 0 true),
            after_tracker tw w)
  end.

End Loop.

End Driver.

(** ** Vocabulary of the properties *)

Module Spec.

Import RacingGame.

(** A relation between the state before and after a body. *)
Definition Rel : Type := Game -> World -> Game -> World -> Prop.

(** [m] takes every state to one that [R] relates to it. *)
Definition steps {A : Type} (R : Rel) (m : M A) : Prop :=
  forall g w, R g w (exec m g w) (world_after m g w).

Class Pre (R : Rel) : Prop := {
  pre_refl : forall g w, R g w g w;
  pre_trans : forall g1 w1 g2 w2 g3 w3,
    R g1 w1 g2 w2 -> R g2 w2 g3 w3 -> R g1 w1 g3 w3
}.

(** An attribute keeps its value. *)
Definition same {B : Type} (f : Game -> B) : Rel := fun g _ g' _ => f g' = f g.

(** The oracles stay and the clock is only read forward. *)
Definition world_forward : Rel := fun _ w _ w' =>
  clock w' = clock w /\ rnd w' = rnd w
  /\ (clock_ix w <= clock_ix w')%nat /\ (rnd_ix w <= rnd_ix w')%nat.

(** The score does not go down. *)
Definition score_up : Rel := fun g _ g' _ => (score g <= score g')%Z.

(** [m] started where [P] holds ends where [Q] holds of its value. *)
Definition hoare {A : Type} (P : Game -> World -> Prop) (m : M A)
  (Q : A -> Game -> World -> Prop) : Prop :=
  forall g w, P g w -> Q (value m g w) (exec m g w) (world_after m g w).

(** A condition on states seen as a relation: once true it stays true. *)
Definition stable (I : Game -> World -> Prop) : Rel :=
  fun g w g' w' => I g w -> I g' w'.

(** The score and the end of the game agree: the game is over with score
    [0], or it runs with a positive score. *)
Definition settled (g : Game) : Prop :=
  (game_over g = true /\ score g = 0%Z) \/ (game_over g = false /\ (0 < score g)%Z).

(** The clock never goes back. *)
Definition monotone (clock : nat -> Q) : Prop :=
  forall i j, (i <= j)%nat -> (clock i <= clock j)%Q.

(** A world for examples: a clock that starts at 1000 s and advances by a
    quarter of a second at each reading, and a generator whose draws are all
    one half (no new target curvature, no obstacle). *)
Definition example_clock (n : nat) : Q := 1000 + inject_Z (Z.of_nat n) / 4.
Definition example_world : World := mkWorld example_clock 0 (fun _ => 0.5%Q) 0.

(** [RacingGame(800, 600)] in that world, and the world it leaves. *)
Definition new_game : Game := fst (__init__ 800 600 example_world).
Definition new_world : World := snd (__init__ 800 600 example_world).

(** The same game two ticks later, the head held away from the camera. *)
Definition rolling_game : Game :=
  exec (play [(0, -1); (0, -1)]) new_game new_world.
Definition rolling_world : World :=
  world_after (play [(0, -1); (0, -1)]) new_game new_world.

(** The same game one tick later, the head held still. *)
Definition idle_game : Game := exec (update 0 0) new_game new_world.
Definition idle_world : World := world_after (update 0 0) new_game new_world.

(** A step that reads the clock at most forward, leaves the time of the
    last penalty alone and does not lower the score. *)
Definition quiet : Rel := fun g w g' w' =>
  clock w' = clock w /\ (clock_ix w <= clock_ix w')%nat
  /\ last_collision_time g' = last_collision_time g
  /\ (score g <= score g')%Z.

(** The road under the car is the same. *)
Definition same_road : Rel := fun g _ g' _ =>
  road_segments g' = road_segments g /\ width g' = width g
  /\ height g' = height g.

(** The car is where [limit_car_to_road] puts it: at most 20 units off
    either side of the road at its height. *)
Definition near_road (g : Game) : Prop :=
  let '(road_left, road_right) := _get_road_boundaries g (inject_Z (car_y g)) in
  (road_left - 20 <= car_x g /\ car_x g <= road_right - inject_Z car_width + 20)%Q.

(** What has happened to the penalties since a state with last penalty time
    [last0] and score [score0], [start] clock readings into the world: either
    no penalty was taken, or the time of the last penalty has moved by more
    than the cooldown and some reading since then was that late. *)
Definition since (ck : nat -> Q) (start : nat) (last0 : Q) (score0 : Z)
  : Game -> World -> Prop := fun g w =>
  clock w = ck /\ (start <= clock_ix w)%nat
  /\ ((last_collision_time g = last0 /\ (score0 <= score g)%Z)
      \/ ((last0 + collision_cooldown < last_collision_time g)%Q
          /\ exists i, (start <= i < clock_ix w)%nat
                       /\ (collision_cooldown < ck i - last0)%Q)).

(** The example game after a jerk of the head has thrown the car far off
    the road to the left, and then tick after tick with the head held still:
    the car stays off the road, 20 units left of it. *)
Definition skid (ticks : nat) : M unit :=
  play ((-100, 0) :: repeat (0, 0) ticks).
Definition skid_game (ticks : nat) : Game := exec (skid ticks) new_game new_world.
Definition skid_world (ticks : nat) : World :=
  world_after (skid ticks) new_game new_world.

(** The part of [update] that comes before the road boundaries are asked
    for and the off-road check is made. *)
Definition before_off_road_check (head_angle head_tilt : Q) : M unit :=
  update_speed head_tilt;; scroll_road;; steer head_angle.

(** The rectangle of the car as [_check_collision] builds it. *)
Definition car_rect (g : Game) : Rect :=
  mkRect (Py.int (car_x g)) (car_y g) car_width car_height.

(** The rectangle of an obstacle as [_check_collision] builds it, and the
    obstacles it meets the car in. *)
Definition obstacle_rect (o : Obstacle) : Rect :=
  mkRect (Py.int (fst o)) (Py.int (snd o)) obstacle_width obstacle_height.
Definition hits (g : Game) (o : Obstacle) : Prop :=
  colliderect (car_rect g) (obstacle_rect o) = true.

(** The test of line 403: the car lies wholly more than 50 units outside
    the road at its height. *)
Definition severely_off_road (g : Game) : Prop :=
  let '(road_left, road_right) := _get_road_boundaries g (inject_Z (car_y g)) in
  (car_x g + inject_Z car_width < road_left - 50 \/ road_right + 50 < car_x g)%Q.

(** An obstacle is still on the screen after it has moved with the road. *)
Definition stays (g : Game) (o : Obstacle) : bool :=
  Py.Qltb (snd o + speed g * 3) (inject_Z (Z.pos (height g))).
Definition moved (g : Game) (o : Obstacle) : Obstacle :=
  (fst o, (snd o + speed g * 3)%Q).

(** The attributes a new game starts with, kept while the road and the
    obstacles are laid out. *)
Definition fresh (w : N) (h : positive) (g : Game) : Prop :=
  width g = w /\ height g = h /\ score g = 100%Z /\ speed g = 0.0%Q
  /\ game_over g = false /\ car_x g = inject_Z (Z.of_N w / 2)
  /\ last_collision_time g = 0%Q.

(** The attributes of [fresh] are the same. *)
Definition same_start : Rel := fun g _ g' _ =>
  width g' = width g /\ height g' = height g /\ score g' = score g
  /\ speed g' = speed g /\ game_over g' = game_over g /\ car_x g' = car_x g
  /\ last_collision_time g' = last_collision_time g.

(** The curvatures stay within [max_curvature]: the current one, the
    target and that of every segment. *)
Definition curves_bounded (g : Game) : Prop :=
  (- max_curvature <= road_curvature g /\ road_curvature g <= max_curvature)%Q
  /\ (- max_curvature <= target_curve g /\ target_curve g <= max_curvature)%Q
  /\ Forall (fun s => (- max_curvature <= seg_curve s /\ seg_curve s <= max_curvature)%Q)
            (road_segments g).

(** The curvatures are the same. *)
Definition same_curves : Rel := fun g _ g' _ =>
  road_curvature g' = road_curvature g /\ target_curve g' = target_curve g
  /\ road_segments g' = road_segments g.

(** [random.random()] gives floats of [0, 1). *)
Definition unit_draws (rnd : nat -> Q) : Prop :=
  forall n, (0 <= rnd n /\ rnd n < 1)%Q.

(** A step that leaves the time of the last survival bonus alone and reads
    the clock at most forward. *)
Definition unpaid : Rel := fun g w g' w' =>
  last_time_score g' = last_time_score g
  /\ clock w' = clock w /\ (clock_ix w <= clock_ix w')%nat.

(** What has happened to the survival bonus since a state with time of the
    last bonus [last0], [start] clock readings into the world: either none
    was paid, or one was, to a game that goes on, at a reading at least
    [time_score_interval] after [last0] that is now the time of the last
    bonus. *)
Definition bonus_since (ck : nat -> Q) (start : nat) (last0 : Q)
  : Game -> World -> Prop := fun g w =>
  last_time_score g = last0
  \/ (game_over g = false
      /\ exists i, (start <= i < clock_ix w)%nat
                   /\ last_time_score g = ck i
                   /\ (time_score_interval <= ck i - last0)%Q).

End Spec.

Export Spec.

(** ** Vocabulary of the properties of the tracker *)

Module TrackerSpec.

Import HeadTracker.
Local Open Scope Q_scope.
Local Open Scope py_scope.

(** The clamp as the specification words it: [v] limited to [[lo, hi]]. *)
Definition clamp (v lo hi : Q) : Q :=
  if v <? lo then lo else if v >? hi then hi else v.

(** One step of exponential smoothing with factor [alpha]. *)
Definition smoothed (previous new_value alpha : Q) : Q :=
  previous * (1 - alpha) + new_value * alpha.

(** Both smoothing states lie in [[-1, 1]]. *)
Definition bounded (t : Tracker) : Prop :=
  (-1 <= last_angle t /\ last_angle t <= 1)
  /\ (-1 <= last_tilt t /\ last_tilt t <= 1).

(** The trackers a program can hold: the constructor's, and those its
    methods leave. *)
Inductive reachable (atan2 : Q -> Q -> Q) : Tracker -> Prop :=
| reach_init (opened : bool) (w : World) :
    reachable atan2 (fst (__init__ opened w))
| reach_update (calibration_mode : bool) (t : Tracker) (w : World) :
    reachable atan2 t ->
    reachable atan2 (snd (fst (update atan2 calibration_mode t w)))
| reach_angle (t : Tracker) :
    reachable atan2 t -> reachable atan2 (snd (get_head_angle atan2 t))
| reach_tilt (t : Tracker) :
    reachable atan2 t -> reachable atan2 (snd (get_head_tilt atan2 t))
| reach_calibrate (fuel : nat) (t : Tracker) (w : World)
    (r : outcome bool) (t' : Tracker) (w' : World) :
    reachable atan2 t ->
    calibrate atan2 fuel t w = Some (r, t', w') ->
    reachable atan2 t'.

(** A face looking straight at the camera, the eyes level, the nose tip
    a little nearer than the rest. *)
Definition level_face : FaceLandmarks := fun i =>
  match i with
  | 4%nat => mkLandmark 0.5 0.5 (-0.05)
  | 33%nat => mkLandmark 0.4 0.4 0
  | 263%nat => mkLandmark 0.6 0.4 0
  | _ => mkLandmark 0.5 0.5 0
  end.

(** [math.atan2] where the examples call it: the eyes of [level_face] are
    level, and [atan2(0, dx)] is [0] for a positive [dx]. *)
Definition level_atan2 (dy dx : Q) : Q := 0.

(** Worlds for examples: the clock advances by a quarter of a second at
    each reading; the camera shows [level_face] in every frame, or never a
    face. *)
Definition quarter_clock (n : nat) : Q := 1000 + inject_Z (Z.of_nat n) / 4.
Definition face_world : World :=
  mkWorld quarter_clock 0 (fun _ => Some (Some level_face)) 0.
Definition empty_world : World :=
  mkWorld quarter_clock 0 (fun _ => Some None) 0.

(** A tracker that has just seen the face of [face_world]. *)
Definition watching : Tracker :=
  snd (fst (update level_atan2 false
              (fst (__init__ true face_world)) (snd (__init__ true face_world)))).

(** What [calibrate] has done when it returns [r] and leaves [t]. *)
Definition calibration_result (r : bool) (t : Tracker) : Prop :=
  is_calibrated t = true
  /\ ((List.length (calibration_samples t) < calibration_count)%nat ->
      r = false /\ neutral_angle t = 0.0 /\ neutral_tilt t = 0.0)
  /\ ((calibration_count <= List.length (calibration_samples t))%nat -> r = true).

(** The tracker a calibration in front of that face leaves. *)
Definition calibrated : Tracker :=
  match calibrate level_atan2 40 (fst (__init__ true face_world))
                  (snd (__init__ true face_world)) with
  | Some (_, t, _) => t
  | None => fst (__init__ true face_world)
  end.

(** The same face before a clock that advances by a twentieth of a second
    at each reading, the calibration in front of it, which has the time to
    collect all its samples, and the tracker and the world it leaves. *)
Definition brisk_clock (n : nat) : Q := 1000 + inject_Z (Z.of_nat n) / 20.
Definition brisk_world : World :=
  mkWorld brisk_clock 0 (fun _ => Some (Some level_face)) 0.
Definition calibration_run : option (outcome bool * Tracker * World) :=
  calibrate level_atan2 40 (fst (__init__ true brisk_world))
            (snd (__init__ true brisk_world)).
Definition steady : Tracker :=
  match calibration_run with
  | Some (_, t, _) => t
  | None => fst (__init__ true brisk_world)
  end.
Definition calibrated_world : World :=
  match calibration_run with
  | Some (_, _, w) => w
  | None => brisk_world
  end.

(** The raw pose of a face, as [_calculate_head_pose] computes it. *)
Definition raw_angle (atan2 : Q -> Q -> Q) (face : FaceLandmarks) : Q :=
  atan2 (lm_y (face 263%nat) - lm_y (face 33%nat))
        (lm_x (face 263%nat) - lm_x (face 33%nat)).
Definition raw_tilt (face : FaceLandmarks) : Q := lm_z (face 4%nat).

(** The arithmetic mean. *)
Definition mean (xs : list Q) : Q :=
  sum xs / inject_Z (Z.of_nat (List.length xs)).

(** The value a frame asks the smoothing to approach: the raw pose less the
    neutral one once calibrated, scaled by the sensitivity [2.0] and limited
    to [[-1, 1]]. *)
Definition target (raw neutral : Q) (is_calibrated : bool) : Q :=
  clamp ((if is_calibrated then raw - neutral else raw) * 2.0) (-1) 1.

End TrackerSpec.

Export TrackerSpec.

(** ** Vocabulary of the properties of the program *)

Module DriverSpec.

Import Driver.

(** How often a sound has been played. *)
Definition same_sound (a b : Sound) : bool :=
  match a, b with
  | background_music, background_music => true
  | racing_sound, racing_sound => true
  | collision_sound, collision_sound => true
  | crash_sound, crash_sound => true
  | _, _ => false
  end.
Definition times_played (sound : Sound) (w : World) : nat :=
  List.length (filter (same_sound sound) (speaker w)).

(** The game is past its first tick: the floor of the speed applies. *)
Definition warm (p : Program) : Prop :=
  (1 <= RacingGame.speed (racing_game p))%Q.

(** What the loop does to the racing sound, for a tracker a program can
    hold: it plays it at most once, and not at all once the game is warm. *)
Definition racing_once (atan2 : Q -> Q -> Q) (p : Program) (w : World)
  (p' : Program) (w' : World) : Prop :=
  reachable atan2 (head_tracker p) ->
  reachable atan2 (head_tracker p')
  /\ (times_played racing_sound w <= times_played racing_sound w'
      <= times_played racing_sound w + 1)%nat
  /\ (warm p -> times_played racing_sound w' = times_played racing_sound w
                /\ warm p')
  /\ ((times_played racing_sound w < times_played racing_sound w')%nat -> warm p').

(** What the loop does to the crash sound: it plays it when it sets the
    flag, which it never clears and sets only for a game that is over. *)
Definition crash_once (p : Program) (w : World) (p' : Program) (w' : World)
  : Prop :=
  times_played crash_sound w'
  = (times_played crash_sound w
     + if negb (game_over_sound_played p) && game_over_sound_played p'
       then 1 else 0)%nat
  /\ (game_over_sound_played p = true -> game_over_sound_played p' = true)
  /\ (RacingGame.game_over (racing_game p) = true ->
      RacingGame.game_over (racing_game p') = true)
  /\ (game_over_sound_played p' = true ->
      game_over_sound_played p = true
      \/ RacingGame.game_over (racing_game p') = true).

(** A program whose loop is about to start, in front of the face of
    [brisk_world]: the tracker calibrated, the game new. *)
Definition ready : Program :=
  mkProgram steady new_game false true STATE_GAME true false 0 true.
Definition stage : World :=
  mkWorld brisk_clock 0 (fun _ => 0.5%Q) 0 (fun _ => Some (Some level_face)) 0 [].

End DriverSpec.

Export DriverSpec.

(** * Properties *)

(** ** Python numerics *)

Section PyFacts.

Local Open Scope Q_scope.
Local Open Scope py_scope.

Lemma Qltb_lt (a b : Q) : (a <? b) = true <-> a < b.
Proof.
  unfold Py.Qltb. rewrite negb_true_iff.
  split; intro H.
  - apply Qnot_le_lt. intro L. apply Qle_bool_iff in L. congruence.
  - destruct (Qle_bool b a) eqn:E; [|reflexivity].
    apply Qle_bool_iff in E. exfalso. apply (Qlt_not_le _ _ H E).
Qed.

Lemma Qltb_ge (a b : Q) : (a <? b) = false <-> b <= a.
Proof.
  unfold Py.Qltb. rewrite negb_false_iff. apply Qle_bool_iff.
Qed.

Lemma Qleb_gt (a b : Q) : (a <=? b) = false <-> b < a.
Proof.
  split; intro H.
  - apply Qnot_le_lt. intro L. apply Qle_bool_iff in L. congruence.
  - destruct (Qle_bool a b) eqn:E; [|reflexivity].
    apply Qle_bool_iff in E. exfalso. apply (Qlt_not_le _ _ H E).
Qed.

Lemma max_cases (a b : Q) :
  (a < b /\ Py.max a b = b) \/ (b <= a /\ Py.max a b = a).
Proof.
  unfold Py.max. destruct (a <? b) eqn:E.
  - left. split; [apply Qltb_lt, E | reflexivity].
  - right. split; [apply Qltb_ge, E | reflexivity].
Qed.

Lemma min_cases (a b : Q) :
  (b < a /\ Py.min a b = b) \/ (a <= b /\ Py.min a b = a).
Proof.
  unfold Py.min. destruct (b <? a) eqn:E.
  - left. split; [apply Qltb_lt, E | reflexivity].
  - right. split; [apply Qltb_ge, E | reflexivity].
Qed.

(** [max(lo, min(hi, x))] lies between the bounds when they are ordered. *)
Lemma clamp_bounds (lo hi x : Q) :
  lo <= hi -> lo <= Py.max lo (Py.min hi x) /\ Py.max lo (Py.min hi x) <= hi.
Proof.
  intro H.
  destruct (min_cases hi x) as [[H1 ->]|[H1 ->]];
    [destruct (max_cases lo x) as [[H2 ->]|[H2 ->]]
    |destruct (max_cases lo hi) as [[H2 ->]|[H2 ->]]]; split; lra.
Qed.

(** Inside the bounds the clamp gives back its argument. *)
Lemma clamp_inside (lo hi x : Q) :
  lo <= x -> x <= hi -> Py.max lo (Py.min hi x) == x.
Proof.
  intros H1 H2.
  destruct (min_cases hi x) as [[H3 ->]|[H3 ->]];
    [destruct (max_cases lo x) as [[H4 ->]|[H4 ->]]
    |destruct (max_cases lo hi) as [[H4 ->]|[H4 ->]]]; lra.
Qed.

(** [int] of a float of [0, 1) is [0]. *)
Lemma int_small (q : Q) : 0 <= q -> q < 1 -> Py.int q = 0%Z.
Proof.
  unfold Qle, Qlt, Py.int. simpl. intros H1 H2.
  apply Z.quot_small. lia.
Qed.

Lemma int_nonneg (q : Q) : 0 <= q -> (0 <= Py.int q)%Z.
Proof.
  unfold Qle, Py.int. simpl. intro H.
  apply Z.quot_pos; lia.
Qed.

End PyFacts.

(** Case analysis on the comparisons a goal or a hypothesis branches on. *)
Ltac qcase c :=
  let E := fresh "E" in
  destruct c eqn:E;
  [ first [ apply Qltb_lt in E | apply Qle_bool_iff in E | idtac ]
  | first [ apply Qltb_ge in E | apply Qleb_gt in E | idtac ] ].

(** ** Reasoning on method bodies *)

Section Steps.

Import RacingGame.

Lemma run_bind {A B : Type} (m : M A) (k : A -> M B) (g : Game) (w : World) :
  bind m k g w = k (value m g w) (exec m g w) (world_after m g w).
Proof.
  unfold bind, value, exec, world_after.
  destruct (m g w) as [[a g1] w1]. reflexivity.
Qed.

Lemma exec_bind {A B : Type} (m : M A) (k : A -> M B) (g : Game) (w : World) :
  exec (bind m k) g w = exec (k (value m g w)) (exec m g w) (world_after m g w).
Proof. unfold exec at 1. rewrite run_bind. reflexivity. Qed.

Lemma world_after_bind {A B : Type} (m : M A) (k : A -> M B) (g : Game) (w : World) :
  world_after (bind m k) g w
  = world_after (k (value m g w)) (exec m g w) (world_after m g w).
Proof. unfold world_after at 1. rewrite run_bind. reflexivity. Qed.

Lemma value_bind {A B : Type} (m : M A) (k : A -> M B) (g : Game) (w : World) :
  value (bind m k) g w = value (k (value m g w)) (exec m g w) (world_after m g w).
Proof. unfold value at 1. rewrite run_bind. reflexivity. Qed.

Context (R : Rel) {HR : Pre R}.

Lemma steps_ret {A : Type} (a : A) : steps R (ret a).
Proof. intros g w. apply pre_refl. Qed.

Lemma steps_self {A : Type} (f : Game -> A) : steps R (self f).
Proof. intros g w. apply pre_refl. Qed.

Lemma steps_bind {A B : Type} (m : M A) (k : A -> M B) :
  steps R m -> (forall a, steps R (k a)) -> steps R (bind m k).
Proof.
  intros Hm Hk g w. rewrite exec_bind, world_after_bind.
  eapply pre_trans; [apply Hm | apply Hk].
Qed.

Lemma steps_when (b : bool) (m : M unit) : steps R m -> steps R (when b m).
Proof. intro Hm. destruct b; [exact Hm | apply steps_ret]. Qed.

Lemma steps_for_each {A : Type} (l : list A) (body : A -> M unit) :
  (forall a, steps R (body a)) -> steps R (for_each l body).
Proof.
  intro Hb. induction l as [|a l IH]; simpl.
  - apply steps_ret.
  - apply steps_bind; [apply Hb | intros _; exact IH].
Qed.

Lemma steps_add_road_segments (n : nat) :
  steps R add_road_segment -> steps R (add_road_segments n).
Proof.
  intro Hb. induction n as [|n IH]; simpl.
  - apply steps_ret.
  - apply steps_bind; [exact Hb | intros _; exact IH].
Qed.

Lemma steps_play (signals : list (Q * Q)) :
  (forall a t, steps R (update a t)) -> steps R (play signals).
Proof.
  intro Hu. induction signals as [|[a t] l IH]; simpl.
  - apply steps_ret.
  - apply steps_bind; [apply Hu | intros _; exact IH].
Qed.

End Steps.

(** Splits a goal [steps R m] along the structure of [m]; what is left are
    the assignments, the oracle calls and the loops. *)
Ltac walk :=
  repeat match goal with
  | |- steps _ (RacingGame.ret _) => refine (steps_ret _ _)
  | |- steps _ (RacingGame.self _) => refine (steps_self _ _)
  | |- steps _ (RacingGame.bind _ _) => refine (steps_bind _ _ _ _ _); [ | intro ]
  | |- steps _ (RacingGame.when _ _) => refine (steps_when _ _ _ _)
  | |- steps _ (if ?c then _ else _) => destruct c
  | |- steps _ (let '(_, _) := ?p in _) => destruct p
  | |- steps _ (match ?o with Some _ => _ | None => _ end) => destruct o
  end.

Section Frames.

Import RacingGame.

#[export] Instance same_pre {B : Type} (f : Game -> B) : Pre (same f).
Proof.
  split; unfold same.
  - reflexivity.
  - intros. congruence.
Qed.

#[export] Instance world_forward_pre : Pre world_forward.
Proof.
  split; unfold world_forward.
  - intros. repeat split; reflexivity || apply Nat.le_refl.
  - intros g1 w1 g2 w2 g3 w3 (H1 & H2 & H3 & H4) (H5 & H6 & H7 & H8).
    repeat split; try congruence; eapply Nat.le_trans; eassumption.
Qed.

#[export] Instance score_up_pre : Pre score_up.
Proof.
  split; unfold score_up.
  - intros. apply Z.le_refl.
  - intros. eapply Z.le_trans; eassumption.
Qed.

End Frames.

Section FrameRules.

Import RacingGame.

Lemma steps_assign (R : Rel) (h : Game -> Game) :
  (forall g w, R g w (h g) w) -> steps R (assign h).
Proof. intros H g w. apply H. Qed.

Lemma same_assign {B : Type} (f : Game -> B) (h : Game -> Game) :
  (forall g, f (h g) = f g) -> steps (same f) (assign h).
Proof. intros H g w. apply H. Qed.

Lemma same_time {B : Type} (f : Game -> B) : steps (same f) time.
Proof. intros g w. reflexivity. Qed.

Lemma same_random {B : Type} (f : Game -> B) : steps (same f) random.
Proof. intros g w. reflexivity. Qed.

Lemma world_assign (h : Game -> Game) : steps world_forward (assign h).
Proof.
  intros g w. unfold world_forward, world_after, assign. simpl.
  repeat split; auto.
Qed.

Lemma world_time : steps world_forward time.
Proof.
  intros g w. unfold world_forward, world_after, time. simpl.
  repeat split; auto.
Qed.

Lemma world_random : steps world_forward random.
Proof.
  intros g w. unfold world_forward, world_after, random. simpl.
  repeat split; auto.
Qed.

Lemma score_up_time : steps score_up time.
Proof. intros g w. apply Z.le_refl. Qed.

Lemma score_up_random : steps score_up random.
Proof. intros g w. apply Z.le_refl. Qed.

Lemma steps_move_obstacles (R : Rel) {HR : Pre R} (l acc : list Obstacle) :
  steps R (assign (fun g => set_score (score g + 1) g)) ->
  steps R (_add_message "Avoided obstacle +1 point") ->
  steps R (move_obstacles l acc).
Proof.
  intros H1 H2. revert acc.
  induction l as [|[x y] l IH]; intro acc; simpl.
  - walk.
  - walk; auto.
Qed.

End FrameRules.

(** The blocks that are not loops, unfolded where they stand. *)
Ltac blocks :=
  unfold RacingGame.update_speed, RacingGame.scroll_road, RacingGame.steer,
    RacingGame.off_road_check, RacingGame.limit_car_to_road,
    RacingGame._update_obstacles, RacingGame.collision_check,
    RacingGame._check_collision, RacingGame.check_game_over,
    RacingGame.update_clouds, RacingGame.score_by_speed,
    RacingGame.score_by_time, RacingGame.expire_messages,
    RacingGame.cooldown_elapsed, RacingGame.add_road_segment,
    RacingGame.approach_target_curve, RacingGame._add_message,
    RacingGame.uniform, RacingGame.randint,
    RacingGame.generate_road_segments, RacingGame._spawn_initial_obstacles.

(** [steps R m] for a block [m], given how to settle its leaves. *)
Ltac frame leaf :=
  repeat (blocks; walk;
          try match goal with
              | |- steps _ (RacingGame.add_road_segments _) =>
                  refine (steps_add_road_segments _ _ _)
              | |- steps _ (RacingGame.for_each _ _) =>
                  refine (steps_for_each _ _ _ _); intro
              | |- steps _ (RacingGame.move_obstacles _ _) =>
                  refine (steps_move_obstacles _ _ _ _ _)
              | |- _ => leaf
              end).

Ltac same_leaf :=
  first [ apply same_time | apply same_random
        | apply same_assign; intro; reflexivity ].

Ltac world_leaf :=
  first [ apply world_time | apply world_random | apply world_assign ].

(** Evaluation of a body on a symbolic state: the blocks and the monad are
    unfolded, then the attributes read off the records. *)
Ltac fields :=
  cbn [fst snd
       RacingGame.width RacingGame.height RacingGame.road_line_offset
       RacingGame.road_curvature RacingGame.target_curve
       RacingGame.road_segments RacingGame.speed RacingGame.car_x
       RacingGame.car_speed_x RacingGame.score RacingGame.game_over
       RacingGame.start_time RacingGame.last_time_score RacingGame.obstacles
       RacingGame.last_obstacle_time RacingGame.last_collision_time
       RacingGame.mountains RacingGame.clouds RacingGame.messages
       RacingGame.set_road_line_offset RacingGame.set_road_curvature
       RacingGame.set_target_curve RacingGame.set_road_segments
       RacingGame.set_speed RacingGame.set_car_x RacingGame.set_car_speed_x
       RacingGame.set_score RacingGame.set_game_over
       RacingGame.set_last_time_score RacingGame.set_obstacles
       RacingGame.set_last_obstacle_time RacingGame.set_last_collision_time
       RacingGame.set_clouds RacingGame.set_messages
       RacingGame.clock RacingGame.clock_ix RacingGame.rnd RacingGame.rnd_ix
       RacingGame.road_center_x RacingGame.num_segments RacingGame.car_y] in *.

Ltac run :=
  blocks;
  unfold RacingGame.exec, RacingGame.value, RacingGame.world_after,
    RacingGame.bind, RacingGame.assign, RacingGame.self, RacingGame.when,
    RacingGame.ret, RacingGame.time, RacingGame.random;
  fields.

Section SpeedBlock.

Import RacingGame.
Local Open Scope Q_scope.
Local Open Scope py_scope.

(** After the speed block of a running game the speed lies in [1, 10]. *)
Lemma update_speed_range (head_tilt : Q) (g : Game) (w : World) :
  game_over g = false ->
  1 <= speed (exec (update_speed head_tilt) g w) <= 10.
Proof.
  intro Hrun.
  assert (Hclamp : forall s, 0 <= Py.max min_speed (Py.min max_speed s) <= 10).
  { intro s. destruct (clamp_bounds min_speed max_speed s) as [H1 H2];
      unfold min_speed, max_speed in *; lra. }
  run.
  destruct (head_tilt <? -0.1); [|destruct (head_tilt >? 0.1)];
    fields; rewrite Hrun; cbn [negb andb];
    match goal with |- context [Py.max min_speed (Py.min max_speed ?s)] =>
      specialize (Hclamp s);
      qcase (Py.max min_speed (Py.min max_speed s) <? 1.0)
    end; fields; lra.
Qed.

End SpeedBlock.

Section UpdateSpeed.

Import RacingGame.
Local Open Scope Q_scope.
Local Open Scope py_scope.

(** A running game goes through the speed block and then the rest. *)
Lemma update_running (head_angle head_tilt : Q) (g : Game) (w : World) :
  game_over g = false ->
  exists rest : M unit,
    update head_angle head_tilt g w = bind (update_speed head_tilt) (fun _ => rest) g w
    /\ steps (same speed) rest /\ steps (same height) rest
    /\ steps (same width) rest /\ steps world_forward rest.
Proof.
  intro Hrun. unfold update at 1. rewrite run_bind.
  change (value (self game_over) g w) with (game_over g).
  change (exec (self game_over) g w) with g.
  change (world_after (self game_over) g w) with w.
  rewrite Hrun.
  eexists. split; [reflexivity|].
  split; [|split; [|split]].
  - frame same_leaf.
  - frame same_leaf.
  - frame same_leaf.
  - frame world_leaf.
Qed.

End UpdateSpeed.

(** ** Speed: the clamp, the floor and the friction *)

Section SpeedClaims.

Import RacingGame.
Local Open Scope Q_scope.
Local Open Scope py_scope.

(** The speed a running game ends its tick with is the one the speed block
    leaves. *)
Lemma update_speed_final (head_angle head_tilt : Q) (g : Game) (w : World) :
  game_over g = false ->
  speed (exec (update head_angle head_tilt) g w)
  = speed (exec (update_speed head_tilt) g w).
Proof.
  intro Hrun.
  destruct (update_running head_angle head_tilt g w Hrun) as (rest & E & Hs & _).
  unfold exec at 1. rewrite E. fold (exec (bind (update_speed head_tilt) (fun _ => rest)) g w).
  rewrite exec_bind. apply Hs.
Qed.

(** C2. After every [update] of a running game the speed lies in
    [min_speed, max_speed] = [0, 10], and it is at least 1.0. *)
Theorem update_speed_in_range (head_angle head_tilt : Q) (g : Game) (w : World) :
  game_over g = false ->
  let g' := exec (update head_angle head_tilt) g w in
  (min_speed <= speed g' /\ speed g' <= max_speed) /\ 1.0 <= speed g'.
Proof.
  intros Hrun g'. subst g'. rewrite update_speed_final by exact Hrun.
  pose proof (update_speed_range head_tilt g w Hrun) as [H1 H2].
  unfold min_speed, max_speed. repeat split; lra.
Qed.

Lemma update_speed_in_range_witness :
  let g' := exec (update 0.5 (-0.5)) new_game new_world in
  (min_speed <= speed g' /\ speed g' <= max_speed) /\ 1.0 <= speed g'.
Proof. apply update_speed_in_range. vm_compute. reflexivity. Defined.

(** What the speed block does with a throttle inside the dead zone. *)
Lemma update_speed_friction (head_tilt : Q) (g : Game) (w : World) :
  game_over g = false -> -0.1 <= head_tilt -> head_tilt <= 0.1 -> 0 < speed g ->
  let s' := speed (exec (update_speed head_tilt) g w) in
  (1.0 <= speed g - friction -> speed g - friction <= max_speed ->
   s' == speed g - friction)
  /\ (speed g - friction < 1.0 -> s' == 1.0)
  /\ min_speed <= s'.
Proof.
  intros Hrun Hlo Hhi Hpos s'. subst s'.
  pose proof (update_speed_range head_tilt g w Hrun) as Hrange.
  revert Hrange. run.
  qcase (head_tilt <? -0.1); [lra|].
  qcase (head_tilt >? 0.1); [lra|].
  qcase (speed g >? 0); [|lra].
  fields. rewrite Hrun. cbn [negb andb].
  set (s := speed g - friction).
  pose proof (clamp_inside min_speed max_speed s) as Hin.
  destruct (clamp_bounds min_speed max_speed s) as [Hb1 Hb2];
    [unfold min_speed, max_speed; lra|].
  qcase (Py.max min_speed (Py.min max_speed s) <? 1.0); fields; intro Hrange.
  - split; [|split].
    + intros H1 H2. exfalso.
      assert (H0 : min_speed <= s) by (unfold min_speed; lra).
      specialize (Hin H0 H2). lra.
    + intros _. reflexivity.
    + unfold min_speed. lra.
  - split; [|split].
    + intros H1 H2. apply Hin; [unfold min_speed; lra | exact H2].
    + intro H1. exfalso. unfold min_speed, max_speed in *.
      destruct (Qlt_le_dec s 0.0) as [Hneg|Hnn].
      * destruct (min_cases 10.0 s) as [[H3 H4]|[H3 H4]]; [|lra].
        rewrite H4 in E2.
        destruct (max_cases 0.0 s) as [[H5 H6]|[H5 H6]]; [lra|].
        rewrite H6 in E2. lra.
      * assert (Hs : s <= 10.0) by lra. specialize (Hin Hnn Hs). lra.
    + exact Hb1.
Qed.

End SpeedClaims.

Section FrictionClaims.

Import RacingGame.
Local Open Scope Q_scope.
Local Open Scope py_scope.

(** C5, as amended.  In a tick of a running game with a throttle [t],
    [|t| <= 0.1], and an entering speed [s > 0]: the new speed is exactly
    [s - friction] when that is at least 1.0 (and at most [max_speed]); it is
    1.0, the floor, when [s - friction < 1.0]; it is never below
    [min_speed]. *)
Theorem update_friction (head_angle head_tilt : Q) (g : Game) (w : World) :
  game_over g = false -> -0.1 <= head_tilt -> head_tilt <= 0.1 -> 0 < speed g ->
  let s' := speed (exec (update head_angle head_tilt) g w) in
  (1.0 <= speed g - friction -> speed g - friction <= max_speed ->
   s' == speed g - friction)
  /\ (speed g - friction < 1.0 -> s' == 1.0)
  /\ min_speed <= s'.
Proof.
  intros Hrun Hlo Hhi Hpos s'. subst s'.
  rewrite update_speed_final by exact Hrun.
  apply update_speed_friction; assumption.
Qed.

Lemma update_friction_witness :
  let s' := speed (exec (update 0 0.05) rolling_game rolling_world) in
  (1.0 <= speed rolling_game - friction ->
   speed rolling_game - friction <= max_speed ->
   s' == speed rolling_game - friction)
  /\ (speed rolling_game - friction < 1.0 -> s' == 1.0)
  /\ min_speed <= s'.
Proof.
  apply update_friction.
  - vm_compute. reflexivity.
  - vm_compute. discriminate.
  - vm_compute. discriminate.
  - vm_compute. reflexivity.
Defined.

(** C5, as stated, fails where the floor applies: a game that enters a tick
    at speed 1.0 with a throttle of 0 leaves it at speed 1.0, not 0.99. *)
Lemma update_friction_counterexample :
  game_over idle_game = false /\ 0 < speed idle_game
  /\ speed idle_game == 1.0
  /\ speed (exec (update 0 0) idle_game idle_world) == 1.0
  /\ ~ speed (exec (update 0 0) idle_game idle_world) == speed idle_game - friction
  /\ ~ speed (exec (update 0 0) idle_game idle_world) < speed idle_game.
Proof.
  vm_compute. repeat split; try discriminate; intro H; discriminate H.
Qed.

(** C10. The points [int(speed * 0.01)] a tick adds for the speed are 0:
    the speed a running game has after the speed block, which is the one
    [score_by_speed] reads, is at most [max_speed], and adding the points
    leaves the score as it is. *)
Theorem speed_points_zero (head_angle head_tilt : Q) (g : Game) (w : World) :
  game_over g = false ->
  let g' := exec (update head_angle head_tilt) g w in
  speed_points (speed g') = 0%Z
  /\ speed_points (speed (exec (update_speed head_tilt) g w)) = 0%Z
  /\ (forall s, min_speed <= s -> s <= max_speed -> speed_points s = 0%Z)
  /\ (forall g2 w2, speed g2 = speed g' ->
        score (exec score_by_speed g2 w2) = score g2).
Proof.
  intros Hrun g'.
  assert (Hall : forall s, min_speed <= s -> s <= max_speed -> speed_points s = 0%Z).
  { intros s H1 H2. unfold speed_points, min_speed, max_speed in *.
    apply int_small; lra. }
  assert (Hg' : speed_points (speed g') = 0%Z).
  { assert (Hr : min_speed <= speed g' /\ speed g' <= max_speed).
    { subst g'. rewrite update_speed_final by exact Hrun.
      pose proof (update_speed_range head_tilt g w Hrun) as [H1 H2].
      unfold min_speed, max_speed. split; lra. }
    destruct Hr as [H1 H2]. apply Hall; assumption. }
  split; [exact Hg'|]. split; [|split; [exact Hall|]].
  - subst g'. rewrite <- update_speed_final with (head_angle := head_angle) by exact Hrun.
    exact Hg'.
  - intros g2 w2 E. run.
    destruct ((speed g2 >? 0) && negb (game_over g2)); fields; [|reflexivity].
    rewrite E, Hg'. apply Z.add_0_r.
Qed.

Lemma speed_points_zero_witness :
  let g' := exec (update 0 (-1)) rolling_game rolling_world in
  speed_points (speed g') = 0%Z
  /\ speed_points (speed (exec (update_speed (-1)) rolling_game rolling_world)) = 0%Z
  /\ (forall s, min_speed <= s -> s <= max_speed -> speed_points s = 0%Z)
  /\ (forall g2 w2, speed g2 = speed g' ->
        score (exec score_by_speed g2 w2) = score g2).
Proof. apply speed_points_zero. vm_compute. reflexivity. Defined.

End FrictionClaims.

(** ** Score and the end of the game *)

Section Hoare.

Import RacingGame.

Lemma hoare_bind {A B : Type} (P : Game -> World -> Prop) (m : M A)
  (Mid : A -> Game -> World -> Prop) (k : A -> M B)
  (Q : B -> Game -> World -> Prop) :
  hoare P m Mid -> (forall a, hoare (Mid a) (k a) Q) -> hoare P (bind m k) Q.
Proof.
  intros Hm Hk g w HP.
  rewrite value_bind, exec_bind, world_after_bind.
  apply Hk, Hm, HP.
Qed.

Lemma hoare_weaken {A : Type} (P P' : Game -> World -> Prop) (m : M A)
  (Q Q' : A -> Game -> World -> Prop) :
  (forall g w, P g w -> P' g w) -> hoare P' m Q' ->
  (forall a g w, Q' a g w -> Q a g w) -> hoare P m Q.
Proof. intros H1 Hm H2 g w HP. apply H2, Hm, H1, HP. Qed.

(** A state condition that every step of [m] keeps is kept by [m]. *)
Lemma hoare_stable {A : Type} (I : Game -> World -> Prop) (m : M A) :
  steps (stable I) m -> hoare I m (fun _ => I).
Proof. intros Hm g w HI. exact (Hm g w HI). Qed.

(** An attribute that [m] leaves alone has afterwards the value it had. *)
Lemma hoare_same {A B : Type} (f : Game -> B) (v : B) (m : M A) :
  steps (same f) m -> hoare (fun g _ => f g = v) m (fun _ g _ => f g = v).
Proof. intros Hm g w Hf. rewrite <- Hf. exact (Hm g w). Qed.

#[export] Instance stable_pre (I : Game -> World -> Prop) : Pre (stable I).
Proof.
  split; unfold stable.
  - intros g w H. exact H.
  - intros g1 w1 g2 w2 g3 w3 H1 H2 H. exact (H2 (H1 H)).
Qed.

End Hoare.

Section GameOver.

Import RacingGame.
Local Open Scope Q_scope.
Local Open Scope py_scope.

Lemma check_game_over_settles :
  hoare (fun g _ => game_over g = false) check_game_over (fun _ g _ => settled g).
Proof.
  intros g w Hrun. unfold settled. run.
  destruct (score g <=? 0)%Z eqn:E; fields.
  - left. split; reflexivity.
  - right. split; [exact Hrun | lia].
Qed.

Lemma update_clouds_settled :
  hoare (fun g _ => settled g) update_clouds (fun _ g _ => settled g).
Proof. intros g w H. exact H. Qed.

Lemma score_by_speed_settled :
  hoare (fun g _ => settled g) score_by_speed (fun _ g _ => settled g).
Proof.
  intros g w H. unfold settled in *. run.
  qcase (speed g >? 0); cbn [andb]; [|exact H].
  destruct H as [[Hover Hs]|[Hrun Hs]].
  - rewrite Hover. cbn [negb]. fields. left. split; assumption.
  - rewrite Hrun. cbn [negb]. fields. right. split; [exact Hrun|].
    assert (0 <= speed_points (speed g))%Z.
    { apply int_nonneg. assert (0 <= speed g * 0.01) by lra. assumption. }
    lia.
Qed.

Lemma score_by_time_settled (current_time : Q) :
  hoare (fun g _ => settled g) (score_by_time current_time) (fun _ g _ => settled g).
Proof.
  intros g w H. unfold settled in *. run.
  destruct (current_time - last_time_score g >=? time_score_interval);
    cbn [andb]; [|exact H].
  destruct H as [[Hover Hs]|[Hrun Hs]].
  - rewrite Hover. cbn [negb]. fields. left. split; assumption.
  - rewrite Hrun. cbn [negb]. fields. right. split; [exact Hrun|].
    unfold time_score_amount. lia.
Qed.

Lemma expire_messages_settled (current_time : Q) :
  hoare (fun g _ => settled g) (expire_messages current_time) (fun _ g _ => settled g).
Proof. intros g w H. exact H. Qed.

Lemma time_settled :
  hoare (fun g _ => settled g) time (fun _ g _ => settled g).
Proof. intros g w H. exact H. Qed.

(** A running game ends its tick settled. *)
Lemma update_settles (head_angle head_tilt : Q) (g : Game) (w : World) :
  game_over g = false -> settled (exec (update head_angle head_tilt) g w).
Proof.
  intro Hrun. unfold update. rewrite exec_bind.
  change (value (self game_over) g w) with (game_over g).
  change (exec (self game_over) g w) with g.
  change (world_after (self game_over) g w) with w.
  rewrite Hrun.
  revert g w Hrun.
  change (hoare (fun g _ => game_over g = false)
    (update_speed head_tilt;;
     scroll_road;;
     steer head_angle;;
     bounds <- self (fun g => _get_road_boundaries g (inject_Z (car_y g)));;
     (let '(road_left, road_right) := bounds in
      off_road_check road_left road_right;;
      limit_car_to_road road_left road_right;;
      _update_obstacles;;
      collision_check;;
      check_game_over;;
      update_clouds;;
      score_by_speed;;
      current_time <- time;;
      score_by_time current_time;; expire_messages current_time))
    (fun _ g _ => settled g)).
  do 3 (eapply hoare_bind; [apply hoare_same; frame same_leaf | intro; cbv beta]).
  eapply hoare_bind; [apply hoare_same; frame same_leaf | intro bounds; cbv beta].
  destruct bounds as [road_left road_right].
  do 4 (eapply hoare_bind; [apply hoare_same; frame same_leaf | intro; cbv beta]).
  eapply hoare_bind; [apply check_game_over_settles | intro; cbv beta].
  eapply hoare_bind; [apply update_clouds_settled | intro; cbv beta].
  eapply hoare_bind; [apply score_by_speed_settled | intro; cbv beta].
  eapply hoare_bind; [apply time_settled | intro current_time; cbv beta].
  eapply hoare_bind; [apply score_by_time_settled | intro; cbv beta].
  apply expire_messages_settled.
Qed.

(** Once the game is over, [update] returns at once. *)
Lemma update_over (head_angle head_tilt : Q) (g : Game) (w : World) :
  game_over g = true -> update head_angle head_tilt g w = (tt, g, w).
Proof.
  intro Hover. unfold update. rewrite run_bind.
  change (value (self game_over) g w) with (game_over g).
  rewrite Hover. reflexivity.
Qed.

Lemma play_over (signals : list (Q * Q)) (g : Game) (w : World) :
  game_over g = true -> play signals g w = (tt, g, w).
Proof.
  intro Hover. induction signals as [|[a t] l IH]; simpl.
  - reflexivity.
  - unfold bind. rewrite update_over by exact Hover. exact IH.
Qed.

(** C1. A game that is over is left untouched by [update], and by any
    number of further calls.  A running game ends its tick with a score that
    is not negative, and that is 0 exactly when the game is then over: from
    there on nothing changes any more. *)
Theorem update_score_game_over (head_angle head_tilt : Q) (g : Game) (w : World) :
  let g' := exec (update head_angle head_tilt) g w in
  let w' := world_after (update head_angle head_tilt) g w in
  if game_over g then
    update head_angle head_tilt g w = (tt, g, w)
    /\ forall signals, play signals g w = (tt, g, w)
  else
    (0 <= score g')%Z
    /\ (score g' = 0%Z <-> game_over g' = true)
    /\ (game_over g' = true -> forall signals, play signals g' w' = (tt, g', w')).
Proof.
  intros g' w'. destruct (game_over g) eqn:Hover.
  - split; [apply update_over, Hover | intro; apply play_over, Hover].
  - pose proof (update_settles head_angle head_tilt g w Hover) as H.
    fold g' in H. unfold settled in H.
    split; [|split].
    + destruct H as [[_ H]|[_ H]]; lia.
    + destruct H as [[H1 H2]|[H1 H2]]; split; intro; try assumption;
        try congruence; lia.
    + intros Hend signals. apply play_over, Hend.
Qed.

End GameOver.

(** ** Road boundaries *)

Section RoadBoundaries.

Import RacingGame.
Local Open Scope Q_scope.
Local Open Scope py_scope.

(** The search keeps a segment together with its distance, and the segment
    kept is at least as close as every segment seen. *)
Lemma closest_fold (y_pos : Q) (l : list Segment) :
  forall (best : option Segment) (d : option Q),
    match best, d with
    | None, None => True
    | Some s, Some dd => dd = Qabs (seg_y s - y_pos)
    | _, _ => False
    end ->
    let r := fold_left (closer y_pos) l (best, d) in
    (forall s, In s l \/ best = Some s ->
       exists s', fst r = Some s'
                  /\ Qabs (seg_y s' - y_pos) <= Qabs (seg_y s - y_pos))
    /\ (forall s', fst r = Some s' -> In s' l \/ best = Some s').
Proof.
  induction l as [|a l IH]; intros best d Hc; cbn [fold_left fst].
  - split.
    + intros s [[]|E]. exists s. split; [exact E | apply Qle_refl].
    + intros s' E. right. exact E.
  - change (closer y_pos (best, d) a)
      with (if Py.lt_inf (Qabs (seg_y a - y_pos)) d
            then (Some a, Some (Qabs (seg_y a - y_pos))) else (best, d)).
    destruct best as [b|], d as [dd|]; try contradiction; cbn [Py.lt_inf].
    + subst dd. qcase (Qabs (seg_y a - y_pos) <? Qabs (seg_y b - y_pos)).
      * destruct (IH (Some a) (Some (Qabs (seg_y a - y_pos))) eq_refl) as [H1 H2].
        split.
        -- intros s [[<-|Hin]|Hb].
           ++ apply H1. right. reflexivity.
           ++ apply H1. left. exact Hin.
           ++ injection Hb as <-.
              destruct (H1 a (or_intror eq_refl)) as (s' & E1 & E2).
              exists s'. split; [exact E1 | lra].
        -- intros s' E'. destruct (H2 s' E') as [Hin|Ha].
           ++ left. right. exact Hin.
           ++ injection Ha as <-. left. left. reflexivity.
      * destruct (IH (Some b) (Some (Qabs (seg_y b - y_pos))) eq_refl) as [H1 H2].
        split.
        -- intros s [[<-|Hin]|Hb].
           ++ destruct (H1 b (or_intror eq_refl)) as (s' & E1 & E2).
              exists s'. split; [exact E1 | lra].
           ++ apply H1. left. exact Hin.
           ++ apply H1. right. exact Hb.
        -- intros s' E'. destruct (H2 s' E') as [Hin|Hb].
           ++ left. right. exact Hin.
           ++ right. exact Hb.
    + destruct (IH (Some a) (Some (Qabs (seg_y a - y_pos))) eq_refl) as [H1 H2].
      split.
      * intros s [[<-|Hin]|Hb]; [| |discriminate].
        -- apply H1. right. reflexivity.
        -- apply H1. left. exact Hin.
      * intros s' E'. destruct (H2 s' E') as [Hin|Ha].
        -- left. right. exact Hin.
        -- injection Ha as <-. left. left. reflexivity.
Qed.

(** With segments the search finds one of them, a nearest one. *)
Lemma closest_segment_nearest (segments : list Segment) (y_pos : Q) :
  segments <> [] ->
  exists closest,
    closest_segment segments y_pos = Some closest
    /\ In closest segments
    /\ forall s, In s segments ->
         Qabs (seg_y closest - y_pos) <= Qabs (seg_y s - y_pos).
Proof.
  intro Hne. unfold closest_segment.
  destruct (closest_fold y_pos segments None None I) as [H1 H2].
  destruct segments as [|a l]; [congruence|].
  destruct (H1 a (or_introl (or_introl eq_refl))) as (c & Ec & _).
  exists c. split; [exact Ec|]. split.
  - destruct (H2 c Ec) as [Hin|Hn]; [exact Hin | discriminate].
  - intros s Hs. destruct (H1 s (or_introl Hs)) as (c' & Ec' & Hle).
    rewrite Ec in Ec'. injection Ec' as <-. exact Hle.
Qed.

Lemma closest_segment_nil (y_pos : Q) : closest_segment [] y_pos = None.
Proof. reflexivity. Qed.

(** C8. [_get_road_boundaries] at [y_pos]: without segments the road is
    centred, [road_center_x -/+ road_width/2]; with segments it is
    [center_x -/+ road_width/2], [center_x] being [road_center_x + curve *
    (y_pos / height) * 200] for the curve of a segment nearest to [y_pos]. *)
Theorem get_road_boundaries_spec (g : Game) (y_pos : Q) :
  let half := inject_Z road_width / 2 in
  let '(left_boundary, right_boundary) := _get_road_boundaries g y_pos in
  match road_segments g with
  | [] =>
      left_boundary == inject_Z (road_center_x g) - half
      /\ right_boundary == inject_Z (road_center_x g) + half
  | _ :: _ =>
      exists nearest,
        In nearest (road_segments g)
        /\ (forall s, In s (road_segments g) ->
              Qabs (seg_y nearest - y_pos) <= Qabs (seg_y s - y_pos))
        /\ let center_x := inject_Z (road_center_x g)
                           + seg_curve nearest
                             * (y_pos / inject_Z (Z.pos (height g))) * 200 in
           left_boundary == center_x - half /\ right_boundary == center_x + half
  end.
Proof.
  intro half. unfold _get_road_boundaries.
  destruct (road_segments g) as [|a l] eqn:E.
  - rewrite closest_segment_nil. subst half. unfold road_width.
    change (300 / 2)%Z with 150%Z. change (inject_Z 300) with 300.
    unfold Z.sub. rewrite !inject_Z_plus, inject_Z_opp.
    change (inject_Z 150) with 150.
    generalize (inject_Z (road_center_x g)). intro c.
    setoid_replace (300 / 2) with 150 by (vm_compute; reflexivity).
    split; lra.
  - destruct (closest_segment_nearest (a :: l) y_pos) as (c & Ec & Hin & Hmin);
      [discriminate|].
    rewrite Ec. exists c. split; [exact Hin|]. split; [exact Hmin|].
    subst half. unfold road_width.
    change (300 / 2)%Z with 150%Z. change (inject_Z 300) with 300.
    change (inject_Z 150) with 150.
    cbv zeta.
    generalize (inject_Z (road_center_x g)
                + seg_curve c * (y_pos / inject_Z (Z.pos (height g))) * 200).
    intro center_x.
    setoid_replace (300 / 2) with 150 by (vm_compute; reflexivity).
    split; lra.
Qed.

End RoadBoundaries.

(** ** Penalties and their cooldown *)

Section QuietBlocks.

Import RacingGame.
Local Open Scope Q_scope.
Local Open Scope py_scope.

#[export] Instance quiet_pre : Pre quiet.
Proof.
  split; unfold quiet.
  - intros. repeat split; reflexivity || apply Nat.le_refl || apply Z.le_refl.
  - intros g1 w1 g2 w2 g3 w3 (A1 & A2 & A3 & A4) (B1 & B2 & B3 & B4).
    repeat split; try congruence.
    + eapply Nat.le_trans; eassumption.
    + eapply Z.le_trans; eassumption.
Qed.

#[export] Instance same_road_pre : Pre same_road.
Proof.
  split; unfold same_road.
  - intros. repeat split; reflexivity.
  - intros g1 w1 g2 w2 g3 w3 (A1 & A2 & A3) (B1 & B2 & B3).
    repeat split; congruence.
Qed.

Lemma quiet_assign (h : Game -> Game) :
  (forall g, last_collision_time (h g) = last_collision_time g) ->
  (forall g, (score g <= score (h g))%Z) ->
  steps quiet (assign h).
Proof.
  intros H1 H2 g w. unfold quiet, exec, world_after, assign. cbn [fst snd].
  repeat split; auto.
Qed.

Lemma quiet_time : steps quiet time.
Proof.
  intros g w. unfold quiet, exec, world_after, time. cbn [fst snd clock clock_ix].
  repeat split; auto. apply Z.le_refl.
Qed.

Lemma quiet_random : steps quiet random.
Proof.
  intros g w. unfold quiet, exec, world_after, random. cbn [fst snd clock clock_ix].
  repeat split; auto. apply Z.le_refl.
Qed.

Lemma same_road_assign (h : Game -> Game) :
  (forall g, road_segments (h g) = road_segments g) ->
  (forall g, width (h g) = width g) ->
  (forall g, height (h g) = height g) ->
  steps same_road (assign h).
Proof.
  intros H1 H2 H3 g w. unfold same_road, exec, assign. cbn [fst snd].
  repeat split; auto.
Qed.

Lemma same_road_time : steps same_road time.
Proof. intros g w. repeat split. Qed.

Lemma same_road_random : steps same_road random.
Proof. intros g w. repeat split. Qed.

End QuietBlocks.

Ltac quiet_leaf :=
  first [ apply quiet_time | apply quiet_random
        | apply quiet_assign; intro; fields;
          first [reflexivity | unfold RacingGame.time_score_amount; lia] ].

Ltac same_road_leaf :=
  first [ apply same_road_time | apply same_road_random
        | apply same_road_assign; intro; reflexivity ].

Section Cooldown.

Import RacingGame.
Local Open Scope Q_scope.
Local Open Scope py_scope.

Lemma update_speed_quiet (head_tilt : Q) : steps quiet (update_speed head_tilt).
Proof. frame quiet_leaf. Qed.

Lemma scroll_road_quiet : steps quiet scroll_road.
Proof. frame quiet_leaf. Qed.

Lemma steer_quiet (head_angle : Q) : steps quiet (steer head_angle).
Proof. frame quiet_leaf. Qed.

Lemma limit_car_to_road_quiet (road_left road_right : Q) :
  steps quiet (limit_car_to_road road_left road_right).
Proof. frame quiet_leaf. Qed.

Lemma update_obstacles_quiet : steps quiet _update_obstacles.
Proof. frame quiet_leaf. Qed.

Lemma update_clouds_quiet : steps quiet update_clouds.
Proof. frame quiet_leaf. Qed.

Lemma score_by_time_quiet (current_time : Q) : steps quiet (score_by_time current_time).
Proof. frame quiet_leaf. Qed.

Lemma expire_messages_quiet (current_time : Q) :
  steps quiet (expire_messages current_time).
Proof. frame quiet_leaf. Qed.

Lemma check_game_over_quiet : steps quiet check_game_over.
Proof.
  intros g w. unfold quiet. run.
  destruct (score g <=? 0)%Z eqn:E; fields; repeat split; auto; lia.
Qed.

Lemma score_by_speed_quiet : steps quiet score_by_speed.
Proof.
  intros g w. unfold quiet. run.
  qcase (speed g >? 0); cbn [andb]; [|fields; repeat split; auto; lia].
  destruct (negb (game_over g)); fields; repeat split; auto; try lia.
  assert (0 <= speed_points (speed g))%Z; [|lia].
  apply int_nonneg. assert (0 <= speed g * 0.01) by lra. assumption.
Qed.

End Cooldown.

Section Penalties.

Import RacingGame.
Local Open Scope Q_scope.
Local Open Scope py_scope.

Lemma hoare_and {A : Type} (P1 P2 : Game -> World -> Prop) (m : M A)
  (Q1 Q2 : A -> Game -> World -> Prop) :
  hoare P1 m Q1 -> hoare P2 m Q2 ->
  hoare (fun g w => P1 g w /\ P2 g w) m (fun a g w => Q1 a g w /\ Q2 a g w).
Proof. intros H1 H2 g w [HP1 HP2]. split; [apply H1 | apply H2]; assumption. Qed.

(** The two boundaries are a road width apart. *)
Lemma road_boundaries_gap (g : Game) (y_pos : Q) :
  snd (_get_road_boundaries g y_pos) == fst (_get_road_boundaries g y_pos) + 300.
Proof.
  unfold _get_road_boundaries, road_width.
  change (300 / 2)%Z with 150%Z.
  destruct (closest_segment (road_segments g) y_pos) as [c|]; cbn [fst snd].
  - change (inject_Z 150) with 150.
    generalize (inject_Z (road_center_x g)
                + seg_curve c * (y_pos / inject_Z (Z.pos (height g))) * 200).
    intro center_x. lra.
  - unfold Z.sub. rewrite !inject_Z_plus, inject_Z_opp.
    change (inject_Z 150) with 150.
    generalize (inject_Z (road_center_x g)). intro c. lra.
Qed.

(** The boundaries depend on the segments and the size of the window. *)
Lemma road_boundaries_same (g g' : Game) (y_pos : Q) :
  road_segments g' = road_segments g -> width g' = width g ->
  height g' = height g ->
  _get_road_boundaries g' y_pos = _get_road_boundaries g y_pos.
Proof.
  intros H1 H2 H3. unfold _get_road_boundaries, road_center_x.
  rewrite H1, H2, H3. reflexivity.
Qed.

Lemma boundaries_kept {A : Type} (m : M A) (b : Q * Q) :
  steps same_road m ->
  hoare (fun g _ => _get_road_boundaries g (inject_Z (car_y g)) = b) m
        (fun _ g _ => _get_road_boundaries g (inject_Z (car_y g)) = b).
Proof.
  intros Hm g w Hb. destruct (Hm g w) as (H1 & H2 & H3).
  unfold car_y in *. rewrite H3.
  rewrite (road_boundaries_same g _ _ H1 H2 H3). exact Hb.
Qed.

Lemma near_road_kept {A : Type} (m : M A) :
  steps same_road m -> steps (same car_x) m ->
  hoare (fun g _ => near_road g) m (fun _ g _ => near_road g).
Proof.
  intros Hm Hx g w Hn. destruct (Hm g w) as (H1 & H2 & H3).
  unfold near_road, car_y in *. rewrite H3.
  rewrite (road_boundaries_same g _ _ H1 H2 H3).
  rewrite (Hx g w). exact Hn.
Qed.

(** [limit_car_to_road] with the boundaries under the car puts it near the
    road. *)
Lemma limit_car_to_road_near (road_left road_right : Q) :
  hoare (fun g _ => _get_road_boundaries g (inject_Z (car_y g)) = (road_left, road_right))
        (limit_car_to_road road_left road_right)
        (fun _ g _ => near_road g).
Proof.
  intros g w Hb. unfold near_road. run.
  match goal with
  | |- context [_get_road_boundaries (set_car_x ?v g) ?y] =>
      change (_get_road_boundaries (set_car_x v g) y)
        with (_get_road_boundaries g (inject_Z (car_y g)))
  end.
  pose proof (road_boundaries_gap g (inject_Z (car_y g))) as Hgap.
  rewrite Hb in *. cbn [fst snd] in Hgap.
  apply clamp_bounds. unfold car_width. change (inject_Z 40) with 40. lra.
Qed.

(** A car near the road is not severely off-road: [_check_collision] then
    takes no points, whatever it reports. *)
Lemma check_collision_quiet (g : Game) (w : World) :
  near_road g ->
  quiet g w (exec _check_collision g w) (world_after _check_collision g w).
Proof.
  intro Hn. unfold near_road in Hn. unfold quiet. run.
  destruct (first_hit _ (obstacles g) 0); fields.
  - repeat split; auto. apply Z.le_refl.
  - destruct (_get_road_boundaries g (inject_Z (car_y g)))
      as [road_left road_right].
    unfold car_width in *. change (inject_Z 40) with 40 in *.
    qcase (car_x g + 40 <? road_left - 50); [lra|].
    qcase (car_x g >? road_right + 50); [lra|].
    cbn [orb]. fields. repeat split; auto. apply Z.le_refl.
Qed.

Section Since.

Variable ck : nat -> Q.
Variable start : nat.
Variable last0 : Q.
Variable score0 : Z.
Hypothesis ck_monotone : monotone ck.

Let inv := since ck start last0 score0.

Lemma since_quiet (g : Game) (w : World) (g' : Game) (w' : World) :
  quiet g w g' w' -> inv g w -> inv g' w'.
Proof.
  intros (Q1 & Q2 & Q3 & Q4) (S1 & S2 & S3). unfold inv, since.
  split; [congruence|]. split; [lia|].
  destruct S3 as [[H1 H2]|[H1 (i & Hi & H2)]].
  - left. split; [congruence | lia].
  - right. split; [rewrite Q3; exact H1|]. exists i. split; [lia | exact H2].
Qed.

Lemma hoare_quiet {A : Type} (m : M A) :
  steps quiet m -> hoare inv m (fun _ => inv).
Proof. intros Hm g w Hi. exact (since_quiet _ _ _ _ (Hm g w) Hi). Qed.

(** The penalty behind the cooldown (lines 259-263 and 274-278): it is
    taken only at a reading later than the last penalty by more than the
    cooldown, and it moves the time of the last penalty to a later reading. *)
Lemma penalty_since (amount : Z) (message : string) :
  hoare inv
    (elapsed <- cooldown_elapsed;;
     when elapsed (
       assign (fun g => set_score (score g - amount) g);;
       t <- time;;
       assign (set_last_collision_time t);;
       _add_message message))
    (fun _ => inv).
Proof.
  intros g w (S1 & S2 & S3). unfold inv, since. run.
  qcase (clock w (clock_ix w) - last_collision_time g >? collision_cooldown); fields.
  - split; [exact S1|]. split; [lia|]. right.
    rewrite S1 in *.
    pose proof (ck_monotone (clock_ix w) (S (clock_ix w)) (Nat.le_succ_diag_r _)) as Hm.
    unfold collision_cooldown in *.
    destruct S3 as [[H1 H2]|[H1 (i & Hi & H2)]].
    + rewrite H1 in E. split; [lra|]. exists (clock_ix w). split; [lia | lra].
    + split; [lra|]. exists i. split; [lia | exact H2].
  - split; [exact S1|]. split; [lia|].
    destruct S3 as [[H1 H2]|[H1 (i & Hi & H2)]].
    + left. split; assumption.
    + right. split; [exact H1|]. exists i. split; [lia | exact H2].
Qed.

Lemma off_road_check_since (road_left road_right : Q) :
  hoare inv (off_road_check road_left road_right) (fun _ => inv).
Proof.
  unfold off_road_check.
  eapply hoare_bind; [apply hoare_stable; walk | intro x; cbv beta].
  destruct ((x <? road_left) || (x + inject_Z car_width >? road_right));
    unfold when at 1.
  - apply penalty_since.
  - apply hoare_stable; walk.
Qed.

Lemma collision_check_since :
  hoare (fun g w => inv g w /\ near_road g) collision_check (fun _ => inv).
Proof.
  unfold collision_check.
  eapply hoare_bind with (Mid := fun _ => inv).
  - intros g w [Hi Hn]. exact (since_quiet _ _ _ _ (check_collision_quiet g w Hn) Hi).
  - intros [|]; cbv beta; unfold when at 1.
    + apply penalty_since.
    + apply hoare_stable; walk.
Qed.

(** Over a whole tick of a running game. *)
Lemma update_since (head_angle head_tilt : Q) (g : Game) (w : World) :
  game_over g = false -> inv g w ->
  inv (exec (update head_angle head_tilt) g w)
      (world_after (update head_angle head_tilt) g w).
Proof.
  intro Hrun. unfold update. rewrite exec_bind, world_after_bind.
  change (value (self game_over) g w) with (game_over g).
  change (exec (self game_over) g w) with g.
  change (world_after (self game_over) g w) with w.
  rewrite Hrun. clear Hrun. revert g w.
  change (hoare inv
    (update_speed head_tilt;;
     scroll_road;;
     steer head_angle;;
     bounds <- self (fun g => _get_road_boundaries g (inject_Z (car_y g)));;
     (let '(road_left, road_right) := bounds in
      off_road_check road_left road_right;;
      limit_car_to_road road_left road_right;;
      _update_obstacles;;
      collision_check;;
      check_game_over;;
      update_clouds;;
      score_by_speed;;
      current_time <- time;;
      score_by_time current_time;; expire_messages current_time))
    (fun _ => inv)).
  eapply hoare_bind; [apply hoare_quiet, update_speed_quiet | intro; cbv beta].
  eapply hoare_bind; [apply hoare_quiet, scroll_road_quiet | intro; cbv beta].
  eapply hoare_bind; [apply hoare_quiet, steer_quiet | intro; cbv beta].
  eapply hoare_bind with
    (Mid := fun b g w => inv g w /\ _get_road_boundaries g (inject_Z (car_y g)) = b).
  { intros g w Hi. split; [exact Hi | reflexivity]. }
  intros [road_left road_right].
  eapply hoare_bind.
  { apply hoare_and; [apply off_road_check_since|].
    apply boundaries_kept. frame same_road_leaf. }
  intro; cbv beta.
  eapply hoare_bind.
  { apply hoare_and;
      [apply hoare_quiet, limit_car_to_road_quiet | apply limit_car_to_road_near]. }
  intro; cbv beta.
  eapply hoare_bind.
  { apply hoare_and; [apply hoare_quiet, update_obstacles_quiet|].
    apply near_road_kept; [frame same_road_leaf | frame same_leaf]. }
  intro; cbv beta.
  eapply hoare_bind; [apply collision_check_since | intro; cbv beta].
  eapply hoare_bind; [apply hoare_quiet, check_game_over_quiet | intro; cbv beta].
  eapply hoare_bind; [apply hoare_quiet, update_clouds_quiet | intro; cbv beta].
  eapply hoare_bind; [apply hoare_quiet, score_by_speed_quiet | intro; cbv beta].
  eapply hoare_bind; [apply hoare_quiet, quiet_time | intro; cbv beta].
  eapply hoare_bind; [apply hoare_quiet, score_by_time_quiet | intro; cbv beta].
  apply hoare_quiet, expire_messages_quiet.
Qed.

End Since.

End Penalties.

Section PenaltyClaims.

Import RacingGame.
Local Open Scope Q_scope.
Local Open Scope py_scope.

(** An off-road event: the penalty is taken exactly when the reading of the
    clock is later than [last_collision_time] by more than the cooldown. *)
Lemma off_road_check_event (road_left road_right : Q) (g : Game) (w : World) :
  car_x g < road_left \/ road_right < car_x g + inject_Z car_width ->
  let g' := exec (off_road_check road_left road_right) g w in
  if clock w (clock_ix w) - last_collision_time g >? collision_cooldown
  then score g' = (score g - off_road_penalty)%Z
       /\ last_collision_time g' = clock w (S (clock_ix w))
  else g' = g.
Proof.
  intros Hoff g'. subst g'. run.
  assert (Hc : (car_x g <? road_left) || (car_x g + inject_Z car_width >? road_right) = true).
  { apply orb_true_iff. destruct Hoff as [H|H]; [left|right]; apply Qltb_lt, H. }
  rewrite Hc.
  destruct (clock w (clock_ix w) - last_collision_time g >? collision_cooldown);
    fields; [split|]; reflexivity.
Qed.

(** A collision with an obstacle: the obstacle goes, and the penalty is
    taken under the same condition. *)
Lemma collision_check_event (i : nat) (g : Game) (w : World) :
  first_hit (car_rect g) (obstacles g) 0 = Some i ->
  let g' := exec collision_check g w in
  obstacles g' = Py.pop i (obstacles g)
  /\ if clock w (clock_ix w) - last_collision_time g >? collision_cooldown
     then score g' = (score g - collision_penalty)%Z
          /\ last_collision_time g' = clock w (S (clock_ix w))
     else score g' = score g /\ last_collision_time g' = last_collision_time g.
Proof.
  intros Hhit g'. subst g'. unfold car_rect in Hhit. run. rewrite Hhit. fields.
  destruct (clock w (clock_ix w) - last_collision_time g >? collision_cooldown);
    fields; repeat split; reflexivity.
Qed.

(** C4, as amended.  A penalty event, the car off the road or a collision
    with an obstacle, takes its points exactly when the clock read at the
    check is later than [last_collision_time], the time recorded by the last
    penalty that was taken, by more than [collision_cooldown] = 1.0 s; it
    then records a later reading as the new time.  Over a tick of a running
    game either no penalty is taken (the recorded time stays and the score
    does not go down) or the recorded time has moved forward by more than
    the cooldown and some reading of the clock in that tick was later than
    the old recorded time by more than the cooldown: within the cooldown of
    the last penalty taken, a further event takes nothing. *)
Theorem penalty_cooldown (g : Game) (w : World) :
  monotone (clock w) ->
  (forall road_left road_right,
     car_x g < road_left \/ road_right < car_x g + inject_Z car_width ->
     let g' := exec (off_road_check road_left road_right) g w in
     if clock w (clock_ix w) - last_collision_time g >? collision_cooldown
     then score g' = (score g - off_road_penalty)%Z
          /\ last_collision_time g' = clock w (S (clock_ix w))
     else g' = g)
  /\ (forall i,
        first_hit (car_rect g) (obstacles g) 0 = Some i ->
        let g' := exec collision_check g w in
        if clock w (clock_ix w) - last_collision_time g >? collision_cooldown
        then score g' = (score g - collision_penalty)%Z
             /\ last_collision_time g' = clock w (S (clock_ix w))
        else score g' = score g /\ last_collision_time g' = last_collision_time g)
  /\ (forall head_angle head_tilt,
        game_over g = false ->
        let g' := exec (update head_angle head_tilt) g w in
        let w' := world_after (update head_angle head_tilt) g w in
        (last_collision_time g' = last_collision_time g /\ (score g <= score g')%Z)
        \/ (last_collision_time g + collision_cooldown < last_collision_time g'
            /\ exists i, (clock_ix w <= i < clock_ix w')%nat
                         /\ collision_cooldown < clock w i - last_collision_time g)).
Proof.
  intro Hmono. split; [|split].
  - intros road_left road_right Hoff. apply off_road_check_event, Hoff.
  - intros i Hhit. apply (collision_check_event i g w Hhit).
  - intros head_angle head_tilt Hrun g' w'.
    assert (H0 : since (clock w) (clock_ix w) (last_collision_time g) (score g) g w).
    { split; [reflexivity|]. split; [apply Nat.le_refl|].
      left. split; [reflexivity | apply Z.le_refl]. }
    pose proof (update_since _ _ _ _ Hmono head_angle head_tilt g w Hrun H0)
      as (_ & _ & H).
    exact H.
Qed.

End PenaltyClaims.

Section PenaltyExamples.

Import RacingGame.
Local Open Scope Q_scope.
Local Open Scope py_scope.

Lemma example_clock_monotone : monotone example_clock.
Proof.
  intros i j Hij. unfold example_clock.
  apply Qplus_le_r. unfold Qdiv. apply Qmult_le_compat_r; [|discriminate].
  rewrite <- Zle_Qle. lia.
Qed.

Lemma penalty_cooldown_witness :
  let g := skid_game 0 in
  let w := skid_world 0 in
  (forall road_left road_right,
     car_x g < road_left \/ road_right < car_x g + inject_Z car_width ->
     let g' := exec (off_road_check road_left road_right) g w in
     if clock w (clock_ix w) - last_collision_time g >? collision_cooldown
     then score g' = (score g - off_road_penalty)%Z
          /\ last_collision_time g' = clock w (S (clock_ix w))
     else g' = g)
  /\ (forall i,
        first_hit (car_rect g) (obstacles g) 0 = Some i ->
        let g' := exec collision_check g w in
        if clock w (clock_ix w) - last_collision_time g >? collision_cooldown
        then score g' = (score g - collision_penalty)%Z
             /\ last_collision_time g' = clock w (S (clock_ix w))
        else score g' = score g /\ last_collision_time g' = last_collision_time g)
  /\ (forall head_angle head_tilt,
        game_over g = false ->
        let g' := exec (update head_angle head_tilt) g w in
        let w' := world_after (update head_angle head_tilt) g w in
        (last_collision_time g' = last_collision_time g /\ (score g <= score g')%Z)
        \/ (last_collision_time g + collision_cooldown < last_collision_time g'
            /\ exists i, (clock_ix w <= i < clock_ix w')%nat
                         /\ collision_cooldown < clock w i - last_collision_time g)).
Proof.
  apply penalty_cooldown.
  assert (E : clock (skid_world 0) = example_clock) by (vm_compute; reflexivity).
  rewrite E. exact example_clock_monotone.
Defined.

(** C4, as stated, fails.  In the skid the car is off the road at every
    tick.  The off-road checks of the second and of the fourth tick read the
    clock 2 s apart, more than the cooldown, and neither takes points: each
    comes within the cooldown of the penalty taken one tick before it. *)
Lemma penalty_cooldown_counterexample :
  let before n := exec (before_off_road_check 0 0) (skid_game n) (skid_world n) in
  let check_time n :=
    clock (skid_world n)
      (clock_ix (world_after (before_off_road_check 0 0) (skid_game n) (skid_world n))) in
  let road_left g := fst (_get_road_boundaries g (inject_Z (car_y g))) in
  (game_over (skid_game 0) = false /\ game_over (skid_game 2) = false)
  /\ (exec (update 0 0) (skid_game 0) (skid_world 0) = skid_game 1
      /\ exec (update 0 0) (skid_game 2) (skid_world 2) = skid_game 3)
  /\ (car_x (before 0%nat) < road_left (before 0%nat)
      /\ car_x (before 2%nat) < road_left (before 2%nat))
  /\ collision_cooldown < check_time 2%nat - check_time 0%nat
  /\ (score (skid_game 1) = score (skid_game 0)
      /\ score (skid_game 3) = score (skid_game 2))
  /\ (last_collision_time (skid_game 1) = last_collision_time (skid_game 0)
      /\ last_collision_time (skid_game 3) = last_collision_time (skid_game 2)).
Proof. vm_compute. repeat split; reflexivity. Qed.

(** C9 on the code.  A jerk of the head throws the car of a new game to
    x = -100, its rectangle more than 50 units left of the road that begins
    at x = 250; the cooldown has elapsed.  The tick takes the 5 points of the
    off-road penalty and leaves the car 20 units off the road: the 10 points
    for being severely off-road are not taken. *)
Theorem severe_off_road_not_penalized :
  let thrown := exec (before_off_road_check (-100) 0) new_game new_world in
  let '(road_left, road_right) :=
    _get_road_boundaries thrown (inject_Z (car_y thrown)) in
  let g' := exec (update (-100) 0) new_game new_world in
  car_x thrown + inject_Z car_width < road_left - 50
  /\ score new_game = 100%Z
  /\ score g' = (score new_game - off_road_penalty)%Z
  /\ car_x g' == road_left - 20.
Proof. vm_compute. repeat split; reflexivity. Qed.

End PenaltyExamples.

(** ** The head-pose pipeline *)

Section Smoothing.

Import HeadTracker.
Local Open Scope Q_scope.
Local Open Scope py_scope.

Variable atan2 : Q -> Q -> Q.

(** The clamp of the code is the clamp of the specification. *)
Lemma clamp_spec (v : Q) : Py.max (-1.0) (Py.min 1.0 v) == clamp v (-1) 1.
Proof.
  unfold clamp.
  destruct (min_cases 1.0 v) as [[H1 ->]|[H1 ->]];
    [destruct (max_cases (-1.0) v) as [[H2 ->]|[H2 ->]]
    |destruct (max_cases (-1.0) 1.0) as [[H2 ->]|[H2 ->]]];
    qcase (v <? -1); try lra; qcase (v >? 1); lra.
Qed.

Lemma clamp_range (v : Q) : -1 <= Py.max (-1.0) (Py.min 1.0 v) <= 1.
Proof.
  destruct (clamp_bounds (-1.0) 1.0 v) as [H1 H2]; [lra|]. split; lra.
Qed.

(** C3. On a tick without a detected face, or with no pose to compute,
    [get_head_angle] and [get_head_tilt] return exactly 0.0 and leave the
    tracker, and so its smoothing state, as it is. *)
Theorem face_loss_is_neutral (t : Tracker) :
  face_detected t = false \/ multi_face_landmarks t = None ->
  get_head_angle atan2 t = (0.0, t) /\ get_head_tilt atan2 t = (0.0, t).
Proof.
  intros [H|H]; unfold get_head_angle, get_head_tilt, _calculate_head_pose;
    rewrite H.
  - split; reflexivity.
  - destruct (negb (face_detected t)); split; reflexivity.
Qed.

Lemma get_head_angle_bounded (t : Tracker) :
  bounded t -> bounded (snd (get_head_angle atan2 t))
               /\ -1 <= fst (get_head_angle atan2 t) <= 1.
Proof.
  intros [[A1 A2] [T1 T2]]. unfold get_head_angle.
  destruct (negb (face_detected t)); [cbn [fst snd]; unfold bounded; lra|].
  destruct (_calculate_head_pose atan2 t) as [[angle tilt]|];
    [|cbn [fst snd]; unfold bounded; lra].
  cbn [fst snd]. unfold bounded. cbn [last_angle last_tilt set_last_angle].
  match goal with |- context [Py.max (-1.0) (Py.min 1.0 ?v)] =>
    pose proof (clamp_range v) as [C1 C2];
    generalize dependent (Py.max (-1.0) (Py.min 1.0 v))
  end.
  intros c C1 C2. unfold smoothing_factor. lra.
Qed.

Lemma get_head_tilt_bounded (t : Tracker) :
  bounded t -> bounded (snd (get_head_tilt atan2 t))
               /\ -1 <= fst (get_head_tilt atan2 t) <= 1.
Proof.
  intros [[A1 A2] [T1 T2]]. unfold get_head_tilt.
  destruct (negb (face_detected t)); [cbn [fst snd]; unfold bounded; lra|].
  destruct (_calculate_head_pose atan2 t) as [[angle tilt]|];
    [|cbn [fst snd]; unfold bounded; lra].
  cbn [fst snd]. unfold bounded.
  cbn [last_angle last_tilt set_last_tilt set_current_tilt].
  match goal with |- context [Py.max (-1.0) (Py.min 1.0 ?v)] =>
    pose proof (clamp_range v) as [C1 C2];
    generalize dependent (Py.max (-1.0) (Py.min 1.0 v))
  end.
  intros c C1 C2. unfold smoothing_factor. lra.
Qed.

Lemma update_bounded (calibration_mode : bool) (t : Tracker) (w : World) :
  bounded t -> bounded (snd (fst (update atan2 calibration_mode t w))).
Proof.
  intro Hb. unfold update.
  destruct (negb (cap t)); [exact Hb|].
  unfold read_frame. destruct (camera w (frame_ix w)) as [[face|]|];
    cbn [fst snd]; [| |exact Hb].
  - destruct calibration_mode; cbn [negb fst snd]; [exact Hb|].
    unfold _draw_control_indicators.
    cbn [multi_face_landmarks set_last_detection_time set_face_detected set_results].
    apply get_head_tilt_bounded, get_head_angle_bounded. exact Hb.
  - unfold time. cbn [fst snd].
    match goal with |- context [if ?c then _ else _] => destruct c end; exact Hb.
Qed.

Lemma calibrate_loop_bounded (fuel : nat) :
  forall start t w r t' w',
    bounded t -> calibrate_loop atan2 fuel start t w = Some (r, t', w') ->
    bounded t'.
Proof.
  induction fuel as [|fuel IH]; intros start t w r t' w' Hb E; [discriminate|].
  cbn [calibrate_loop] in E.
  destruct (List.length (calibration_samples t) <? calibration_count)%nat.
  - unfold time in E at 1. cbn [fst snd] in E.
    match type of E with (if ?c then _ else _) = _ => destruct c end.
    + injection E as <- <- <-. exact Hb.
    + pose proof (update_bounded true t
        (mkWorld (clock w) (S (clock_ix w)) (camera w) (frame_ix w)) Hb) as Hu.
      destruct (update atan2 true t _) as [[[[|]|e] t2] w2]; cbn [fst snd] in Hu.
      * destruct (_calculate_head_pose atan2 t2) as [[angle tilt]|].
        -- eapply IH; [|exact E]. exact Hu.
        -- eapply IH; [|exact E]. exact Hu.
      * eapply IH; [|exact E]. exact Hu.
      * injection E as <- <- <-. exact Hu.
  - unfold neutral_position in E.
    destruct (calibration_samples t); injection E as <- <- <-; exact Hb.
Qed.

(** The smoothing states of a reachable tracker lie in [[-1, 1]]. *)
Lemma reachable_bounded (t : Tracker) : reachable atan2 t -> bounded t.
Proof.
  induction 1 as [opened w|mode t w _ IH|t _ IH|t _ IH|fuel t w r t' w' _ IH E].
  - unfold __init__, time, bounded. cbn. lra.
  - apply update_bounded, IH.
  - apply get_head_angle_bounded, IH.
  - apply get_head_tilt_bounded, IH.
  - unfold calibrate in E. unfold time in E. cbn [fst snd] in E.
    eapply calibrate_loop_bounded; [|exact E]. exact IH.
Qed.

End Smoothing.

Section SmoothingClaims.

Import HeadTracker.
Local Open Scope Q_scope.
Local Open Scope py_scope.

Variable atan2 : Q -> Q -> Q.

(** C6. With a detected face, a defined raw pose and a calibrated tracker,
    [get_head_angle] and [get_head_tilt] return [previous * (1 - 0.3) +
    clamp((raw - neutral) * 2.0, -1, 1) * 0.3], store it as the new previous
    value, and return a value of [[-1, 1]]. *)
Theorem smoothing_step (t : Tracker) (raw_angle raw_tilt : Q) :
  reachable atan2 t ->
  face_detected t = true ->
  _calculate_head_pose atan2 t = Some (raw_angle, raw_tilt) ->
  is_calibrated t = true ->
  let steering := fst (get_head_angle atan2 t) in
  let throttle := fst (get_head_tilt atan2 t) in
  (steering == smoothed (last_angle t)
                 (clamp ((raw_angle - neutral_angle t) * 2.0) (-1) 1) 0.3
   /\ last_angle (snd (get_head_angle atan2 t)) = steering
   /\ -1 <= steering <= 1)
  /\ (throttle == smoothed (last_tilt t)
                    (clamp ((raw_tilt - neutral_tilt t) * 2.0) (-1) 1) 0.3
      /\ last_tilt (snd (get_head_tilt atan2 t)) = throttle
      /\ -1 <= throttle <= 1).
Proof.
  intros Hr Hf Hp Hc steering throttle.
  pose proof (reachable_bounded atan2 t Hr) as Hb.
  destruct (get_head_angle_bounded atan2 t Hb) as [_ Ha].
  destruct (get_head_tilt_bounded atan2 t Hb) as [_ Ht].
  fold steering in Ha. fold throttle in Ht.
  subst steering throttle.
  unfold get_head_angle, get_head_tilt in *.
  rewrite Hf, Hp, Hc in *. cbn [negb fst snd] in *.
  cbn [last_angle last_tilt set_last_angle set_last_tilt set_current_tilt].
  unfold smoothed, angle_sensitivity, tilt_sensitivity, smoothing_factor.
  split; (split; [|split; [reflexivity | assumption]]).
  - pose proof (clamp_spec ((raw_angle - neutral_angle t) * 2.0)) as E.
    apply Qplus_inj_l, Qmult_inj_r; [discriminate | exact E].
  - pose proof (clamp_spec ((raw_tilt - neutral_tilt t) * 2.0)) as E.
    apply Qplus_inj_l, Qmult_inj_r; [discriminate | exact E].
Qed.

End SmoothingClaims.

Section SmoothingExamples.

Import HeadTracker.
Local Open Scope Q_scope.
Local Open Scope py_scope.

Lemma watching_reachable : reachable level_atan2 watching.
Proof. unfold watching. apply reach_update, reach_init. Qed.

Lemma face_loss_is_neutral_witness :
  let t := fst (__init__ true empty_world) in
  get_head_angle level_atan2 t = (0.0, t) /\ get_head_tilt level_atan2 t = (0.0, t).
Proof. apply face_loss_is_neutral. left. reflexivity. Defined.

Lemma calibrated_reachable : reachable level_atan2 calibrated.
Proof.
  unfold calibrated.
  destruct (calibrate level_atan2 40 (fst (__init__ true face_world))
              (snd (__init__ true face_world))) as [[[r t] w]|] eqn:E.
  - exact (reach_calibrate level_atan2 40 _ _ r t w (reach_init _ true face_world) E).
  - apply reach_init.
Qed.

Lemma smoothing_step_witness :
  let t := calibrated in
  let steering := fst (get_head_angle level_atan2 t) in
  let throttle := fst (get_head_tilt level_atan2 t) in
  (steering == smoothed (last_angle t)
                 (clamp ((0 - neutral_angle t) * 2.0) (-1) 1) 0.3
   /\ last_angle (snd (get_head_angle level_atan2 t)) = steering
   /\ -1 <= steering <= 1)
  /\ (throttle == smoothed (last_tilt t)
                    (clamp ((-0.05 - neutral_tilt t) * 2.0) (-1) 1) 0.3
      /\ last_tilt (snd (get_head_tilt level_atan2 t)) = throttle
      /\ -1 <= throttle <= 1).
Proof.
  apply (smoothing_step level_atan2 calibrated 0 (-0.05)).
  - exact calibrated_reachable.
  - vm_compute. reflexivity.
  - vm_compute. reflexivity.
  - vm_compute. reflexivity.
Defined.

End SmoothingExamples.

(** ** Calibration *)

Section Calibration.

Import HeadTracker.
Local Open Scope Q_scope.
Local Open Scope py_scope.

Variable atan2 : Q -> Q -> Q.

Lemma get_head_angle_frame (t : Tracker) :
  cap (snd (get_head_angle atan2 t)) = cap t
  /\ calibration_samples (snd (get_head_angle atan2 t)) = calibration_samples t
  /\ is_calibrated (snd (get_head_angle atan2 t)) = is_calibrated t.
Proof.
  unfold get_head_angle. destruct (negb (face_detected t)); [auto|].
  destruct (_calculate_head_pose atan2 t) as [[a b]|]; auto.
Qed.

Lemma get_head_tilt_frame (t : Tracker) :
  cap (snd (get_head_tilt atan2 t)) = cap t
  /\ calibration_samples (snd (get_head_tilt atan2 t)) = calibration_samples t
  /\ is_calibrated (snd (get_head_tilt atan2 t)) = is_calibrated t.
Proof.
  unfold get_head_tilt. destruct (negb (face_detected t)); [auto|].
  destruct (_calculate_head_pose atan2 t) as [[a b]|]; auto.
Qed.

(** With a camera [update] returns; it keeps the camera and the samples,
    and reads the clock forward. *)
Lemma update_returns (calibration_mode : bool) (t : Tracker) (w : World) :
  cap t = true ->
  exists detected t2 w2,
    update atan2 calibration_mode t w = (Returned detected, t2, w2)
    /\ cap t2 = true
    /\ calibration_samples t2 = calibration_samples t
    /\ clock w2 = clock w /\ (clock_ix w <= clock_ix w2)%nat.
Proof.
  intro Hcap. unfold update. rewrite Hcap. cbn [negb].
  unfold read_frame. destruct (camera w (frame_ix w)) as [[face|]|].
  - unfold time. cbn [fst snd clock clock_ix].
    destruct calibration_mode; cbn [negb].
    + eexists _, _, _. split; [reflexivity|]. cbn. auto.
    + eexists _, _, _. split; [reflexivity|].
      unfold _draw_control_indicators.
      cbn [multi_face_landmarks set_last_detection_time set_face_detected set_results].
      destruct (get_head_tilt_frame
                  (snd (get_head_angle atan2
                     (set_last_detection_time (clock w (clock_ix w))
                        (set_face_detected true (set_results (Some face) t))))))
        as (H1 & H2 & _).
      destruct (get_head_angle_frame
                  (set_last_detection_time (clock w (clock_ix w))
                     (set_face_detected true (set_results (Some face) t))))
        as (H3 & H4 & _).
      rewrite H1, H2, H3, H4. cbn. auto.
  - unfold time. cbn [fst snd clock clock_ix].
    match goal with |- context [if ?c then _ else _] => destruct c end;
      eexists _, _, _; (split; [reflexivity|]); cbn; auto.
  - eexists _, _, _. split; [reflexivity|]. cbn. auto.
Qed.

(** Once the clock has passed the timeout for good the loop ends, and
    every reading of the clock brings that nearer. *)
Lemma calibrate_loop_exits (late : nat) (start : Q) (k : nat) :
  forall t w,
    cap t = true ->
    (forall i, (late <= i)%nat -> calibration_timeout < clock w i - start) ->
    (late < clock_ix w + S k)%nat ->
    exists r t' w',
      calibrate_loop atan2 (S k) start t w = Some (Returned r, t', w')
      /\ calibration_result r t'.
Proof.
  induction k as [|k IH]; intros t w Hcap Hlate Hfuel.
  - cbn [calibrate_loop].
    destruct (List.length (calibration_samples t) <? calibration_count)%nat eqn:El.
    + apply Nat.ltb_lt in El. unfold time. cbn [fst snd].
      assert (Hnow : calibration_timeout < clock w (clock_ix w) - start)
        by (apply Hlate; lia).
      apply Qltb_lt in Hnow. rewrite Hnow.
      eexists _, _, _. split; [reflexivity|].
      unfold calibration_result. cbn. repeat split; auto. lia.
    + apply Nat.ltb_ge in El. unfold neutral_position.
      destruct (calibration_samples t) as [|s l] eqn:Es;
        [unfold calibration_count in El; cbn in El; lia|].
      eexists _, _, _. split; [reflexivity|].
      unfold calibration_result. cbn [is_calibrated set_is_calibrated set_neutral
        calibration_samples]. rewrite <- Es in *.
      repeat split; auto; lia.
  - cbn [calibrate_loop].
    destruct (List.length (calibration_samples t) <? calibration_count)%nat eqn:El.
    + apply Nat.ltb_lt in El. unfold time at 1. cbn [fst snd].
      qcase (clock w (clock_ix w) - start >? calibration_timeout).
      * eexists _, _, _. split; [reflexivity|].
        unfold calibration_result. cbn. repeat split; auto. lia.
      * assert (Hix : (clock_ix w < late)%nat).
        { destruct (Nat.lt_ge_cases (clock_ix w) late) as [H|H]; [exact H|].
          specialize (Hlate _ H). lra. }
        destruct (update_returns true t
                    (mkWorld (clock w) (S (clock_ix w)) (camera w) (frame_ix w)) Hcap)
          as (detected & t2 & w2 & Eu & Hcap2 & Hs2 & Hck & Hix2).
        rewrite Eu. cbn [clock clock_ix] in Hck, Hix2.
        assert (Hlate2 : forall i, (late <= i)%nat ->
                  calibration_timeout < clock w2 i - start)
          by (intros i Hi; rewrite Hck; apply Hlate, Hi).
        destruct detected.
        -- destruct (_calculate_head_pose atan2 t2) as [[angle tilt]|].
           ++ apply IH; [exact Hcap2 | exact Hlate2 | lia].
           ++ apply IH; [exact Hcap2 | exact Hlate2 | lia].
        -- apply IH; [exact Hcap2 | exact Hlate2 | lia].
    + apply Nat.ltb_ge in El. unfold neutral_position.
      destruct (calibration_samples t) as [|s l] eqn:Es;
        [unfold calibration_count in El; cbn in El; lia|].
      eexists _, _, _. split; [reflexivity|].
      unfold calibration_result. cbn [is_calibrated set_is_calibrated set_neutral
        calibration_samples]. rewrite <- Es in *.
      repeat split; auto; lia.
Qed.

(** More fuel does not change what the loop returns. *)
Lemma calibrate_loop_more (fuel : nat) :
  forall start t w x,
    calibrate_loop atan2 fuel start t w = Some x ->
    forall fuel', (fuel <= fuel')%nat ->
      calibrate_loop atan2 fuel' start t w = Some x.
Proof.
  induction fuel as [|fuel IH]; intros start t w x E fuel' Hle; [discriminate|].
  destruct fuel' as [|fuel']; [lia|].
  cbn [calibrate_loop] in *.
  destruct (List.length (calibration_samples t) <? calibration_count)%nat;
    [|exact E].
  destruct (HeadTracker.time w) as [now w1].
  destruct (now - start >? calibration_timeout); [exact E|].
  destruct (update atan2 true t w1) as [[[[|]|e] t2] w2]; [| |exact E].
  - destruct (_calculate_head_pose atan2 t2) as [[angle tilt]|];
      (apply IH; [exact E | lia]).
  - apply IH; [exact E | lia].
Qed.

(** C7. With a camera, once the clock has passed the 10 s timeout for
    good, [calibrate] returns, the same with any larger fuel; the tracker is
    then calibrated, and if fewer than 30 samples were collected the call
    returns [False] and both neutral values are 0. *)
Theorem calibrate_timeout (late : nat) (t : Tracker) (w : World) :
  cap t = true ->
  (forall i, (late <= i)%nat ->
     calibration_timeout < clock w i - clock w (clock_ix w)) ->
  exists r t' w',
    (forall fuel, (late < fuel)%nat ->
       calibrate atan2 fuel t w = Some (Returned r, t', w'))
    /\ is_calibrated t' = true
    /\ ((List.length (calibration_samples t') < calibration_count)%nat ->
        r = false /\ neutral_angle t' = 0.0 /\ neutral_tilt t' = 0.0).
Proof.
  intros Hcap Hlate.
  destruct (calibrate_loop_exits late (clock w (clock_ix w)) late
              (set_is_calibrated false (set_calibration_samples [] t))
              (mkWorld (clock w) (S (clock_ix w)) (camera w) (frame_ix w)))
    as (r & t' & w' & E & Hres & Hfew & _).
  - exact Hcap.
  - exact Hlate.
  - cbn [clock_ix]. lia.
  - exists r, t', w'. split; [|split; assumption].
    intros fuel Hfuel. unfold calibrate, HeadTracker.time. cbn [fst snd].
    apply (calibrate_loop_more (S late) _ _ _ _ E). lia.
Qed.

End Calibration.

Section CalibrationExamples.

Import HeadTracker.
Local Open Scope Q_scope.

Lemma quarter_clock_late (i : nat) :
  (50 <= i)%nat -> calibration_timeout < quarter_clock i - quarter_clock 2.
Proof.
  intro Hi. unfold quarter_clock, calibration_timeout.
  assert (H : 50 <= inject_Z (Z.of_nat i)).
  { change 50 with (inject_Z 50). rewrite <- Zle_Qle. lia. }
  change (inject_Z (Z.of_nat 2)) with 2.
  generalize dependent (inject_Z (Z.of_nat i)). intros q Hq.
  unfold Qdiv. change (/ 4) with (1 # 4). lra.
Qed.

Lemma calibrate_timeout_witness :
  exists r t' w',
    (forall fuel, (50 < fuel)%nat ->
       calibrate level_atan2 fuel (fst (__init__ true empty_world))
                 (snd (__init__ true empty_world)) = Some (Returned r, t', w'))
    /\ is_calibrated t' = true
    /\ ((List.length (calibration_samples t') < calibration_count)%nat ->
        r = false /\ neutral_angle t' = 0.0 /\ neutral_tilt t' = 0.0).
Proof.
  apply calibrate_timeout.
  - reflexivity.
  - exact quarter_clock_late.
Defined.

End CalibrationExamples.

(** * Further properties of the driving simulator *)

(** ** A tick, block by block *)

Section UpdateRule.

Import RacingGame.
Local Open Scope Q_scope.
Local Open Scope py_scope.

Variables J J' J'' : Game -> World -> Prop.

Hypothesis J_quiet : forall g w g' w', quiet g w g' w' -> J g w -> J g' w'.
Hypothesis J'_quiet : forall g w g' w', quiet g w g' w' -> J' g w -> J' g' w'.
Hypothesis J''_quiet : forall g w g' w', quiet g w g' w' -> J'' g w -> J'' g' w'.
Hypothesis J_off_road :
  forall road_left road_right,
    hoare J (off_road_check road_left road_right) (fun _ => J').
Hypothesis J_collision :
  hoare (fun g w => J' g w /\ near_road g) collision_check (fun _ => J'').

Lemma quiet_keeps {A : Type} (I : Game -> World -> Prop) (m : M A) :
  (forall g w g' w', quiet g w g' w' -> I g w -> I g' w') ->
  steps quiet m -> hoare I m (fun _ => I).
Proof. intros HI Hm g w H. exact (HI _ _ _ _ (Hm g w) H). Qed.

(** A tick of a running game takes a condition [J] that the quiet blocks
    keep through the off-road check and the collision check, and leaves the
    car near the road. *)
Lemma update_rule (head_angle head_tilt : Q) (g : Game) (w : World) :
  game_over g = false -> J g w ->
  J'' (exec (update head_angle head_tilt) g w)
      (world_after (update head_angle head_tilt) g w)
  /\ near_road (exec (update head_angle head_tilt) g w).
Proof.
  intro Hrun. unfold update. rewrite exec_bind, world_after_bind.
  change (value (self game_over) g w) with (game_over g).
  change (exec (self game_over) g w) with g.
  change (world_after (self game_over) g w) with w.
  rewrite Hrun. clear Hrun. revert g w.
  change (hoare J
    (update_speed head_tilt;;
     scroll_road;;
     steer head_angle;;
     bounds <- self (fun g => _get_road_boundaries g (inject_Z (car_y g)));;
     (let '(road_left, road_right) := bounds in
      off_road_check road_left road_right;;
      limit_car_to_road road_left road_right;;
      _update_obstacles;;
      collision_check;;
      check_game_over;;
      update_clouds;;
      score_by_speed;;
      current_time <- time;;
      score_by_time current_time;; expire_messages current_time))
    (fun _ g w => J'' g w /\ near_road g)).
  eapply hoare_bind;
    [apply (quiet_keeps J), update_speed_quiet; exact J_quiet | intro; cbv beta].
  eapply hoare_bind;
    [apply (quiet_keeps J), scroll_road_quiet; exact J_quiet | intro; cbv beta].
  eapply hoare_bind;
    [apply (quiet_keeps J), steer_quiet; exact J_quiet | intro; cbv beta].
  eapply hoare_bind with
    (Mid := fun b g w => J g w /\ _get_road_boundaries g (inject_Z (car_y g)) = b).
  { intros g w Hi. split; [exact Hi | reflexivity]. }
  intros [road_left road_right].
  eapply hoare_bind.
  { apply hoare_and; [apply J_off_road|].
    apply boundaries_kept. frame same_road_leaf. }
  intro; cbv beta.
  eapply hoare_bind.
  { apply hoare_and;
      [apply (quiet_keeps J'), limit_car_to_road_quiet; exact J'_quiet
      |apply limit_car_to_road_near]. }
  intro; cbv beta.
  eapply hoare_bind.
  { apply hoare_and;
      [apply (quiet_keeps J'), update_obstacles_quiet; exact J'_quiet|].
    apply near_road_kept; [frame same_road_leaf | frame same_leaf]. }
  intro; cbv beta.
  eapply hoare_bind with (Mid := fun _ g w => J'' g w /\ near_road g).
  { intros g w H. split; [exact (J_collision g w H)|].
    apply (near_road_kept collision_check);
      [frame same_road_leaf | frame same_leaf | exact (proj2 H)]. }
  intro; cbv beta.
  assert (Hrest : forall (m : M unit),
            steps quiet m -> steps same_road m -> steps (same car_x) m ->
            hoare (fun g w => J'' g w /\ near_road g) m
                  (fun _ g w => J'' g w /\ near_road g)).
  { intros m H1 H2 H3. apply hoare_and;
      [apply (quiet_keeps J''); [exact J''_quiet | exact H1]
      |apply near_road_kept; assumption]. }
  eapply hoare_bind;
    [apply Hrest; [apply check_game_over_quiet | frame same_road_leaf | frame same_leaf]
    | intro; cbv beta].
  eapply hoare_bind;
    [apply Hrest; [apply update_clouds_quiet | frame same_road_leaf | frame same_leaf]
    | intro; cbv beta].
  eapply hoare_bind;
    [apply Hrest; [apply score_by_speed_quiet | frame same_road_leaf | frame same_leaf]
    | intro; cbv beta].
  eapply hoare_bind.
  { apply hoare_and;
      [apply (quiet_keeps J''), quiet_time; exact J''_quiet
      |apply near_road_kept; [frame same_road_leaf | frame same_leaf]]. }
  intro current_time; cbv beta.
  eapply hoare_bind;
    [apply Hrest; [apply score_by_time_quiet | frame same_road_leaf | frame same_leaf]
    | intro; cbv beta].
  apply Hrest; [apply expire_messages_quiet | frame same_road_leaf | frame same_leaf].
Qed.

End UpdateRule.

(** ** The car and the road *)

Section CarAndRoad.

Import RacingGame.
Local Open Scope Q_scope.
Local Open Scope py_scope.

(** X1. A running game leaves every tick with the car near the road: at
    most 20 units left of the left boundary and with its right side at most
    20 units right of the right boundary, for the boundaries at the height of
    the car. *)
Theorem update_leaves_car_near_road (head_angle head_tilt : Q) (g : Game) (w : World) :
  game_over g = false -> near_road (exec (update head_angle head_tilt) g w).
Proof.
  intro Hrun.
  apply (update_rule (fun _ _ => True) (fun _ _ => True) (fun _ _ => True));
    try exact Hrun; try exact I; try (intros; exact I).
  - intros road_left road_right g0 w0 _. exact I.
  - intros g0 w0 _. exact I.
Qed.

Lemma update_leaves_car_near_road_witness :
  near_road (exec (update (-100) 0) new_game new_world).
Proof. apply update_leaves_car_near_road. vm_compute. reflexivity. Defined.

(** The penalty behind the cooldown takes its amount at most. *)
Lemma penalty_floor (floor amount : Z) (message : string) :
  (0 <= amount)%Z ->
  hoare (fun g _ => (floor <= score g)%Z)
    (elapsed <- cooldown_elapsed;;
     when elapsed (
       assign (fun g => set_score (score g - amount) g);;
       t <- time;;
       assign (set_last_collision_time t);;
       _add_message message))
    (fun _ g _ => (floor - amount <= score g)%Z).
Proof.
  intros Hpos g w H. run.
  destruct (clock w (clock_ix w) - last_collision_time g >? collision_cooldown);
    fields; lia.
Qed.

(** X2. A tick of a running game lowers the score by at most
    [off_road_penalty + collision_penalty] = 15: the 10 points of line 405
    for being severely off-road are never taken inside [update], where the
    car has been brought near the road before [_check_collision] looks. *)
Theorem update_takes_at_most_both_penalties
  (head_angle head_tilt : Q) (g : Game) (w : World) :
  game_over g = false ->
  (score g - (off_road_penalty + collision_penalty)
   <= score (exec (update head_angle head_tilt) g w))%Z.
Proof.
  intro Hrun.
  assert (Hq : forall k g0 w0 g1 w1,
            quiet g0 w0 g1 w1 -> (score g - k <= score g0)%Z ->
            (score g - k <= score g1)%Z).
  { intros k g0 w0 g1 w1 (_ & _ & _ & H) H0. lia. }
  assert (Hoff : forall road_left road_right,
            hoare (fun g0 _ => (score g - 0 <= score g0)%Z)
                  (off_road_check road_left road_right)
                  (fun _ g0 _ => (score g - off_road_penalty <= score g0)%Z)).
  { intros road_left road_right. unfold off_road_check.
    eapply hoare_bind with
      (Mid := fun _ g0 _ => (score g - 0 <= score g0)%Z).
    { intros g0 w0 H. exact H. }
    intro x; cbv beta.
    destruct ((x <? road_left) || (x + inject_Z car_width >? road_right));
      unfold when at 1.
    - eapply hoare_weaken; [|apply (penalty_floor (score g - 0) off_road_penalty);
                               unfold off_road_penalty; lia|].
      + intros g0 w0 H. exact H.
      + intros u g0 w0 H. cbv beta in H. lia.
    - intros g0 w0 H. unfold exec, ret. cbn [fst snd]. unfold off_road_penalty. lia. }
  assert (Hcol : hoare (fun g0 _ => (score g - off_road_penalty <= score g0)%Z
                                    /\ near_road g0)
                   collision_check
                   (fun _ g0 _ => (score g - (off_road_penalty + collision_penalty)
                                   <= score g0)%Z)).
  { unfold collision_check.
    eapply hoare_bind with
      (Mid := fun _ g0 _ => (score g - off_road_penalty <= score g0)%Z).
    { intros g0 w0 [H Hn].
      destruct (check_collision_quiet g0 w0 Hn) as (_ & _ & _ & Hs). lia. }
    intros [|]; cbv beta; unfold when at 1.
    - eapply hoare_weaken; [|apply (penalty_floor (score g - off_road_penalty)
                                      collision_penalty); unfold collision_penalty; lia|].
      + intros g0 w0 H. exact H.
      + intros u g0 w0 H. cbv beta in H. lia.
    - intros g0 w0 H. unfold exec, ret. cbn [fst snd]. unfold collision_penalty. lia. }
  assert (H0 : (score g - 0 <= score g)%Z) by lia.
  exact (proj1 (update_rule _ _ _ (Hq _) (Hq _) (Hq _) Hoff Hcol
                  head_angle head_tilt g w Hrun H0)).
Qed.

Lemma update_takes_at_most_both_penalties_witness :
  (score new_game - (off_road_penalty + collision_penalty)
   <= score (exec (update (-100) 0) new_game new_world))%Z.
Proof. apply update_takes_at_most_both_penalties. vm_compute. reflexivity. Defined.

End CarAndRoad.

(** ** Collisions and obstacles *)

Section Collisions.

Import RacingGame.
Local Open Scope Q_scope.
Local Open Scope py_scope.

(** The search stops at the first obstacle that meets the car, and popping
    its index removes it alone. *)
Lemma first_hit_spec (car : Rect) (l : list Obstacle) :
  forall k,
    match first_hit car l k with
    | Some i =>
        exists l1 o l2,
          l = l1 ++ o :: l2 /\ i = (k + List.length l1)%nat
          /\ Forall (fun o' => colliderect car (obstacle_rect o') = false) l1
          /\ colliderect car (obstacle_rect o) = true
          /\ Py.pop (i - k) l = l1 ++ l2
    | None => Forall (fun o' => colliderect car (obstacle_rect o') = false) l
    end.
Proof.
  induction l as [|[x y] l IH]; intro k; cbn [first_hit].
  - constructor.
  - change (mkRect (Py.int x) (Py.int y) obstacle_width obstacle_height)
      with (obstacle_rect (x, y)).
    destruct (colliderect car (obstacle_rect (x, y))) eqn:E.
    + exists [], (x, y), l. rewrite Nat.add_0_r, Nat.sub_diag.
      repeat split; auto.
    + specialize (IH (S k)). destruct (first_hit car l (S k)) as [i|].
      * destruct IH as (l1 & o & l2 & E1 & E2 & H1 & H2 & H3).
        exists ((x, y) :: l1), o, l2. cbn [List.length app].
        repeat split; auto.
        -- rewrite E1. reflexivity.
        -- lia.
        -- replace (i - k)%nat with (S (i - S k)) by lia.
           cbn [Py.pop]. rewrite H3. reflexivity.
      * constructor; assumption.
Qed.

(** X3. [_check_collision] never reads the clock.  If some obstacle meets
    the car it removes the first such obstacle of the list, keeps the others
    in their order, takes no points and reports a collision.  Otherwise, if
    the car is severely off-road, it takes 10 points, whatever the cooldown,
    and reports a collision.  Otherwise it changes nothing and reports
    none. *)
Theorem check_collision_spec (g : Game) (w : World) :
  let '(hit, g', w') := _check_collision g w in
  w' = w
  /\ ((exists l1 o l2,
         obstacles g = l1 ++ o :: l2
         /\ Forall (fun o' => ~ hits g o') l1 /\ hits g o
         /\ hit = true /\ g' = set_obstacles (l1 ++ l2) g)
      \/ (Forall (fun o' => ~ hits g o') (obstacles g)
          /\ severely_off_road g
          /\ hit = true /\ g' = set_score (score g - 2 * off_road_penalty) g)
      \/ (Forall (fun o' => ~ hits g o') (obstacles g)
          /\ ~ severely_off_road g /\ hit = false /\ g' = g)).
Proof.
  assert (Hno : forall l,
            Forall (fun o' => colliderect (car_rect g) (obstacle_rect o') = false) l ->
            Forall (fun o' => ~ hits g o') l).
  { intros l H. eapply Forall_impl; [|exact H].
    intros o Ho. unfold hits. rewrite Ho. discriminate. }
  pose proof (first_hit_spec (car_rect g) (obstacles g) 0) as Hf.
  unfold _check_collision, bind, self, assign, ret.
  change (mkRect (Py.int (car_x g)) (car_y g) car_width car_height) with (car_rect g).
  destruct (first_hit (car_rect g) (obstacles g) 0) as [i|].
  - destruct Hf as (l1 & o & l2 & E1 & E2 & H1 & H2 & H3).
    split; [reflexivity|]. left. exists l1, o, l2.
    rewrite Nat.sub_0_r in H3. rewrite H3.
    repeat split; auto.
  - unfold severely_off_road.
    destruct (_get_road_boundaries g (inject_Z (car_y g))) as [road_left road_right].
    qcase (car_x g + inject_Z car_width <? road_left - 50); cbn [orb].
    + split; [reflexivity|]. right. left. repeat split; auto.
    + qcase (car_x g >? road_right + 50).
      * split; [reflexivity|]. right. left. repeat split; auto.
      * split; [reflexivity|]. right. right. repeat split; auto.
        intros [H|H]; lra.
Qed.

End Collisions.

Section Obstacles.

Import RacingGame.
Local Open Scope Q_scope.
Local Open Scope py_scope.

(** The loop over the obstacles: those that stay are moved, in order; each
    one that leaves gives a point and a message; nothing else changes. *)
Lemma move_obstacles_spec (l : list Obstacle) :
  forall acc g w,
  exists msgs ix,
    move_obstacles l acc g w
    = (acc ++ map (moved g) (filter (stays g) l),
       set_messages msgs
         (set_score
            (score g + Z.of_nat (List.length (filter (fun o => negb (stays g o)) l))) g),
       mkWorld (clock w) ix (rnd w) (rnd_ix w)).
Proof.
  induction l as [|[x y] l IH]; intros acc g w.
  - exists (messages g), (clock_ix w). cbn [move_obstacles map filter List.length app].
    unfold ret. rewrite app_nil_r. destruct g, w. cbn.
    rewrite Z.add_0_r. reflexivity.
  - cbn [move_obstacles filter].
    unfold bind at 1. unfold self at 1. unfold bind at 1. unfold self at 1.
    change (y + speed g * 3 <? inject_Z (Z.pos (height g))) with (stays g (x, y)).
    destruct (stays g (x, y)) eqn:E; cbn [negb].
    + destruct (IH (acc ++ [(x, y + speed g * 3)]) g w) as (msgs & ix & ->).
      exists msgs, ix. cbn [map List.length]. unfold moved at 2. cbn [fst snd].
      rewrite <- app_assoc. reflexivity.
    + unfold bind at 1. unfold assign at 1.
      unfold bind at 1. unfold _add_message, bind, time, assign.
      match goal with |- context [move_obstacles l acc ?g1 ?w1] =>
        destruct (IH acc g1 w1) as (msgs & ix & ->)
      end.
      exists msgs, ix. cbn [List.length]. rewrite Nat2Z.inj_succ.
      match goal with |- _ = (_, set_messages _ (set_score (?a + Z.succ ?b) _), _) =>
        replace (a + Z.succ b)%Z with (a + 1 + b)%Z by lia
      end.
      reflexivity.
Qed.

(** X4. [_update_obstacles] gives one point for each obstacle that leaves
    the screen, keeps the others, moved by [speed * 3], in their order, adds
    at most one new obstacle, at the top edge, and leaves every obstacle
    above the bottom edge. *)
Theorem update_obstacles_spec (g : Game) (w : World) :
  let g' := exec _update_obstacles g w in
  score g'
  = (score g
     + Z.of_nat (List.length (filter (fun o => negb (stays g o)) (obstacles g))))%Z
  /\ (exists spawned,
        obstacles g' = map (moved g) (filter (stays g) (obstacles g)) ++ spawned
        /\ (spawned = [] \/ exists x, spawned = [(x, 0)]))
  /\ Forall (fun o => snd o < inject_Z (Z.pos (height g))) (obstacles g').
Proof.
  intro g'. subst g'.
  assert (Hkept : Forall (fun o => snd o < inject_Z (Z.pos (height g)))
                    (map (moved g) (filter (stays g) (obstacles g)))).
  { apply Forall_forall. intros o Ho. apply in_map_iff in Ho.
    destruct Ho as (o0 & <- & Hin). apply filter_In in Hin.
    destruct Hin as [_ Hs]. unfold stays in Hs. apply Qltb_lt in Hs. exact Hs. }
  assert (Htop : 0 < inject_Z (Z.pos (height g))).
  { change 0 with (inject_Z 0). rewrite <- Zlt_Qlt. lia. }
  assert (Eg : exists g', g' = exec _update_obstacles g w) by (eexists; reflexivity).
  destruct Eg as [g' Eg]. rewrite <- Eg.
  unfold _update_obstacles, exec in Eg.
  unfold bind at 1 in Eg. unfold self at 1 in Eg. unfold bind at 1 in Eg.
  destruct (move_obstacles_spec (obstacles g) [] g w) as (msgs & ix & Em).
  rewrite Em in Eg. clear Em. cbn [app] in Eg.
  set (kept := map (moved g) (filter (stays g) (obstacles g))) in *.
  set (n := Z.of_nat (List.length (filter (fun o => negb (stays g o)) (obstacles g)))) in *.
  unfold uniform, bind, assign, self, when, ret, time, random in Eg. fields.
  assert (Hnone : obstacles g' = kept -> score g' = (score g + n)%Z ->
            score g' = (score g + n)%Z
            /\ (exists spawned, obstacles g' = kept ++ spawned
                   /\ (spawned = [] \/ exists x, spawned = [(x, 0)]))
            /\ Forall (fun o => snd o < inject_Z (Z.pos (height g))) (obstacles g')).
  { intros Ho Hs. split; [exact Hs|]. split.
    - exists []. rewrite app_nil_r. split; [exact Ho | left; reflexivity].
    - rewrite Ho. exact Hkept. }
  repeat match type of Eg with
         | context [if ?c then _ else _] => destruct c; fields; cbn [andb] in Eg
         end;
    try (subst g'; apply Hnone; reflexivity).
  destruct (_get_road_boundaries _ 0) as [road_left road_right]. fields.
  subst g'. fields. split; [reflexivity|]. split.
  - eexists. split; [reflexivity|]. right. eexists. reflexivity.
  - apply Forall_app. split; [exact Hkept|].
    constructor; [exact Htop | constructor].
Qed.

End Obstacles.

(** ** The ribbon of road segments *)

Section SegmentCount.

Import RacingGame.
Local Open Scope Q_scope.
Local Open Scope py_scope.

Lemma add_road_segment_adds (g : Game) (w : World) :
  exists s, road_segments (exec add_road_segment g w) = s :: road_segments g.
Proof.
  run.
  destruct (rnd w (rnd_ix w) <? 0.05); fields;
    repeat match goal with
           | |- context [if ?c then _ else _] => destruct c; fields
           end;
    eexists; reflexivity.
Qed.

Lemma add_road_segment_same_height : steps (same height) add_road_segment.
Proof. frame same_leaf. Qed.

Lemma add_road_segments_length (n : nat) :
  forall g w,
    List.length (road_segments (exec (add_road_segments n) g w))
    = (n + List.length (road_segments g))%nat.
Proof.
  induction n as [|n IH]; intros g w; cbn [add_road_segments].
  - reflexivity.
  - rewrite exec_bind, IH.
    destruct (add_road_segment_adds g w) as [s ->]. cbn [List.length]. lia.
Qed.

(** The road scrolls only when the car moves, and is then filled up to
    [num_segments] segments. *)
Lemma scroll_road_length (g : Game) (w : World) :
  0 < speed g ->
  let g' := exec scroll_road g w in
  height g' = height g
  /\ (num_segments g <= Z.of_nat (List.length (road_segments g')))%Z
  /\ ((Z.of_nat (List.length (road_segments g)) <= num_segments g)%Z ->
      Z.of_nat (List.length (road_segments g')) = num_segments g).
Proof.
  intros Hs g'. subst g'. split.
  { assert (H : steps (same height) scroll_road) by frame same_leaf. apply H. }
  apply Qltb_lt in Hs.
  unfold scroll_road, exec, bind, self, assign, when, ret. fields. rewrite Hs.
  match goal with |- context [if ?c then _ else _] => destruct c end; fields;
    match goal with |- context [add_road_segments ?n ?g1 ?w1] =>
      change (snd (fst (add_road_segments n g1 w1)))
        with (exec (add_road_segments n) g1 w1);
      rewrite (add_road_segments_length n g1 w1)
    end; fields;
    match goal with |- context [filter ?f (map ?h (road_segments g))] =>
      pose proof (filter_length_le f (map h (road_segments g))) as Hl;
      rewrite length_map in Hl;
      generalize dependent (List.length (filter f (map h (road_segments g))))
    end;
    intros n Hn; unfold num_segments; fields; split; lia.
Qed.

Lemma update_segment_count (head_angle head_tilt : Q) (g : Game) (w : World) :
  game_over g = false ->
  let g' := exec (update head_angle head_tilt) g w in
  height g' = height g
  /\ (num_segments g <= Z.of_nat (List.length (road_segments g')))%Z
  /\ ((Z.of_nat (List.length (road_segments g)) <= num_segments g)%Z ->
      Z.of_nat (List.length (road_segments g')) = num_segments g).
Proof.
  intros Hrun g'. subst g'. unfold update.
  rewrite exec_bind.
  change (value (self game_over) g w) with (game_over g).
  change (exec (self game_over) g w) with g.
  change (world_after (self game_over) g w) with w.
  rewrite Hrun. rewrite exec_bind.
  pose proof (update_speed_range head_tilt g w Hrun) as [Hs _].
  assert (Hf : steps same_road (update_speed head_tilt)) by frame same_road_leaf.
  destruct (Hf g w) as (Hseg & _ & Hh).
  set (g1 := exec (update_speed head_tilt) g w) in *.
  set (w1 := world_after (update_speed head_tilt) g w).
  rewrite exec_bind.
  assert (Hs1 : 0 < speed g1) by lra.
  destruct (scroll_road_length g1 w1 Hs1) as (Hh2 & Hge & Heq).
  set (g2 := exec scroll_road g1 w1) in *.
  match goal with |- context [exec ?m g2 ?w2] =>
    assert (Hrest : steps same_road m) by frame same_road_leaf;
    destruct (Hrest g2 w2) as (Hseg3 & _ & Hh3)
  end.
  rewrite Hseg3, Hh3, Hh2, Hh.
  assert (Hn : num_segments g1 = num_segments g)
    by (unfold num_segments; rewrite Hh; reflexivity).
  rewrite Hn, Hseg in *. repeat split; assumption.
Qed.

End SegmentCount.

(** ** The constructor *)

Section Constructor.

Import RacingGame.
Local Open Scope Q_scope.
Local Open Scope py_scope.

#[export] Instance same_start_pre : Pre same_start.
Proof.
  split; unfold same_start.
  - intros. repeat split; reflexivity.
  - intros g1 w1 g2 w2 g3 w3 (A1 & A2 & A3 & A4 & A5 & A6 & A7)
      (B1 & B2 & B3 & B4 & B5 & B6 & B7).
    repeat split; congruence.
Qed.

Lemma same_start_assign (h : Game -> Game) :
  (forall g, same_start g (mkWorld (fun _ => 0) 0 (fun _ => 0) 0) (h g)
                        (mkWorld (fun _ => 0) 0 (fun _ => 0) 0)) ->
  steps same_start (assign h).
Proof. intros H g w. exact (H g). Qed.

Lemma same_start_time : steps same_start time.
Proof. intros g w. repeat split. Qed.

Lemma same_start_random : steps same_start random.
Proof. intros g w. repeat split. Qed.

Lemma for_each_appends {A : Type} (l : list A) (body : A -> M unit) (ys : A -> Q) :
  (forall a g w, exists c,
      road_segments (exec (body a) g w) = road_segments g ++ [mkSegment (ys a) c]) ->
  forall g w,
    map seg_y (road_segments (exec (for_each l body) g w))
    = map seg_y (road_segments g) ++ map ys l.
Proof.
  intro Hb. induction l as [|a l IH]; intros g w; cbn [for_each map].
  - rewrite app_nil_r. reflexivity.
  - rewrite exec_bind, IH. destruct (Hb a g w) as [c ->].
    rewrite map_app, <- app_assoc. reflexivity.
Qed.

(** [generate_road_segments] lays [num_segments] segments from the bottom
    of the window upwards, [segment_height] apart. *)
Lemma generate_road_segments_layout (g : Game) (w : World) :
  map seg_y (road_segments (exec generate_road_segments g w))
  = map (fun i => inject_Z (Z.pos (height g) - i * segment_height))
        (range (num_segments g)).
Proof.
  unfold generate_road_segments.
  rewrite exec_bind.
  change (exec (assign (set_road_segments [])) g w) with (set_road_segments [] g).
  rewrite exec_bind.
  change (value (self num_segments) (set_road_segments [] g) _) with (num_segments g).
  change (exec (self num_segments) (set_road_segments [] g) ?w0)
    with (set_road_segments [] g).
  rewrite exec_bind.
  change (value (self height) (set_road_segments [] g) _) with (height g).
  change (exec (self height) (set_road_segments [] g) ?w0)
    with (set_road_segments [] g).
  rewrite (for_each_appends _ _
             (fun i => inject_Z (Z.pos (height g) - i * segment_height))).
  - reflexivity.
  - intros i g0 w0. run.
    destruct (rnd w0 (rnd_ix w0) <? 0.1); fields;
      repeat match goal with
             | |- context [if ?c then _ else _] => destruct c; fields
             end;
      eexists; reflexivity.
Qed.

Lemma range_length (n : Z) : List.length (range n) = Z.to_nat n.
Proof. unfold range. rewrite length_map, length_seq. reflexivity. Qed.

Lemma num_segments_positive (g : Game) : (10 <= num_segments g)%Z.
Proof.
  unfold num_segments, segment_height.
  assert (0 <= Z.pos (height g) / 5)%Z by (apply Z.div_pos; lia). lia.
Qed.

Lemma generate_road_segments_length (g : Game) (w : World) :
  Z.of_nat (List.length (road_segments (exec generate_road_segments g w)))
  = num_segments g.
Proof.
  rewrite <- (length_map seg_y), generate_road_segments_layout.
  rewrite length_map, range_length.
  pose proof (num_segments_positive g). lia.
Qed.

End Constructor.

Ltac same_start_leaf :=
  first [ apply same_start_time | apply same_start_random
        | apply same_start_assign; intro; repeat split ].

Section ConstructorFacts.

Import RacingGame.
Local Open Scope Q_scope.
Local Open Scope py_scope.

Lemma spawn_initial_obstacles_heights (g : Game) (w : World) :
  map snd (obstacles (exec _spawn_initial_obstacles g w))
  = map snd (obstacles g) ++ [inject_Z 0; inject_Z 200; inject_Z 400].
Proof.
  unfold _spawn_initial_obstacles. change (range 3) with [0%Z; 1%Z; 2%Z].
  cbn [for_each]. run.
  repeat match goal with
         | |- context [_get_road_boundaries ?g0 ?y] =>
             destruct (_get_road_boundaries g0 y); fields
         end.
  rewrite !map_app. cbn [map snd]. rewrite <- !app_assoc. reflexivity.
Qed.

(** The constructor, block by block. *)
Lemma init_layout (w : N) (h : positive) (world : World) :
  let g := fst (__init__ w h world) in
  fresh w h g
  /\ messages g = []
  /\ map seg_y (road_segments g)
     = map (fun i => inject_Z (Z.pos h - i * segment_height)) (range (num_segments g))
  /\ Z.of_nat (List.length (road_segments g)) = num_segments g
  /\ map snd (obstacles g) = [inject_Z 0; inject_Z 200; inject_Z 400].
Proof.
  intro g. subst g. unfold __init__. cbn [fst].
  match goal with |- context [exec ?body ?blank world] =>
    set (Post := fun g : Game =>
      fresh w h g /\ messages g = []
      /\ map seg_y (road_segments g)
         = map (fun i => inject_Z (Z.pos h - i * segment_height))
               (range (num_segments g))
      /\ Z.of_nat (List.length (road_segments g)) = num_segments g
      /\ map snd (obstacles g) = [inject_Z 0; inject_Z 200; inject_Z 400]);
    change (Post (exec body blank world));
    cut (hoare (fun _ _ => True) body (fun _ g _ => Post g));
    [intro H; exact (H blank world I)|]
  end.
  do 5 (eapply hoare_bind with (Mid := fun _ _ _ => True);
        [intros g0 w0 _; exact I | intro; cbv beta]).
  eapply hoare_bind with
    (Mid := fun _ g _ => fresh w h g /\ obstacles g = []).
  { intros g0 w0 _. unfold fresh. cbn. repeat split; reflexivity. }
  intro; cbv beta.
  eapply hoare_bind with
    (Mid := fun _ g _ =>
       (fresh w h g /\ obstacles g = [])
       /\ map seg_y (road_segments g)
          = map (fun i => inject_Z (Z.pos h - i * segment_height))
                (range (num_segments g))
          /\ Z.of_nat (List.length (road_segments g)) = num_segments g).
  { intros g0 w0 [Hf Ho].
    assert (Hs : steps same_start generate_road_segments) by frame same_start_leaf.
    assert (Hob : steps (same obstacles) generate_road_segments) by frame same_leaf.
    destruct (Hs g0 w0) as (S1 & S2 & S3 & S4 & S5 & S6 & S7).
    destruct Hf as (F1 & F2 & F3 & F4 & F5 & F6 & F7).
    assert (Hn : num_segments (exec generate_road_segments g0 w0) = num_segments g0)
      by (unfold num_segments; rewrite S2; reflexivity).
    split; [split|split].
    - unfold fresh. repeat split; congruence.
    - rewrite (Hob g0 w0). exact Ho.
    - rewrite generate_road_segments_layout, Hn, F2. reflexivity.
    - rewrite generate_road_segments_length, Hn. reflexivity. }
  intro; cbv beta.
  eapply hoare_bind with
    (Mid := fun _ g _ =>
       fresh w h g
       /\ map seg_y (road_segments g)
          = map (fun i => inject_Z (Z.pos h - i * segment_height))
                (range (num_segments g))
       /\ Z.of_nat (List.length (road_segments g)) = num_segments g
       /\ map snd (obstacles g) = [inject_Z 0; inject_Z 200; inject_Z 400]).
  { intros g0 w0 [[Hf Ho] [Hl Hc]].
    assert (Hs : steps same_start _spawn_initial_obstacles) by frame same_start_leaf.
    assert (Hr : steps same_road _spawn_initial_obstacles) by frame same_road_leaf.
    destruct (Hs g0 w0) as (S1 & S2 & S3 & S4 & S5 & S6 & S7).
    destruct (Hr g0 w0) as (R1 & _ & _).
    destruct Hf as (F1 & F2 & F3 & F4 & F5 & F6 & F7).
    assert (Hn : num_segments (exec _spawn_initial_obstacles g0 w0) = num_segments g0)
      by (unfold num_segments; rewrite S2; reflexivity).
    split; [|split; [|split]].
    - unfold fresh. repeat split; congruence.
    - rewrite R1, Hn. exact Hl.
    - rewrite R1, Hn. exact Hc.
    - rewrite spawn_initial_obstacles_heights, Ho. reflexivity. }
  intro; cbv beta.
  intros g0 w0 (Hf & Hl & Hc & Ho). subst Post. cbv beta.
  unfold exec, assign. cbn [fst snd].
  repeat split; try assumption; apply Hf.
Qed.

(** X5. What the constructor leaves: the window size it was given, score
    100, speed 0, the game running, the car in the middle, no penalty yet,
    no message, [num_segments] road segments laid from the bottom of the
    window upwards 5 apart, and three obstacles at heights 0, 200 and 400. *)
Theorem init_state (w : N) (h : positive) (world : World) :
  let g := fst (__init__ w h world) in
  fresh w h g
  /\ messages g = []
  /\ map seg_y (road_segments g)
     = map (fun i => inject_Z (Z.pos h - i * segment_height)) (range (num_segments g))
  /\ Z.of_nat (List.length (road_segments g)) = num_segments g
  /\ map snd (obstacles g) = [inject_Z 0; inject_Z 200; inject_Z 400].
Proof. exact (init_layout w h world). Qed.

End ConstructorFacts.

Section RoadInvariant.

Import RacingGame.
Local Open Scope Q_scope.
Local Open Scope py_scope.

Lemma play_segment_count (signals : list (Q * Q)) :
  forall g w,
    Z.of_nat (List.length (road_segments g)) = num_segments g ->
    let g' := exec (play signals) g w in
    height g' = height g
    /\ Z.of_nat (List.length (road_segments g')) = num_segments g'.
Proof.
  induction signals as [|[a t] l IH]; intros g w Hn; cbn [play].
  - split; [reflexivity | exact Hn].
  - cbv zeta. rewrite exec_bind.
    assert (Hu : height (exec (update a t) g w) = height g
                 /\ Z.of_nat (List.length (road_segments (exec (update a t) g w)))
                    = num_segments (exec (update a t) g w)).
    { destruct (game_over g) eqn:Hover.
      - unfold exec. rewrite update_over by exact Hover. cbn [fst snd].
        split; [reflexivity | exact Hn].
      - destruct (update_segment_count a t g w Hover) as (H1 & _ & H3).
        split; [exact H1|]. unfold num_segments in *. rewrite H1.
        apply H3. lia. }
    destruct Hu as [Hh Hc].
    destruct (IH _ (world_after (update a t) g w) Hc) as [Hh' Hc'].
    split; [congruence | exact Hc'].
Qed.

(** X6. Whatever is played on a game made by the constructor, the road
    keeps exactly [num_segments] = [height // 5 + 10] segments: it is never
    empty, and [_get_road_boundaries] never falls back on the centred
    road. *)
Theorem road_keeps_its_segments (w : N) (h : positive) (world : World)
  (signals : list (Q * Q)) :
  let g := exec (play signals) (fst (__init__ w h world)) (snd (__init__ w h world)) in
  Z.of_nat (List.length (road_segments g)) = (Z.pos h / 5 + 10)%Z
  /\ road_segments g <> []
  /\ forall y_pos, closest_segment (road_segments g) y_pos <> None.
Proof.
  intro g.
  destruct (init_layout w h world) as (Hf & _ & _ & Hc & _).
  destruct (play_segment_count signals _ (snd (__init__ w h world)) Hc) as [Hh Hn].
  fold g in Hh, Hn.
  assert (Hh0 : height g = h) by (rewrite Hh; apply Hf).
  assert (Hlen : Z.of_nat (List.length (road_segments g)) = (Z.pos h / 5 + 10)%Z).
  { rewrite Hn. unfold num_segments, segment_height. rewrite Hh0. reflexivity. }
  assert (Hne : road_segments g <> []).
  { intro E. rewrite E in Hlen. cbn in Hlen.
    assert (0 <= Z.pos h / 5)%Z by (apply Z.div_pos; lia). lia. }
  split; [exact Hlen|]. split; [exact Hne|].
  intros y_pos E.
  destruct (closest_segment_nearest (road_segments g) y_pos Hne) as (c & Ec & _).
  congruence.
Qed.

End RoadInvariant.

(** ** The curvature of the road *)

Section Curvature.

Import RacingGame.
Local Open Scope Q_scope.
Local Open Scope py_scope.

(** The two branches of the step toward the target. *)
Lemma approach_target_curve_moves (g : Game) (w : World) :
  let c := road_curvature g in
  let t := target_curve g in
  let g' := exec approach_target_curve g w in
  let c' := road_curvature g' in
  (c <= t -> c <= c' /\ c' <= t)
  /\ (t <= c -> t <= c' /\ c' <= c)
  /\ (c - curvature_change_speed <= c' /\ c' <= c + curvature_change_speed)
  /\ (c - curvature_change_speed <= t /\ t <= c + curvature_change_speed -> c' == t)
  /\ g' = set_road_curvature c' g.
Proof.
  intros c t g' c'. subst c t g' c'. run. unfold curvature_change_speed.
  qcase (road_curvature g <? target_curve g); fields.
  - destruct (min_cases (road_curvature g + 0.002) (target_curve g)) as [[H1 ->]|[H1 ->]];
      repeat split; try reflexivity; intros; lra.
  - qcase (road_curvature g >? target_curve g); fields.
    + destruct (max_cases (road_curvature g - 0.002) (target_curve g))
        as [[H1 ->]|[H1 ->]];
        repeat split; try reflexivity; intros; lra.
    + repeat split; try (intros; lra).
      destruct g; reflexivity.
Qed.

(** X7. One step of the curvature toward its target: it moves by at most
    [curvature_change_speed], never past the target, reaches the target when
    that is within one step, and touches nothing but [road_curvature]. *)
Theorem approach_target_curve_step (g : Game) (w : World) :
  let c := road_curvature g in
  let t := target_curve g in
  let g' := exec approach_target_curve g w in
  let c' := road_curvature g' in
  (c <= t -> c <= c' /\ c' <= t)
  /\ (t <= c -> t <= c' /\ c' <= c)
  /\ (c - curvature_change_speed <= c' /\ c' <= c + curvature_change_speed)
  /\ (c - curvature_change_speed <= t /\ t <= c + curvature_change_speed -> c' == t)
  /\ g' = set_road_curvature c' g.
Proof. exact (approach_target_curve_moves g w). Qed.

#[export] Instance same_curves_pre : Pre same_curves.
Proof.
  split; unfold same_curves.
  - intros. repeat split; reflexivity.
  - intros g1 w1 g2 w2 g3 w3 (A1 & A2 & A3) (B1 & B2 & B3).
    repeat split; congruence.
Qed.

Lemma same_curves_assign (h : Game -> Game) :
  (forall g, road_curvature (h g) = road_curvature g) ->
  (forall g, target_curve (h g) = target_curve g) ->
  (forall g, road_segments (h g) = road_segments g) ->
  steps same_curves (assign h).
Proof.
  intros H1 H2 H3 g w. unfold same_curves, exec, assign. cbn [fst snd].
  repeat split; auto.
Qed.

Lemma same_curves_time : steps same_curves time.
Proof. intros g w. repeat split. Qed.

Lemma same_curves_random : steps same_curves random.
Proof. intros g w. repeat split. Qed.

End Curvature.

Ltac same_curves_leaf :=
  first [ apply same_curves_time | apply same_curves_random
        | apply same_curves_assign; intro; reflexivity ].

Section CurvatureBound.

Import RacingGame.
Local Open Scope Q_scope.
Local Open Scope py_scope.

(** The condition kept: bounded curvatures, in a world of unit draws. *)
Let tame (g : Game) (w : World) : Prop := curves_bounded g /\ unit_draws (rnd w).

Lemma tame_kept {A : Type} (m : M A) :
  steps same_curves m -> steps world_forward m ->
  hoare tame m (fun _ => tame).
Proof.
  intros H1 H2 g w [Hc Hu].
  destruct (H1 g w) as (E1 & E2 & E3). destruct (H2 g w) as (_ & E4 & _).
  split.
  - unfold curves_bounded in *. rewrite E1, E2, E3. exact Hc.
  - rewrite E4. exact Hu.
Qed.

(** A new target is drawn inside the bounds. *)
Lemma retarget_tame (draw : bool) :
  hoare tame
    (if draw then
       t <- uniform (- max_curvature) max_curvature ;;
       assign (set_target_curve t)
     else ret tt)
    (fun _ => tame).
Proof.
  intros g w [(Hc & Ht & Hs) Hu].
  destruct draw; [|exact (conj (conj Hc (conj Ht Hs)) Hu)].
  run. split; [|exact Hu]. unfold curves_bounded. fields.
  split; [exact Hc|]. split; [|exact Hs].
  destruct (Hu (rnd_ix w)) as [U1 U2]. unfold max_curvature in *.
  generalize dependent (rnd w (rnd_ix w)). intros u U1 U2. split; lra.
Qed.

Lemma approach_target_curve_tame :
  hoare tame approach_target_curve (fun _ => tame).
Proof.
  intros g w [(Hc & Ht & Hs) Hu].
  destruct (approach_target_curve_moves g w) as (H1 & H2 & _ & _ & E).
  split.
  2:{ assert (Hw : steps world_forward approach_target_curve) by frame world_leaf.
      destruct (Hw g w) as (_ & Ew & _). rewrite Ew. exact Hu. }
  rewrite E. unfold curves_bounded. fields. split; [|split; assumption].
  destruct (Qlt_le_dec (target_curve g) (road_curvature g)) as [L|L].
  - assert (L' : target_curve g <= road_curvature g) by lra.
    specialize (H2 L'). lra.
  - specialize (H1 L). lra.
Qed.

Lemma add_road_segment_tame : hoare tame add_road_segment (fun _ => tame).
Proof.
  unfold add_road_segment.
  eapply hoare_bind; [apply tame_kept; [frame same_curves_leaf | frame world_leaf]
                     | intro r; cbv beta].
  eapply hoare_bind; [apply retarget_tame | intro; cbv beta].
  eapply hoare_bind; [apply approach_target_curve_tame | intro; cbv beta].
  intros g w [(Hc & Ht & Hs) Hu]. split; [|exact Hu].
  run. unfold curves_bounded. fields.
  split; [exact Hc|]. split; [exact Ht|].
  constructor; [exact Hc | exact Hs].
Qed.

Lemma add_road_segments_tame (n : nat) :
  hoare tame (add_road_segments n) (fun _ => tame).
Proof.
  induction n as [|n IH]; cbn [add_road_segments].
  - intros g w H. exact H.
  - eapply hoare_bind; [apply add_road_segment_tame | intro; exact IH].
Qed.

Lemma scroll_road_tame : hoare tame scroll_road (fun _ => tame).
Proof.
  unfold scroll_road.
  eapply hoare_bind with (Mid := fun _ => tame); [intros g w H; exact H|].
  intro s; cbv beta. destruct (s >? 0); unfold when at 1;
    [|intros g w H; exact H].
  eapply hoare_bind; [apply tame_kept; [frame same_curves_leaf | frame world_leaf]
                     | intro; cbv beta].
  eapply hoare_bind with (Mid := fun _ => tame); [intros g w H; exact H|].
  intro offset; cbv beta.
  eapply hoare_bind; [apply tame_kept; [frame same_curves_leaf | frame world_leaf]
                     | intro; cbv beta].
  eapply hoare_bind with (Mid := fun _ => tame).
  { intros g w [(Hc & Ht & Hs) Hu]. split; [|exact Hu].
    unfold curves_bounded, exec, assign. fields.
    split; [exact Hc|]. split; [exact Ht|].
    apply Forall_forall. intros x Hx. apply in_map_iff in Hx.
    destruct Hx as (x0 & <- & Hin). cbn [seg_curve].
    rewrite Forall_forall in Hs. apply Hs, Hin. }
  intro; cbv beta.
  eapply hoare_bind with (Mid := fun _ => tame).
  { intros g w [(Hc & Ht & Hs) Hu]. split; [|exact Hu].
    unfold curves_bounded, exec, assign. fields.
    split; [exact Hc|]. split; [exact Ht|].
    apply Forall_forall. intros x Hx. apply filter_In in Hx.
    rewrite Forall_forall in Hs. apply Hs, Hx. }
  intro; cbv beta.
  eapply hoare_bind with (Mid := fun _ => tame); [intros g w H; exact H|].
  intro missing; cbv beta. apply add_road_segments_tame.
Qed.

Lemma update_tame (head_angle head_tilt : Q) :
  hoare tame (update head_angle head_tilt) (fun _ => tame).
Proof.
  unfold update.
  eapply hoare_bind with (Mid := fun _ => tame); [intros g w H; exact H|].
  intros [|]; cbv beta; [intros g w H; exact H|].
  eapply hoare_bind; [apply tame_kept; [frame same_curves_leaf | frame world_leaf]
                     | intro; cbv beta].
  eapply hoare_bind; [apply scroll_road_tame | intro; cbv beta].
  apply tame_kept; [frame same_curves_leaf | frame world_leaf].
Qed.

Lemma play_tame (signals : list (Q * Q)) :
  hoare tame (play signals) (fun _ => tame).
Proof.
  induction signals as [|[a t] l IH]; cbn [play].
  - intros g w H. exact H.
  - eapply hoare_bind; [apply update_tame | intro; exact IH].
Qed.

Lemma generate_road_segments_tame :
  hoare tame generate_road_segments (fun _ => tame).
Proof.
  unfold generate_road_segments.
  eapply hoare_bind with (Mid := fun _ => tame).
  { intros g w [(Hc & Ht & Hs) Hu]. split; [|exact Hu].
    unfold curves_bounded, exec, assign. fields.
    split; [exact Hc|]. split; [exact Ht | constructor]. }
  intro; cbv beta.
  eapply hoare_bind with (Mid := fun _ => tame); [intros g w H; exact H|].
  intro n; cbv beta.
  eapply hoare_bind with (Mid := fun _ => tame); [intros g w H; exact H|].
  intro h; cbv beta.
  generalize (range n). intro l. induction l as [|i l IH]; cbn [for_each].
  - intros g w H. exact H.
  - eapply hoare_bind; [|intro; exact IH].
    eapply hoare_bind; [apply tame_kept; [frame same_curves_leaf | frame world_leaf]
                       | intro r; cbv beta].
    eapply hoare_bind; [apply retarget_tame | intro; cbv beta].
    eapply hoare_bind; [apply approach_target_curve_tame | intro; cbv beta].
    intros g w [(Hc & Ht & Hs) Hu]. split; [|exact Hu].
    run. unfold curves_bounded. fields.
    split; [exact Hc|]. split; [exact Ht|].
    apply Forall_app. split; [exact Hs|]. constructor; [exact Hc | constructor].
Qed.

Lemma init_tame (w : N) (h : positive) (world : World) :
  unit_draws (rnd world) ->
  tame (fst (__init__ w h world)) (snd (__init__ w h world)).
Proof.
  intro Hu. unfold __init__. cbn [fst snd].
  match goal with |- tame (exec ?body ?blank world) _ =>
    cut (hoare (fun _ w0 => unit_draws (rnd w0)) body (fun _ => tame));
    [intro H; exact (H blank world Hu)|]
  end.
  assert (Hd : forall (A : Type) (m : M A), steps world_forward m ->
            hoare (fun _ w0 => unit_draws (rnd w0)) m
                  (fun _ _ w0 => unit_draws (rnd w0))).
  { intros A m Hm g0 w0 H. destruct (Hm g0 w0) as (_ & E & _). rewrite E. exact H. }
  do 3 (eapply hoare_bind; [apply Hd; frame world_leaf | intro; cbv beta]).
  eapply hoare_bind.
  { apply Hd. unfold generate_mountains.
    refine (steps_bind _ _ _ _ _); [refine (steps_self _ _)|].
    intro w0. generalize (range 10) (@nil Mountain).
    intro l. induction l as [|i l IH]; intro acc; cbn [mountains_from].
    - refine (steps_ret _ _).
    - frame world_leaf. apply IH. }
  intro; cbv beta.
  eapply hoare_bind.
  { apply Hd. unfold generate_clouds.
    refine (steps_bind _ _ _ _ _); [refine (steps_self _ _)|].
    intro w0. generalize (range 5) (@nil Cloud).
    intro l. induction l as [|i l IH]; intro acc; cbn [clouds_from].
    - refine (steps_ret _ _).
    - frame world_leaf. apply IH. }
  intro; cbv beta.
  eapply hoare_bind with (Mid := fun _ => tame).
  { intros g0 w0 H. split; [|exact H].
    unfold curves_bounded, exec, assign, max_curvature. cbn.
    repeat split; try constructor; discriminate. }
  intro; cbv beta.
  eapply hoare_bind; [apply generate_road_segments_tame | intro; cbv beta].
  apply tame_kept; [frame same_curves_leaf | frame world_leaf].
Qed.

(** X8. In a world whose random draws are floats of [0, 1), whatever is
    played on a game made by the constructor, the curvature of the road, its
    target and the curvature of every segment stay within
    [max_curvature] = 0.3. *)
Theorem curvature_stays_bounded (w : N) (h : positive) (world : World)
  (signals : list (Q * Q)) :
  unit_draws (rnd world) ->
  curves_bounded
    (exec (play signals) (fst (__init__ w h world)) (snd (__init__ w h world))).
Proof.
  intro Hu.
  exact (proj1 (play_tame signals _ _ (init_tame w h world Hu))).
Qed.

End CurvatureBound.

Section CurvatureExamples.

Import RacingGame.
Local Open Scope Q_scope.
Local Open Scope py_scope.

Lemma example_world_unit_draws : unit_draws (rnd example_world).
Proof. intro n. cbn. split; [discriminate | reflexivity]. Qed.

Lemma curvature_stays_bounded_witness :
  curves_bounded (exec (play [(0.5, -1); (0, 0)]) new_game new_world).
Proof.
  apply (curvature_stays_bounded 800 600 example_world [(0.5, -1); (0, 0)]).
  exact example_world_unit_draws.
Defined.

(** X9. With curvatures within 0.3 the road bends by at most 60 units over
    the height of the window: at every height of the window the left
    boundary lies between [road_center_x - 210] and [road_center_x - 90], and
    the right boundary 300 further. *)
Theorem road_stays_about_the_centre (g : Game) (y_pos : Q) :
  curves_bounded g -> 0 <= y_pos -> y_pos <= inject_Z (Z.pos (height g)) ->
  let '(road_left, road_right) := _get_road_boundaries g y_pos in
  let centre := inject_Z (road_center_x g) in
  (centre - 210 <= road_left /\ road_left <= centre - 90)
  /\ road_right == road_left + 300.
Proof.
  intros (_ & _ & Hs) Hy0 Hy1.
  pose proof (road_boundaries_gap g y_pos) as Hgap.
  unfold _get_road_boundaries, road_width in *.
  change (300 / 2)%Z with 150%Z in *.
  destruct (closest_segment (road_segments g) y_pos) as [c|] eqn:Ec;
    cbn [fst snd] in *.
  - assert (Hin : In c (road_segments g)).
    { destruct (road_segments g) as [|a l] eqn:E; [discriminate|].
      destruct (closest_segment_nearest (a :: l) y_pos) as (c' & Ec' & Hin & _);
        [discriminate|].
      rewrite Ec in Ec'. injection Ec' as ->. exact Hin. }
    rewrite Forall_forall in Hs. specialize (Hs c Hin).
    unfold max_curvature in Hs.
    assert (Hh : 0 < inject_Z (Z.pos (height g))).
    { change 0 with (inject_Z 0). rewrite <- Zlt_Qlt. lia. }
    assert (Hr : 0 <= y_pos / inject_Z (Z.pos (height g))
                 /\ y_pos / inject_Z (Z.pos (height g)) <= 1).
    { split.
      - apply Qle_shift_div_l; [exact Hh | lra].
      - apply Qle_shift_div_r; [exact Hh | lra]. }
    change (inject_Z 150) with 150 in *.
    generalize dependent (y_pos / inject_Z (Z.pos (height g))).
    generalize (inject_Z (road_center_x g)). generalize dependent (seg_curve c).
    intros k Hk centre r Hgap [Hr0 Hr1].
    split; [|exact Hgap]. split; nra.
  - unfold Z.sub in *. rewrite !inject_Z_plus, inject_Z_opp in *.
    change (inject_Z 150) with 150 in *.
    generalize dependent (inject_Z (road_center_x g)). intros centre Hgap.
    split; [|exact Hgap]. split; lra.
Qed.

Lemma road_stays_about_the_centre_witness :
  let g := exec (play [(0, 0)]) new_game new_world in
  let '(road_left, road_right) := _get_road_boundaries g 500 in
  let centre := inject_Z (road_center_x g) in
  (centre - 210 <= road_left /\ road_left <= centre - 90)
  /\ road_right == road_left + 300.
Proof.
  apply (road_stays_about_the_centre (exec (play [(0, 0)]) new_game new_world) 500).
  - exact (proj1 (play_tame [(0, 0)] _ _
                    (init_tame 800 600 example_world example_world_unit_draws))).
  - discriminate.
  - vm_compute. discriminate.
Defined.

End CurvatureExamples.

(** ** Throttle and brake *)

Section Throttle.

Import RacingGame.
Local Open Scope Q_scope.
Local Open Scope py_scope.

(** What the clamp and the floor of a running game make of a speed. *)
Lemma clamp_and_floor (x : Q) :
  let s := Py.max min_speed (Py.min max_speed x) in
  let s' := if s <? 1.0 then 1.0 else s in
  (x < 1 -> s' == 1) /\ (1 <= x -> x <= 10 -> s' == x) /\ (10 < x -> s' == 10).
Proof.
  intros s s'. subst s s'. unfold min_speed, max_speed.
  destruct (min_cases 10.0 x) as [[H1 ->]|[H1 ->]];
    [destruct (max_cases 0.0 x) as [[H2 ->]|[H2 ->]]
    |destruct (max_cases 0.0 10.0) as [[H2 ->]|[H2 ->]]];
    match goal with |- context [?a <? 1.0] => qcase (a <? 1.0) end;
    repeat split; intros; lra.
Qed.

(** X10. The throttle of a running game.  With the head away from the
    camera, [head_tilt < -0.1], the speed gains [acceleration * (-head_tilt)
    * 3]; with the head near, [head_tilt > 0.1], it loses [deceleration *
    head_tilt * 3]; the result is then held between the floor 1.0 and
    [max_speed] = 10. *)
Theorem update_throttle (head_angle head_tilt : Q) (g : Game) (w : World) :
  game_over g = false ->
  head_tilt < -0.1 \/ 0.1 < head_tilt ->
  let x := if head_tilt <? -0.1
           then speed g + acceleration * (- head_tilt) * 3
           else speed g - deceleration * head_tilt * 3 in
  let s' := speed (exec (update head_angle head_tilt) g w) in
  (x < 1 -> s' == 1) /\ (1 <= x -> x <= 10 -> s' == x) /\ (10 < x -> s' == 10).
Proof.
  intros Hrun Ht x s'. subst s'.
  rewrite update_speed_final by exact Hrun.
  pose proof (clamp_and_floor x) as Hx. cbv zeta in Hx.
  subst x. run.
  qcase (head_tilt <? -0.1); fields.
  - rewrite Hrun. cbn [negb andb].
    match goal with |- context [if ?c then _ else _] => destruct c end;
      fields; exact Hx.
  - assert (Hb : 0.1 < head_tilt) by (destruct Ht; lra).
    apply Qltb_lt in Hb. rewrite Hb. fields. rewrite Hrun. cbn [negb andb].
    match goal with |- context [if ?c then _ else _] => destruct c end;
      fields; exact Hx.
Qed.

Lemma update_throttle_witness :
  let x := if -1 <? -0.1
           then speed rolling_game + acceleration * (- -1) * 3
           else speed rolling_game - deceleration * -1 * 3 in
  let s' := speed (exec (update 0 (-1)) rolling_game rolling_world) in
  (x < 1 -> s' == 1) /\ (1 <= x -> x <= 10 -> s' == x) /\ (10 < x -> s' == 10).
Proof.
  apply (update_throttle 0 (-1) rolling_game rolling_world).
  - vm_compute. reflexivity.
  - left. reflexivity.
Defined.

End Throttle.

(** ** The survival bonus *)

Section Unpaid.

Import RacingGame.

#[export] Instance unpaid_pre : Pre unpaid.
Proof.
  split; unfold unpaid.
  - intros. repeat split; reflexivity || apply Nat.le_refl.
  - intros g1 w1 g2 w2 g3 w3 (A1 & A2 & A3) (B1 & B2 & B3).
    repeat split; try congruence. eapply Nat.le_trans; eassumption.
Qed.

Lemma unpaid_assign (h : Game -> Game) :
  (forall g, last_time_score (h g) = last_time_score g) ->
  steps unpaid (assign h).
Proof.
  intros H g w. unfold unpaid, exec, world_after, assign. cbn [fst snd].
  repeat split; auto.
Qed.

Lemma unpaid_time : steps unpaid time.
Proof.
  intros g w. unfold unpaid, exec, world_after, time. cbn [fst snd clock clock_ix].
  repeat split; auto.
Qed.

Lemma unpaid_random : steps unpaid random.
Proof.
  intros g w. unfold unpaid, exec, world_after, random. cbn [fst snd clock clock_ix].
  repeat split; auto.
Qed.

End Unpaid.

Ltac unpaid_leaf :=
  first [ apply unpaid_time | apply unpaid_random
        | apply unpaid_assign; intro; reflexivity ].

Section Bonus.

Import RacingGame.
Local Open Scope Q_scope.
Local Open Scope py_scope.

Variable ck : nat -> Q.
Variable start : nat.
Variable last0 : Q.

Let inv : Game -> World -> Prop := fun g w =>
  last_time_score g = last0 /\ clock w = ck /\ (start <= clock_ix w)%nat.

Lemma unpaid_keeps {A : Type} (m : M A) :
  steps unpaid m -> hoare inv m (fun _ => inv).
Proof.
  intros Hm g w (I1 & I2 & I3).
  destruct (Hm g w) as (C1 & C2 & C3).
  unfold inv. rewrite C1, C2. repeat split; try assumption. lia.
Qed.

(** The bonus (lines 298-304): it is paid at a reading of the clock at
    least [time_score_interval] after the last one, to a game that is not
    over, and that reading becomes the time of the last bonus. *)
Lemma score_by_time_since (current_time : Q) :
  hoare (fun g w => inv g w
                    /\ exists i, (start <= i < clock_ix w)%nat /\ current_time = ck i)
        (score_by_time current_time)
        (fun _ => bonus_since ck start last0).
Proof.
  intros g w [(I1 & I2 & I3) (i & Hi & Ect)]. unfold bonus_since. run.
  destruct (game_over g) eqn:Hover; cbn [negb andb];
    [rewrite andb_false_r; fields; left; assumption|].
  rewrite andb_true_r.
  qcase (current_time - last_time_score g >=? time_score_interval); fields.
  - right. split; [exact Hover|].
    exists i. split; [lia|]. split; [exact Ect|]. rewrite <- Ect, <- I1. exact E.
  - left. assumption.
Qed.

Lemma expire_messages_since (current_time : Q) :
  hoare (bonus_since ck start last0) (expire_messages current_time)
        (fun _ => bonus_since ck start last0).
Proof.
  intros g w H. unfold bonus_since in *. run. exact H.
Qed.

(** Over a whole tick of a running game. *)
Lemma update_bonus_since (head_angle head_tilt : Q) (g : Game) (w : World) :
  game_over g = false -> inv g w ->
  bonus_since ck start last0 (exec (update head_angle head_tilt) g w)
              (world_after (update head_angle head_tilt) g w).
Proof.
  intro Hrun. unfold update. rewrite exec_bind, world_after_bind.
  change (value (self game_over) g w) with (game_over g).
  change (exec (self game_over) g w) with g.
  change (world_after (self game_over) g w) with w.
  rewrite Hrun. clear Hrun. revert g w.
  change (hoare inv
    (update_speed head_tilt;;
     scroll_road;;
     steer head_angle;;
     bounds <- self (fun g => _get_road_boundaries g (inject_Z (car_y g)));;
     (let '(road_left, road_right) := bounds in
      off_road_check road_left road_right;;
      limit_car_to_road road_left road_right;;
      _update_obstacles;;
      collision_check;;
      check_game_over;;
      update_clouds;;
      score_by_speed;;
      current_time <- time;;
      score_by_time current_time;; expire_messages current_time))
    (fun _ => bonus_since ck start last0)).
  do 3 (eapply hoare_bind; [apply unpaid_keeps; frame unpaid_leaf | intro; cbv beta]).
  eapply hoare_bind;
    [apply unpaid_keeps; frame unpaid_leaf | intros [road_left road_right]].
  do 7 (eapply hoare_bind; [apply unpaid_keeps; frame unpaid_leaf | intro; cbv beta]).
  eapply hoare_bind with
    (Mid := fun t g w => inv g w
                         /\ exists i, (start <= i < clock_ix w)%nat /\ t = ck i).
  { intros g w (I1 & I2 & I3). unfold inv. run.
    repeat split; try assumption; try lia.
    exists (clock_ix w). split; [lia|]. rewrite I2. reflexivity. }
  intro current_time; cbv beta.
  eapply hoare_bind; [apply score_by_time_since | intro; cbv beta].
  apply expire_messages_since.
Qed.

End Bonus.

Section BonusClaims.

Import RacingGame.
Local Open Scope Q_scope.
Local Open Scope py_scope.

(** X20. The survival bonus of a tick.  Either [last_time_score] stays
    as it is; or the tick has paid the bonus, to a game that goes on, at a
    reading of the clock at least [time_score_interval] = 5 s later than
    [last_time_score], and that reading is the new [last_time_score]: a
    game that is over, or that this tick ends, gets no bonus, and two
    bonuses are at least 5 s of the clock apart. *)
Theorem update_survival_bonus (head_angle head_tilt : Q) (g : Game) (w : World) :
  let g' := exec (update head_angle head_tilt) g w in
  let w' := world_after (update head_angle head_tilt) g w in
  last_time_score g' = last_time_score g
  \/ (game_over g = false /\ game_over g' = false
      /\ exists i, (clock_ix w <= i < clock_ix w')%nat
                   /\ last_time_score g' = clock w i
                   /\ time_score_interval <= clock w i - last_time_score g).
Proof.
  intros g' w'. subst g' w'.
  destruct (game_over g) eqn:Hrun.
  - left. unfold exec. rewrite update_over by exact Hrun. reflexivity.
  - assert (H0 : last_time_score g = last_time_score g /\ clock w = clock w
                 /\ (clock_ix w <= clock_ix w)%nat) by auto.
    destruct (update_bonus_since (clock w) (clock_ix w) (last_time_score g)
                head_angle head_tilt g w Hrun H0) as [H|(H1 & H2)].
    + left. exact H.
    + right. split; [reflexivity|]. split; [exact H1 | exact H2].
Qed.

End BonusClaims.

(** * Further properties of the head-pose pipeline *)

Section Signals.

Import HeadTracker.
Local Open Scope Q_scope.
Local Open Scope py_scope.

Variable atan2 : Q -> Q -> Q.

(** X11. Whatever a tracker has been through, with or without a face,
    calibrated or not, the steering and the throttle it returns lie in
    [[-1, 1]]. *)
Theorem signals_in_range (t : Tracker) :
  reachable atan2 t ->
  (-1 <= fst (get_head_angle atan2 t) /\ fst (get_head_angle atan2 t) <= 1)
  /\ (-1 <= fst (get_head_tilt atan2 t) /\ fst (get_head_tilt atan2 t) <= 1).
Proof.
  intro Hr. pose proof (reachable_bounded atan2 t Hr) as Hb.
  split.
  - apply get_head_angle_bounded, Hb.
  - apply get_head_tilt_bounded, Hb.
Qed.

(** X12. A tracker without a camera, which [__init__] leaves when no
    camera opens, cannot be used: [update] raises [AttributeError] at
    [self.cap.read()] and changes nothing, and so does [calibrate] as soon as
    it asks for a frame, leaving the tracker uncalibrated. *)
Theorem without_camera (t : Tracker) :
  cap t = false ->
  (forall calibration_mode w,
     update atan2 calibration_mode t w = (Raised AttributeError, t, w))
  /\ (forall fuel w,
        clock w (S (clock_ix w)) - clock w (clock_ix w) <= calibration_timeout ->
        exists w',
          calibrate atan2 (S fuel) t w
          = Some (Raised AttributeError,
                  set_is_calibrated false (set_calibration_samples [] t), w')).
Proof.
  intro Hcap. split.
  - intros mode w. unfold update. rewrite Hcap. reflexivity.
  - intros fuel w Hearly. unfold calibrate, HeadTracker.time. cbn [fst snd].
    cbn [calibrate_loop calibration_samples set_is_calibrated
         set_calibration_samples List.length].
    change (0 <? calibration_count)%nat with true. cbv iota.
    unfold HeadTracker.time. cbn [fst snd clock clock_ix].
    apply Qltb_ge in Hearly. rewrite Hearly.
    unfold update. cbn [cap set_is_calibrated set_calibration_samples].
    rewrite Hcap. cbn [negb]. eexists. reflexivity.
Qed.

(** X13. A frame without a face gives neutral signals in the same tick,
    also during the second in which [face_detected] is still true: after
    [update] has processed it both getters return 0.0 and the smoothing state
    is the one from before the frame. *)
Theorem faceless_frame_is_neutral (calibration_mode : bool) (t : Tracker) (w : World) :
  cap t = true ->
  camera w (frame_ix w) = Some None ->
  let t1 := snd (fst (update atan2 calibration_mode t w)) in
  get_head_angle atan2 t1 = (0.0, t1)
  /\ get_head_tilt atan2 t1 = (0.0, t1)
  /\ last_angle t1 = last_angle t /\ last_tilt t1 = last_tilt t.
Proof.
  intros Hcap Hframe t1.
  assert (Hres : multi_face_landmarks t1 = None
                 /\ last_angle t1 = last_angle t /\ last_tilt t1 = last_tilt t).
  { subst t1. unfold update. rewrite Hcap. cbn [negb].
    unfold read_frame. rewrite Hframe. unfold HeadTracker.time. cbn [fst snd].
    match goal with |- context [if ?c then _ else _] => destruct c end;
      cbn; repeat split; reflexivity. }
  destruct Hres as (Hn & Ha & Ht).
  unfold get_head_angle, get_head_tilt, _calculate_head_pose. rewrite Hn.
  destruct (negb (face_detected t1)); repeat split; assumption || reflexivity.
Qed.

End Signals.

Section SignalsExamples.

Import HeadTracker.
Local Open Scope Q_scope.

Lemma signals_in_range_witness :
  (-1 <= fst (get_head_angle level_atan2 watching)
   /\ fst (get_head_angle level_atan2 watching) <= 1)
  /\ (-1 <= fst (get_head_tilt level_atan2 watching)
      /\ fst (get_head_tilt level_atan2 watching) <= 1).
Proof. apply signals_in_range. apply reach_update, reach_init. Defined.

Lemma without_camera_witness :
  (forall calibration_mode w,
     update level_atan2 calibration_mode (fst (__init__ false empty_world)) w
     = (Raised AttributeError, fst (__init__ false empty_world), w))
  /\ (forall fuel w,
        clock w (S (clock_ix w)) - clock w (clock_ix w) <= calibration_timeout ->
        exists w',
          calibrate level_atan2 (S fuel) (fst (__init__ false empty_world)) w
          = Some (Raised AttributeError,
                  set_is_calibrated false
                    (set_calibration_samples [] (fst (__init__ false empty_world))),
                  w')).
Proof. apply without_camera. reflexivity. Defined.

Lemma faceless_frame_is_neutral_witness :
  let t1 := snd (fst (update level_atan2 false watching empty_world)) in
  get_head_angle level_atan2 t1 = (0.0, t1)
  /\ get_head_tilt level_atan2 t1 = (0.0, t1)
  /\ last_angle t1 = last_angle watching /\ last_tilt t1 = last_tilt watching.
Proof.
  apply faceless_frame_is_neutral.
  - reflexivity.
  - reflexivity.
Defined.

End SignalsExamples.

Section CalibrationSuccess.

Import HeadTracker.
Local Open Scope Q_scope.
Local Open Scope py_scope.

Variable atan2 : Q -> Q -> Q.

Lemma update_keeps_samples (calibration_mode : bool) (t : Tracker) (w : World) :
  calibration_samples (snd (fst (update atan2 calibration_mode t w)))
  = calibration_samples t.
Proof.
  destruct (cap t) eqn:Hcap.
  - destruct (update_returns atan2 calibration_mode t w Hcap)
      as (d & t2 & w2 & E & _ & Hs & _).
    rewrite E. exact Hs.
  - unfold update. rewrite Hcap. reflexivity.
Qed.

(** When the loop ends well it has 30 samples, the ones it started with
    first, and the neutral values are their means. *)
Lemma calibrate_loop_success (fuel : nat) :
  forall start t w t' w',
    (List.length (calibration_samples t) <= calibration_count)%nat ->
    calibrate_loop atan2 fuel start t w = Some (Returned true, t', w') ->
    List.length (calibration_samples t') = calibration_count
    /\ is_calibrated t' = true
    /\ neutral_angle t' = mean (map fst (calibration_samples t'))
    /\ neutral_tilt t' = mean (map snd (calibration_samples t')).
Proof.
  induction fuel as [|fuel IH]; intros start t w t' w' Hlen E; [discriminate|].
  cbn [calibrate_loop] in E.
  destruct (List.length (calibration_samples t) <? calibration_count)%nat eqn:El.
  - apply Nat.ltb_lt in El.
    destruct (HeadTracker.time w) as [now w1].
    destruct (now - start >? calibration_timeout); [discriminate|].
    pose proof (update_keeps_samples true t w1) as Hs.
    destruct (update atan2 true t w1) as [[[[|]|e] t2] w2]; cbn [fst snd] in Hs;
      [ | |discriminate].
    + destruct (_calculate_head_pose atan2 t2) as [[angle tilt]|].
      * apply (IH _ _ _ _ _) in E; [exact E|].
        cbn [calibration_samples set_calibration_samples].
        rewrite length_app, Hs. cbn [List.length]. lia.
      * apply (IH _ _ _ _ _) in E; [exact E|]. rewrite Hs. exact Hlen.
    + apply (IH _ _ _ _ _) in E; [exact E|]. rewrite Hs. exact Hlen.
  - apply Nat.ltb_ge in El. unfold neutral_position in E.
    destruct (calibration_samples t) as [|s l] eqn:Es.
    + unfold calibration_count in El. cbn in El. lia.
    + injection E as <- <-.
      cbn [calibration_samples set_is_calibrated set_neutral is_calibrated
           neutral_angle neutral_tilt].
      rewrite Es. unfold mean. rewrite !length_map.
      repeat split; try reflexivity. lia.
Qed.

Lemma fold_sum_constant (a : Q) (l : list Q) :
  (forall x, In x l -> x == a) ->
  forall acc, fold_left Qplus l acc == acc + inject_Z (Z.of_nat (List.length l)) * a.
Proof.
  intro Hall. induction l as [|x l IH]; intro acc; cbn [fold_left List.length].
  - change (inject_Z (Z.of_nat 0)) with 0. lra.
  - rewrite IH by (intros y Hy; apply Hall; right; exact Hy).
    rewrite (Hall x (or_introl eq_refl)).
    rewrite Nat2Z.inj_succ. unfold Z.succ. rewrite inject_Z_plus.
    change (inject_Z 1) with 1. lra.
Qed.

(** The mean of equal values is that value. *)
Lemma mean_constant (a : Q) (l : list Q) :
  l <> [] -> (forall x, In x l -> x == a) -> mean l == a.
Proof.
  intros Hne Hall. unfold mean, sum. rewrite (fold_sum_constant a l Hall).
  assert (Hn : ~ inject_Z (Z.of_nat (List.length l)) == 0).
  { destruct l as [|x l]; [congruence|].
    intro H. unfold Qeq in H. cbn [Qnum Qden inject_Z List.length] in H. lia. }
  field. exact Hn.
Qed.

(** X14. When [calibrate] returns [True] it has collected exactly 30
    samples and the tracker is calibrated, the neutral angle and the neutral
    tilt being the arithmetic means of the samples; 30 equal samples give
    that very pose as the neutral one. *)
Theorem calibrate_success (fuel : nat) (t : Tracker) (w : World)
  (t' : Tracker) (w' : World) :
  calibrate atan2 fuel t w = Some (Returned true, t', w') ->
  List.length (calibration_samples t') = 30%nat
  /\ is_calibrated t' = true
  /\ neutral_angle t' = mean (map fst (calibration_samples t'))
  /\ neutral_tilt t' = mean (map snd (calibration_samples t'))
  /\ forall angle tilt,
       (forall s, In s (calibration_samples t') -> s = (angle, tilt)) ->
       neutral_angle t' == angle /\ neutral_tilt t' == tilt.
Proof.
  intro E. unfold calibrate in E.
  destruct (HeadTracker.time w) as [start w1].
  apply calibrate_loop_success in E;
    [|cbn [calibration_samples set_is_calibrated set_calibration_samples List.length];
      unfold calibration_count; lia].
  destruct E as (Hl & Hc & Ha & Ht).
  repeat split; try assumption.
  - rewrite Ha. apply mean_constant.
    + destruct (calibration_samples t'); [discriminate Hl | discriminate].
    + intros x Hx. apply in_map_iff in Hx. destruct Hx as (s & <- & Hs).
      rewrite (H s Hs). reflexivity.
  - rewrite Ht. apply mean_constant.
    + destruct (calibration_samples t'); [discriminate Hl | discriminate].
    + intros x Hx. apply in_map_iff in Hx. destruct Hx as (s & <- & Hs).
      rewrite (H s Hs). reflexivity.
Qed.

End CalibrationSuccess.

Section CalibrationSuccessExamples.

Import HeadTracker.
Local Open Scope Q_scope.

Lemma calibrate_success_witness :
  List.length (calibration_samples steady) = 30%nat
  /\ is_calibrated steady = true
  /\ neutral_angle steady = mean (map fst (calibration_samples steady))
  /\ neutral_tilt steady = mean (map snd (calibration_samples steady))
  /\ forall angle tilt,
       (forall s, In s (calibration_samples steady) -> s = (angle, tilt)) ->
       neutral_angle steady == angle /\ neutral_tilt steady == tilt.
Proof.
  apply (calibrate_success level_atan2 40 (fst (__init__ true brisk_world))
           (snd (__init__ true brisk_world)) steady calibrated_world).
  vm_compute. reflexivity.
Defined.

End CalibrationSuccessExamples.

(** ** A frame of the main loop *)

Section FrameSmoothing.

Import HeadTracker.
Local Open Scope Q_scope.
Local Open Scope py_scope.

Variable atan2 : Q -> Q -> Q.

(** X15. A frame with a face smooths twice.  [update], as the main loop
    calls it, draws the control indicators, which asks both getters and so
    takes one smoothing step; the getters the loop then calls take a second
    one towards the same target, so that the signal the game receives has
    moved by 0.51, not 0.3, of the way to the target.  In calibration mode
    [update] leaves the smoothing state alone. *)
Theorem frame_smooths_twice (t : Tracker) (w : World) (face : FaceLandmarks) :
  cap t = true ->
  camera w (frame_ix w) = Some (Some face) ->
  let a := target (raw_angle atan2 face) (neutral_angle t) (is_calibrated t) in
  let b := target (raw_tilt face) (neutral_tilt t) (is_calibrated t) in
  let t1 := snd (fst (update atan2 false t w)) in
  let t2 := snd (get_head_angle atan2 t1) in
  (fst (fst (update atan2 false t w)) = Returned true
   /\ last_angle t1 == smoothed (last_angle t) a 0.3
   /\ last_tilt t1 == smoothed (last_tilt t) b 0.3)
  /\ (fst (get_head_angle atan2 t1)
        == smoothed (smoothed (last_angle t) a 0.3) a 0.3
      /\ fst (get_head_tilt atan2 t2)
           == smoothed (smoothed (last_tilt t) b 0.3) b 0.3
      /\ fst (get_head_angle atan2 t1) == last_angle t * 0.49 + a * 0.51
      /\ fst (get_head_tilt atan2 t2) == last_tilt t * 0.49 + b * 0.51)
  /\ (last_angle (snd (fst (update atan2 true t w))) = last_angle t
      /\ last_tilt (snd (fst (update atan2 true t w))) = last_tilt t).
Proof.
  intros Hcap Hface a b. unfold update. rewrite Hcap. cbn [negb].
  unfold read_frame. rewrite Hface. unfold HeadTracker.time.
  cbn [fst snd negb].
  unfold _draw_control_indicators, get_head_angle, get_head_tilt, _calculate_head_pose.
  cbn.
  subst a b.
  unfold target, raw_angle, raw_tilt, smoothed, angle_sensitivity,
    tilt_sensitivity, smoothing_factor.
  set (va := (if is_calibrated t then _ - neutral_angle t else _) * 2.0).
  set (vb := (if is_calibrated t then _ - neutral_tilt t else _) * 2.0).
  pose proof (clamp_spec va) as Ha. pose proof (clamp_spec vb) as Hb.
  revert Ha Hb.
  generalize (Py.max (-1.0) (Py.min 1.0 va)), (clamp va (-1) 1),
    (Py.max (-1.0) (Py.min 1.0 vb)), (clamp vb (-1) 1).
  intros ma ca mb cb Ha Hb.
  repeat split; try reflexivity; lra.
Qed.

End FrameSmoothing.

Section FrameSmoothingExamples.

Import HeadTracker.
Local Open Scope Q_scope.

Lemma frame_smooths_twice_witness :
  let t := fst (__init__ true face_world) in
  let w := snd (__init__ true face_world) in
  let a := target (raw_angle level_atan2 level_face) (neutral_angle t)
                  (is_calibrated t) in
  let b := target (raw_tilt level_face) (neutral_tilt t) (is_calibrated t) in
  let t1 := snd (fst (update level_atan2 false t w)) in
  let t2 := snd (get_head_angle level_atan2 t1) in
  (fst (fst (update level_atan2 false t w)) = Returned true
   /\ last_angle t1 == smoothed (last_angle t) a 0.3
   /\ last_tilt t1 == smoothed (last_tilt t) b 0.3)
  /\ (fst (get_head_angle level_atan2 t1)
        == smoothed (smoothed (last_angle t) a 0.3) a 0.3
      /\ fst (get_head_tilt level_atan2 t2)
           == smoothed (smoothed (last_tilt t) b 0.3) b 0.3
      /\ fst (get_head_angle level_atan2 t1) == last_angle t * 0.49 + a * 0.51
      /\ fst (get_head_tilt level_atan2 t2) == last_tilt t * 0.49 + b * 0.51)
  /\ (last_angle (snd (fst (update level_atan2 true t w))) = last_angle t
      /\ last_tilt (snd (fst (update level_atan2 true t w))) = last_tilt t).
Proof.
  apply (frame_smooths_twice level_atan2 (fst (__init__ true face_world))
           (snd (__init__ true face_world)) level_face).
  - reflexivity.
  - reflexivity.
Defined.

End FrameSmoothingExamples.

Section SpeedJump.

Import RacingGame.
Local Open Scope Q_scope.
Local Open Scope py_scope.

(** A tick raises the speed by more than half a unit only from below one
    half, where the floor of 1.0 lifts it; a speed of at least 1 stays so. *)
Lemma update_speed_jump (head_angle head_tilt : Q) (g : Game) (w : World) :
  -1 <= head_tilt ->
  let g' := exec (update head_angle head_tilt) g w in
  (speed g + 0.5 < speed g' -> speed g < 0.5 /\ game_over g = false)
  /\ (1 <= speed g -> 1 <= speed g')
  /\ (game_over g = false -> 1 <= speed g').
Proof.
  intros Htilt g'. subst g'.
  destruct (game_over g) eqn:Hover.
  - unfold exec. rewrite update_over by exact Hover. cbn [fst snd].
    split; [intro; lra | split; [intro H; exact H | discriminate]].
  - rewrite update_speed_final by exact Hover.
    pose proof (update_speed_range head_tilt g w Hover) as Hrange.
    split; [|split; intros _; lra].
    intro Hjump. split; [|reflexivity].
    revert Hrange Hjump. run.
    unfold acceleration, deceleration, friction, min_speed, max_speed.
    qcase (head_tilt <? -0.1); [|qcase (head_tilt >? 0.1)]; fields;
      rewrite Hover; cbn [negb andb];
      match goal with |- context [Py.max 0.0 (Py.min 10.0 ?s)] =>
        destruct (min_cases 10.0 s) as [[M1 ->]|[M1 ->]];
        [destruct (max_cases 0.0 s) as [[M2 ->]|[M2 ->]]
        |destruct (max_cases 0.0 10.0) as [[M2 ->]|[M2 ->]]]
      end;
      match goal with |- context [?c <? 1.0] => qcase (c <? 1.0) end;
      fields; intros Hrange Hjump; try lra.
    all: try (destruct (speed g >? 0); lra).
Qed.

End SpeedJump.

(** * Properties of the program [run.py] *)

Section Sounds.

Import Driver.
Local Open Scope Q_scope.
Local Open Scope py_scope.

Lemma times_played_play (sound played : Sound) (w : World) :
  times_played sound (play played w)
  = (times_played sound w + if same_sound sound played then 1 else 0)%nat.
Proof.
  unfold times_played, play. cbn [speaker].
  rewrite filter_app, length_app. cbn [filter].
  destruct (same_sound sound played); reflexivity.
Qed.

(** What the sound effects of a tick add to each count. *)
Lemma sound_effects_counts (previous_speed previous_collision_time : Q)
  (p : Program) (w : World) :
  let p' := fst (sound_effects previous_speed previous_collision_time p w) in
  let w' := snd (sound_effects previous_speed previous_collision_time p w) in
  let g := racing_game p in
  times_played racing_sound w'
  = (times_played racing_sound w
     + if sounds p && (RacingGame.speed g >? previous_speed + 0.5)
       then 1 else 0)%nat
  /\ times_played collision_sound w'
     = (times_played collision_sound w
        + if sounds p
             && (RacingGame.last_collision_time g >? previous_collision_time)
          then 1 else 0)%nat
  /\ times_played crash_sound w'
     = (times_played crash_sound w
        + if sounds p && RacingGame.game_over g && negb (game_over_sound_played p)
          then 1 else 0)%nat
  /\ p' = (if sounds p && RacingGame.game_over g && negb (game_over_sound_played p)
           then set_game_over_sound_played true p else p)
  /\ racing_game p' = racing_game p /\ head_tracker p' = head_tracker p
  /\ sounds p' = sounds p.
Proof.
  unfold sound_effects.
  destruct (sounds p && (RacingGame.speed (racing_game p) >? previous_speed + 0.5));
    destruct (sounds p && (RacingGame.last_collision_time (racing_game p)
                           >? previous_collision_time));
    destruct (sounds p && RacingGame.game_over (racing_game p)
              && negb (game_over_sound_played p));
    cbn [fst snd]; rewrite ?times_played_play; cbn [same_sound];
    repeat split; lia.
Qed.

End Sounds.

Section LoopRule.

Import Driver.

Variable atan2 : Q -> Q -> Q.
Variable fuel : nat.

(** A relation between the program and its world before and after. *)
Variable R : Program -> World -> Program -> World -> Prop.

Hypothesis R_refl : forall p w, R p w p w.
Hypothesis R_trans : forall p1 w1 p2 w2 p3 w3,
  R p1 w1 p2 w2 -> R p2 w2 p3 w3 -> R p1 w1 p3 w3.
Hypothesis R_event : forall event p w r p' w',
  handle_event atan2 fuel event p w = Some (r, p', w') -> R p w p' w'.
Hypothesis R_frame : forall p w,
  R p w (snd (fst (frame atan2 p w))) (snd (frame atan2 p w)).

Lemma handle_events_rule (events : list Event) :
  forall p w r p' w',
    handle_events atan2 fuel events p w = Some (r, p', w') -> R p w p' w'.
Proof.
  induction events as [|event events IH]; intros p w r p' w' E; cbn [handle_events] in E.
  - injection E as _ <- <-. apply R_refl.
  - destruct (handle_event atan2 fuel event p w) as [[[[u|e] p1] w1]|] eqn:E1;
      [ | |discriminate].
    + eapply R_trans; [exact (R_event _ _ _ _ _ _ E1) | exact (IH _ _ _ _ _ E)].
    + injection E as _ <- <-. exact (R_event _ _ _ _ _ _ E1).
Qed.

Lemma iteration_rule (events : list Event) (p : Program) (w : World)
  (r : HeadTracker.outcome unit) (p' : Program) (w' : World) :
  iteration atan2 fuel events p w = Some (r, p', w') -> R p w p' w'.
Proof.
  unfold iteration. intro E.
  destruct (handle_events atan2 fuel events p w) as [[[[u|e] p1] w1]|] eqn:E1;
    [ | |discriminate].
  - injection E as E. eapply R_trans; [exact (handle_events_rule _ _ _ _ _ _ E1)|].
    pose proof (R_frame p1 w1) as H. rewrite E in H. exact H.
  - injection E as _ <- <-. exact (handle_events_rule _ _ _ _ _ _ E1).
Qed.

(** What every event and every frame keep, the whole loop keeps. *)
Lemma main_loop_rule (arrivals : list (list Event)) :
  forall p w r p' w',
    main_loop atan2 fuel arrivals p w = Some (r, p', w') -> R p w p' w'.
Proof.
  induction arrivals as [|events arrivals IH]; intros p w r p' w' E; cbn [main_loop] in E.
  - injection E as _ <- <-. apply R_refl.
  - destruct (running p); [|injection E as _ <- <-; apply R_refl].
    destruct (iteration atan2 fuel events p w) as [[[[u|e] p1] w1]|] eqn:E1;
      [ | |discriminate].
    + eapply R_trans; [exact (iteration_rule _ _ _ _ _ _ E1) | exact (IH _ _ _ _ _ E)].
    + injection E as _ <- <-. exact (iteration_rule _ _ _ _ _ _ E1).
Qed.

End LoopRule.

Section LoopFacts.

Import Driver.
Local Open Scope Q_scope.
Local Open Scope py_scope.

Variable atan2 : Q -> Q -> Q.
Variable fuel : nat.

Lemma update_keeps_cap (calibration_mode : bool) (t : HeadTracker.Tracker)
  (w : HeadTracker.World) :
  HeadTracker.cap (snd (fst (HeadTracker.update atan2 calibration_mode t w)))
  = HeadTracker.cap t.
Proof.
  destruct (HeadTracker.cap t) eqn:Hcap.
  - destruct (update_returns atan2 calibration_mode t w Hcap)
      as (d & t2 & w2 & E & Hc & _).
    rewrite E. exact Hc.
  - unfold HeadTracker.update. rewrite Hcap. cbn. exact Hcap.
Qed.

Lemma calibrate_loop_keeps_cap (n : nat) :
  forall start t w r t' w',
    HeadTracker.calibrate_loop atan2 n start t w = Some (r, t', w') ->
    HeadTracker.cap t' = HeadTracker.cap t.
Proof.
  induction n as [|n IH]; intros start t w r t' w' E; [discriminate|].
  cbn [HeadTracker.calibrate_loop] in E.
  destruct (List.length (HeadTracker.calibration_samples t)
            <? HeadTracker.calibration_count)%nat.
  - destruct (HeadTracker.time w) as [now w1].
    destruct (now - start >? HeadTracker.calibration_timeout).
    + injection E as _ <- _. reflexivity.
    + pose proof (update_keeps_cap true t w1) as Hc.
      destruct (HeadTracker.update atan2 true t w1) as [[[[|]|e] t2] w2];
        cbn [fst snd] in Hc.
      * destruct (HeadTracker._calculate_head_pose atan2 t2) as [[angle tilt]|];
          apply IH in E; rewrite E; exact Hc.
      * apply IH in E. rewrite E. exact Hc.
      * injection E as _ <- _. exact Hc.
  - unfold HeadTracker.neutral_position in E.
    destruct (HeadTracker.calibration_samples t); injection E as _ <- _; reflexivity.
Qed.

Lemma calibrate_keeps_cap (t : HeadTracker.Tracker) (w : HeadTracker.World)
  (r : HeadTracker.outcome bool) (t' : HeadTracker.Tracker) (w' : HeadTracker.World) :
  HeadTracker.calibrate atan2 fuel t w = Some (r, t', w') ->
  HeadTracker.cap t' = HeadTracker.cap t.
Proof.
  unfold HeadTracker.calibrate. destruct (HeadTracker.time w) as [start w1].
  intro E. apply calibrate_loop_keeps_cap in E. exact E.
Qed.

(** An event leaves the game, the flag and the loudspeaker alone, and the
    tracker one a program can hold, with the camera it had. *)
Lemma handle_event_keeps (event : Event) (p : Program) (w : World)
  (r : HeadTracker.outcome unit) (p' : Program) (w' : World) :
  handle_event atan2 fuel event p w = Some (r, p', w') ->
  racing_game p' = racing_game p
  /\ game_over_sound_played p' = game_over_sound_played p
  /\ sounds p' = sounds p
  /\ speaker w' = speaker w
  /\ (reachable atan2 (head_tracker p) -> reachable atan2 (head_tracker p'))
  /\ HeadTracker.cap (head_tracker p') = HeadTracker.cap (head_tracker p).
Proof.
  unfold handle_event. destruct event as [|key|].
  - intro E. injection E as _ <- <-. cbn. repeat split; auto.
  - unfold time. cbn [fst snd].
    destruct (clock w (clock_ix w) - last_key_time p >? key_cooldown).
    + destruct key;
        try (intro E; injection E as _ <- <-; unfold toggle_pause;
             cbn [current_state set_last_key_time];
             try destruct (current_state p); cbn; repeat split; auto; fail).
      match goal with |- context [HeadTracker.calibrate atan2 fuel ?t0 ?w0] =>
        destruct (HeadTracker.calibrate atan2 fuel t0 w0) as [[[[b|e] t] tw]|] eqn:Ec
      end;
        [ | |discriminate]; cbn [head_tracker set_last_key_time] in Ec;
        intro E; injection E as _ <- <-; cbn; repeat split; auto;
        try (intro Hr; exact (reach_calibrate atan2 _ _ _ _ _ _ Hr Ec));
        exact (calibrate_keeps_cap _ _ _ _ _ Ec).
    + intro E. injection E as _ <- <-. cbn. repeat split; auto.
  - intro E. injection E as _ <- <-. cbn. repeat split; auto.
Qed.

(** The two ways of a frame. *)
Lemma frame_cases (p : Program) (w : World) :
  let u := HeadTracker.update atan2 false (head_tracker p) (tracker_world w) in
  (exists e, fst (fst u) = HeadTracker.Raised e
             /\ frame atan2 p w
                = (HeadTracker.Raised e, set_head_tracker (snd (fst u)) p,
                   after_tracker (snd u) w))
  \/ (exists detected, fst (fst u) = HeadTracker.Returned detected
      /\ let t1 := snd (HeadTracker.get_head_angle atan2 (snd (fst u))) in
         let head_angle := fst (HeadTracker.get_head_angle atan2 (snd (fst u))) in
         let head_tilt := fst (HeadTracker.get_head_tilt atan2 t1) in
         let t2 := snd (HeadTracker.get_head_tilt atan2 t1) in
         let pw := game_tick head_angle head_tilt (set_head_tracker t2 p)
                             (after_tracker (snd u) w) in
         frame atan2 p w
         = (HeadTracker.Returned tt, fst pw, render (fst pw) (snd pw))).
Proof.
  intro u. subst u. unfold frame.
  destruct (HeadTracker.update atan2 false (head_tracker p) (tracker_world w))
    as [[[detected|e] t] tw]; cbn [fst snd].
  - right. exists detected. split; [reflexivity|].
    destruct (HeadTracker.get_head_angle atan2 t) as [a t1]. cbn [fst snd].
    destruct (HeadTracker.get_head_tilt atan2 t1) as [h t2]. cbn [fst snd].
    destruct (game_tick a h (set_head_tracker t2 p) (after_tracker tw w)).
    reflexivity.
  - left. exists e. split; reflexivity.
Qed.

(** The two ways of the game in a frame. *)
Lemma game_tick_cases (head_angle head_tilt : Q) (p : Program) (w : World) :
  (current_state p <> STATE_GAME /\ game_tick head_angle head_tilt p w = (p, w))
  \/ (current_state p = STATE_GAME
      /\ let g := racing_game p in
         let tick := RacingGame.update head_angle head_tilt in
         game_tick head_angle head_tilt p w
         = sound_effects (RacingGame.speed g) (RacingGame.last_collision_time g)
             (set_racing_game (RacingGame.exec tick g (game_world w)) p)
             (after_game (RacingGame.world_after tick g (game_world w)) w)).
Proof.
  unfold game_tick. destruct (current_state p).
  - left. split; [discriminate | reflexivity].
  - right. split; [reflexivity|]. cbv zeta.
    unfold RacingGame.exec, RacingGame.world_after.
    destruct (RacingGame.update head_angle head_tilt (racing_game p) (game_world w))
      as [[u g] gw].
    reflexivity.
  - left. split; [discriminate | reflexivity].
Qed.

Lemma render_keeps (p : Program) (w : World) : speaker (render p w) = speaker w.
Proof.
  unfold render, time. destruct (RacingGame.game_over (racing_game p)); reflexivity.
Qed.

Lemma times_played_render (sound : Sound) (p : Program) (w : World) :
  times_played sound (render p w) = times_played sound w.
Proof. unfold times_played. rewrite render_keeps. reflexivity. Qed.

Lemma game_tick_keeps_tracker (head_angle head_tilt : Q) (p : Program) (w : World) :
  head_tracker (fst (game_tick head_angle head_tilt p w)) = head_tracker p.
Proof.
  destruct (game_tick_cases head_angle head_tilt p w) as [[_ E]|[_ E]];
    rewrite E; [reflexivity|].
  cbv zeta.
  match goal with |- context [sound_effects ?a ?b ?q ?v] =>
    destruct (sound_effects_counts a b q v) as (_ & _ & _ & _ & _ & E' & _)
  end.
  rewrite E'. reflexivity.
Qed.

(** The racing sound in a game tick with a throttle the tracker gives. *)
Lemma game_tick_racing (head_angle head_tilt : Q) (p : Program) (w : World) :
  -1 <= head_tilt ->
  let p' := fst (game_tick head_angle head_tilt p w) in
  let w' := snd (game_tick head_angle head_tilt p w) in
  (times_played racing_sound w <= times_played racing_sound w'
   <= times_played racing_sound w + 1)%nat
  /\ (warm p -> times_played racing_sound w' = times_played racing_sound w
                /\ warm p')
  /\ ((times_played racing_sound w < times_played racing_sound w')%nat -> warm p').
Proof.
  intros Htilt p' w'. subst p' w'.
  destruct (game_tick_cases head_angle head_tilt p w) as [[_ E]|[_ E]]; rewrite E.
  - cbn [fst snd]. split; [lia|]. split; [intro H; split; [reflexivity | exact H] | lia].
  - cbv zeta. clear E.
    destruct (update_speed_jump head_angle head_tilt (racing_game p) (game_world w) Htilt)
      as (Hjump & Hwarm & Hrun).
    revert Hjump Hwarm Hrun.
    generalize (RacingGame.exec (RacingGame.update head_angle head_tilt)
                  (racing_game p) (game_world w)).
    generalize (RacingGame.world_after (RacingGame.update head_angle head_tilt)
                  (racing_game p) (game_world w)).
    intros gw' g' Hjump Hwarm Hrun.
    match goal with |- context [sound_effects ?a ?b ?q ?v] =>
      destruct (sound_effects_counts a b q v) as (Hc & _ & _ & _ & Hg & _);
      revert Hc Hg;
      generalize (fst (sound_effects a b q v)), (snd (sound_effects a b q v))
    end.
    intros p1 w1 Hc Hg. cbn [racing_game set_racing_game sounds] in Hc, Hg.
    unfold warm. rewrite Hg, Hc.
    assert (Hw : times_played racing_sound (after_game gw' w)
                 = times_played racing_sound w) by reflexivity.
    rewrite Hw.
    destruct (sounds p); cbn [andb].
    + qcase (RacingGame.speed g' >? RacingGame.speed (racing_game p) + 0.5).
      * destruct (Hjump E) as [Hlow Hover].
        split; [lia|]. split; [intro; lra | intros _; exact (Hrun Hover)].
      * split; [lia|]. split; [|lia]. intro H. split; [lia | exact (Hwarm H)].
    + split; [lia|]. split; [|lia]. intro H. split; [lia | exact (Hwarm H)].
Qed.

(** A frame and the racing sound. *)
Lemma frame_racing (p : Program) (w : World) :
  racing_once atan2 p w (snd (fst (frame atan2 p w))) (snd (frame atan2 p w)).
Proof.
  intro Hr.
  pose proof (reach_update atan2 false _ (tracker_world w) Hr) as Hr0.
  destruct (frame_cases p w) as [(e & _ & E)|(detected & _ & E)]; rewrite E;
    cbn [fst snd]; clear E.
  - split; [exact Hr0|]. unfold times_played. cbn [speaker after_tracker].
    split; [lia|]. split; [|lia]. intro H. split; [reflexivity | exact H].
  - cbv zeta. rewrite !times_played_render.
    rewrite game_tick_keeps_tracker. cbn [head_tracker set_head_tracker].
    pose proof (reach_angle atan2 _ Hr0) as Hr1.
    pose proof (reach_tilt atan2 _ Hr1) as Hr2.
    split; [exact Hr2|].
    destruct (get_head_tilt_bounded atan2 _ (reachable_bounded atan2 _ Hr1))
      as [_ [Hlo _]].
    match goal with |- context [game_tick ?a ?h ?q ?v] =>
      destruct (game_tick_racing a h q v Hlo) as (H1 & H2 & H3)
    end.
    unfold warm in *. cbn [racing_game set_racing_game set_head_tracker] in *.
    assert (Hw : forall tw, times_played racing_sound (after_tracker tw w)
                            = times_played racing_sound w) by reflexivity.
    rewrite Hw in *.
    split; [exact H1|]. split; [exact H2 | exact H3].
Qed.

(** An event and the racing sound. *)
Lemma handle_event_racing (event : Event) (p : Program) (w : World)
  (r : HeadTracker.outcome unit) (p' : Program) (w' : World) :
  handle_event atan2 fuel event p w = Some (r, p', w') ->
  racing_once atan2 p w p' w'.
Proof.
  intros E Hr.
  destruct (handle_event_keeps _ _ _ _ _ _ E) as (Hg & _ & _ & Hs & Ht & _).
  unfold warm, times_played. rewrite Hg, Hs.
  split; [exact (Ht Hr)|]. split; [lia|]. split; [|lia].
  intro H. split; [reflexivity | exact H].
Qed.

Lemma racing_once_refl (p : Program) (w : World) : racing_once atan2 p w p w.
Proof.
  intro Hr. split; [exact Hr|]. split; [lia|]. split; [|lia].
  intro H. split; [reflexivity | exact H].
Qed.

Lemma racing_once_trans (p1 : Program) (w1 : World) (p2 : Program) (w2 : World)
  (p3 : Program) (w3 : World) :
  racing_once atan2 p1 w1 p2 w2 -> racing_once atan2 p2 w2 p3 w3 ->
  racing_once atan2 p1 w1 p3 w3.
Proof.
  intros H12 H23 Hr. destruct (H12 Hr) as (Hr2 & A1 & A2 & A3).
  destruct (H23 Hr2) as (Hr3 & B1 & B2 & B3).
  split; [exact Hr3|].
  assert (Hcase : (times_played racing_sound w1 < times_played racing_sound w2)%nat
                  \/ times_played racing_sound w2 = times_played racing_sound w1)
    by lia.
  split; [|split].
  - destruct Hcase as [Hlt|Heq].
    + destruct (B2 (A3 Hlt)) as [B _]. lia.
    + lia.
  - intro Hw. destruct (A2 Hw) as [A Hw2]. destruct (B2 Hw2) as [B Hw3].
    split; [congruence | exact Hw3].
  - intro Hlt. destruct Hcase as [Hlt'|Heq].
    + exact (proj2 (B2 (A3 Hlt'))).
    + apply B3. lia.
Qed.

(** The crash sound in a game tick. *)
Lemma game_tick_crash (head_angle head_tilt : Q) (p : Program) (w : World) :
  let p' := fst (game_tick head_angle head_tilt p w) in
  let w' := snd (game_tick head_angle head_tilt p w) in
  crash_once p w p' w'
  /\ (sounds p = true -> current_state p = STATE_GAME ->
      RacingGame.game_over (racing_game p') = true ->
      game_over_sound_played p' = true).
Proof.
  intros p' w'. subst p' w'.
  destruct (game_tick_cases head_angle head_tilt p w) as [[Hs E]|[Hs E]]; rewrite E.
  - cbn [fst snd]. split; [|intros _ H; contradiction].
    unfold crash_once.
    destruct (game_over_sound_played p); cbn [negb andb]; repeat split; auto.
  - cbv zeta. clear E.
    assert (Hover : RacingGame.game_over (racing_game p) = true ->
                    RacingGame.game_over
                      (RacingGame.exec (RacingGame.update head_angle head_tilt)
                         (racing_game p) (game_world w)) = true).
    { intro H. unfold RacingGame.exec. rewrite update_over by exact H. exact H. }
    revert Hover.
    generalize (RacingGame.exec (RacingGame.update head_angle head_tilt)
                  (racing_game p) (game_world w)).
    generalize (RacingGame.world_after (RacingGame.update head_angle head_tilt)
                  (racing_game p) (game_world w)).
    intros gw' g' Hover.
    match goal with |- context [sound_effects ?a ?b ?q ?v] =>
      destruct (sound_effects_counts a b q v) as (_ & _ & Hc & Ep & Hg & _);
      revert Hc Ep Hg;
      generalize (fst (sound_effects a b q v)), (snd (sound_effects a b q v))
    end.
    intros p1 w1 Hc Ep Hg.
    cbn [racing_game set_racing_game sounds game_over_sound_played] in Hc, Ep, Hg.
    assert (Hw : times_played crash_sound (after_game gw' w)
                 = times_played crash_sound w) by reflexivity.
    rewrite Hw in Hc. clear Hw.
    unfold crash_once. rewrite Hg, Hc.
    destruct (sounds p) eqn:S1, (RacingGame.game_over g') eqn:S2,
      (game_over_sound_played p) eqn:S3;
      cbn [andb negb] in *; subst p1;
      cbn [game_over_sound_played set_game_over_sound_played set_racing_game
           racing_game];
      rewrite ?S3; cbn [andb negb];
      repeat split; auto; try discriminate; intros; auto; try lia.
Qed.

(** A frame and the crash sound. *)
Lemma frame_crash (p : Program) (w : World) :
  crash_once p w (snd (fst (frame atan2 p w))) (snd (frame atan2 p w)).
Proof.
  destruct (frame_cases p w) as [(e & _ & E)|(detected & _ & E)]; rewrite E;
    cbn [fst snd]; clear E.
  - unfold crash_once, times_played. cbn.
    destruct (game_over_sound_played p); cbn; repeat split; auto.
  - cbv zeta.
    match goal with |- context [game_tick ?a ?h ?q ?v] =>
      destruct (game_tick_crash a h q v) as [H _]
    end.
    unfold crash_once in *. rewrite times_played_render. exact H.
Qed.

Lemma handle_event_crash (event : Event) (p : Program) (w : World)
  (r : HeadTracker.outcome unit) (p' : Program) (w' : World) :
  handle_event atan2 fuel event p w = Some (r, p', w') -> crash_once p w p' w'.
Proof.
  intro E.
  destruct (handle_event_keeps _ _ _ _ _ _ E) as (Hg & Hf & _ & Hs & _ & _).
  unfold crash_once, times_played. rewrite Hg, Hf, Hs.
  destruct (game_over_sound_played p); cbn; repeat split; auto.
Qed.

Lemma crash_once_refl (p : Program) (w : World) : crash_once p w p w.
Proof.
  unfold crash_once.
  destruct (game_over_sound_played p); cbn; repeat split; auto.
Qed.

Lemma crash_once_trans (p1 : Program) (w1 : World) (p2 : Program) (w2 : World)
  (p3 : Program) (w3 : World) :
  crash_once p1 w1 p2 w2 -> crash_once p2 w2 p3 w3 -> crash_once p1 w1 p3 w3.
Proof.
  unfold crash_once. intros (A1 & A2 & A3 & A4) (B1 & B2 & B3 & B4).
  rewrite B1, A1.
  destruct (game_over_sound_played p1), (game_over_sound_played p2),
    (game_over_sound_played p3); cbn [negb andb] in *;
    repeat split; auto; try lia;
    try (specialize (A2 eq_refl); discriminate);
    try (specialize (B2 eq_refl); discriminate).
  intros _. destruct (A4 eq_refl) as [H|H]; [discriminate|]. right. exact (B3 H).
Qed.

(** X16. Over any run of the main loop the racing sound is played at most
    once, however hard the player accelerates: the throttle the tracker
    gives raises the speed by at most 0.15 in a tick, and the test of line
    167, [speed > previous_speed + 0.5], is met only by the floor of 1.0,
    on the first tick of a game that starts at speed 0; once the speed is at
    least 1 the sound is never played again. *)
Theorem racing_sound_once (arrivals : list (list Event)) (p : Program) (w : World) :
  reachable atan2 (head_tracker p) ->
  match main_loop atan2 fuel arrivals p w with
  | Some (_, p', w') =>
      (times_played racing_sound w <= times_played racing_sound w'
       <= times_played racing_sound w + 1)%nat
      /\ (1 <= RacingGame.speed (racing_game p) ->
          times_played racing_sound w' = times_played racing_sound w)
  | None => True
  end.
Proof.
  intro Hr.
  destruct (main_loop atan2 fuel arrivals p w) as [[[r p'] w']|] eqn:E; [|exact I].
  pose proof (main_loop_rule atan2 fuel (racing_once atan2)
                racing_once_refl racing_once_trans
                handle_event_racing frame_racing arrivals p w r p' w' E Hr)
    as (_ & H1 & H2 & _).
  split; [exact H1|]. intro Hw. exact (proj1 (H2 Hw)).
Qed.

(** X18. Over any run of the main loop the crash sound is played exactly
    when the flag [game_over_sound_played] goes up, which happens at most
    once, the flag never being cleared, and only for a game that is over;
    and with the sounds loaded a game tick that ends with the game over ends
    with the flag up. *)
Theorem crash_sound_once (arrivals : list (list Event)) (p : Program) (w : World) :
  match main_loop atan2 fuel arrivals p w with
  | Some (_, p', w') =>
      times_played crash_sound w'
      = (times_played crash_sound w
         + if negb (game_over_sound_played p) && game_over_sound_played p'
           then 1 else 0)%nat
      /\ (game_over_sound_played p = true -> game_over_sound_played p' = true)
      /\ (game_over_sound_played p' = true ->
          game_over_sound_played p = true
          \/ RacingGame.game_over (racing_game p') = true)
  | None => True
  end
  /\ forall head_angle head_tilt,
       sounds p = true -> current_state p = STATE_GAME ->
       let p' := fst (game_tick head_angle head_tilt p w) in
       RacingGame.game_over (racing_game p') = true ->
       game_over_sound_played p' = true.
Proof.
  split.
  - destruct (main_loop atan2 fuel arrivals p w) as [[[r p'] w']|] eqn:E; [|exact I].
    pose proof (main_loop_rule atan2 fuel crash_once
                  crash_once_refl crash_once_trans
                  handle_event_crash frame_crash arrivals p w r p' w' E)
      as (H1 & H2 & _ & H4).
    split; [exact H1|]. split; [exact H2 | exact H4].
  - intros head_angle head_tilt Hs Hg.
    exact (proj2 (game_tick_crash head_angle head_tilt p w) Hs Hg).
Qed.

(** X17. In a game tick of the main loop, with the sounds loaded and a
    clock that does not go back, the collision sound is played exactly when
    a penalty is taken: either it is not played, the time of the last
    penalty stays and the score does not go down, or it is played once and
    the time of the last penalty has moved on by more than the cooldown. *)
Theorem collision_sound_marks_penalty (head_angle head_tilt : Q)
  (p : Program) (w : World) :
  monotone (clock w) ->
  sounds p = true ->
  current_state p = STATE_GAME ->
  RacingGame.game_over (racing_game p) = false ->
  let g := racing_game p in
  let g' := racing_game (fst (game_tick head_angle head_tilt p w)) in
  let w' := snd (game_tick head_angle head_tilt p w) in
  (times_played collision_sound w' = times_played collision_sound w
   /\ RacingGame.last_collision_time g' = RacingGame.last_collision_time g
   /\ (RacingGame.score g <= RacingGame.score g')%Z)
  \/ (times_played collision_sound w' = S (times_played collision_sound w)
      /\ RacingGame.last_collision_time g + RacingGame.collision_cooldown
         < RacingGame.last_collision_time g').
Proof.
  intros Hmono Hs Hstate Hrun g g' w'. subst g g' w'.
  destruct (game_tick_cases head_angle head_tilt p w) as [[Hn _]|[_ E]];
    [contradiction|].
  rewrite E. cbv zeta. clear E.
  assert (H0 : since (clock w) (clock_ix w)
                 (RacingGame.last_collision_time (racing_game p))
                 (RacingGame.score (racing_game p)) (racing_game p) (game_world w)).
  { split; [reflexivity|]. split; [apply Nat.le_refl|].
    left. split; [reflexivity | apply Z.le_refl]. }
  pose proof (update_since _ _ _ _ Hmono head_angle head_tilt
                (racing_game p) (game_world w) Hrun H0) as (_ & _ & H).
  revert H.
  generalize (RacingGame.exec (RacingGame.update head_angle head_tilt)
                (racing_game p) (game_world w)).
  generalize (RacingGame.world_after (RacingGame.update head_angle head_tilt)
                (racing_game p) (game_world w)).
  intros gw' g' H.
  match goal with |- context [sound_effects ?a ?b ?q ?v] =>
    destruct (sound_effects_counts a b q v) as (_ & Hc & _ & _ & Hg & _);
    revert Hc Hg;
    generalize (fst (sound_effects a b q v)), (snd (sound_effects a b q v))
  end.
  intros p1 w1 Hc Hg. cbn [racing_game set_racing_game sounds] in Hc, Hg.
  assert (Hw : times_played collision_sound (after_game gw' w)
               = times_played collision_sound w) by reflexivity.
  rewrite Hw in Hc. clear Hw. rewrite Hg, Hc, Hs. cbn [andb].
  unfold RacingGame.collision_cooldown in *.
  destruct H as [[H1 H2]|[H1 _]].
  - left. rewrite H1.
    assert (Hc0 : (RacingGame.last_collision_time (racing_game p)
                   >? RacingGame.last_collision_time (racing_game p)) = false)
      by (apply Qltb_ge; lra).
    rewrite Hc0. repeat split; [lia | exact H2].
  - right.
    assert (Hc1 : (RacingGame.last_collision_time g'
                   >? RacingGame.last_collision_time (racing_game p)) = true)
      by (apply Qltb_lt; lra).
    rewrite Hc1. split; [lia | exact H1].
Qed.

(** [calibrate] raises only without a camera, and without one it ends at
    once. *)
Lemma calibrate_loop_raises (n : nat) :
  forall start t w e t' w',
    HeadTracker.calibrate_loop atan2 n start t w
    = Some (HeadTracker.Raised e, t', w') ->
    HeadTracker.cap t = false.
Proof.
  induction n as [|n IH]; intros start t w e t' w' E; [discriminate|].
  cbn [HeadTracker.calibrate_loop] in E.
  destruct (HeadTracker.cap t) eqn:Hcap; [exfalso | reflexivity].
  destruct (List.length (HeadTracker.calibration_samples t)
            <? HeadTracker.calibration_count)%nat.
  - destruct (HeadTracker.time w) as [now w1].
    destruct (now - start >? HeadTracker.calibration_timeout); [discriminate|].
    destruct (update_returns atan2 true t w1 Hcap) as (d & t2 & w2 & Eu & Hc & _).
    rewrite Eu in E.
    destruct d.
    + destruct (HeadTracker._calculate_head_pose atan2 t2) as [[angle tilt]|];
        apply IH in E; cbn in E; congruence.
    + apply IH in E. congruence.
  - unfold HeadTracker.neutral_position in E.
    destruct (HeadTracker.calibration_samples t); discriminate.
Qed.

Lemma calibrate_without_camera (n : nat) (t : HeadTracker.Tracker)
  (w : HeadTracker.World) :
  HeadTracker.cap t = false ->
  exists r t' w',
    HeadTracker.calibrate atan2 (S n) t w = Some (r, t', w')
    /\ HeadTracker.cap t' = false.
Proof.
  intro Hcap. unfold HeadTracker.calibrate, HeadTracker.time. cbn [fst snd].
  cbn [HeadTracker.calibrate_loop HeadTracker.calibration_samples
       HeadTracker.set_is_calibrated HeadTracker.set_calibration_samples
       List.length].
  change (0 <? HeadTracker.calibration_count)%nat with true. cbv iota.
  unfold HeadTracker.time. cbn [fst snd].
  match goal with |- context [if ?c then _ else _] => destruct c end.
  - eexists _, _, _. split; [reflexivity|]. cbn. exact Hcap.
  - unfold HeadTracker.update.
    cbn [HeadTracker.cap HeadTracker.set_is_calibrated
         HeadTracker.set_calibration_samples].
    rewrite Hcap. cbn [negb].
    eexists _, _, _. split; [reflexivity|]. cbn. exact Hcap.
Qed.

End LoopFacts.

Section Start.

Import Driver.
Local Open Scope Q_scope.
Local Open Scope py_scope.

Variable atan2 : Q -> Q -> Q.
Variable fuel : nat.

Lemma handle_events_without_camera (events : list Event) :
  forall p w,
    HeadTracker.cap (head_tracker p) = false ->
    exists r p' w',
      handle_events atan2 (S fuel) events p w = Some (r, p', w')
      /\ HeadTracker.cap (head_tracker p') = false.
Proof.
  induction events as [|event events IH]; intros p w Hcap; cbn [handle_events].
  - eexists _, _, _. split; [reflexivity | exact Hcap].
  - assert (He : exists r p1 w1,
               handle_event atan2 (S fuel) event p w = Some (r, p1, w1)).
    { unfold handle_event. destruct event as [|key|]; try (eexists _, _, _; reflexivity).
      destruct (time w) as [current_time w0].
      destruct (current_time - last_key_time p >? key_cooldown);
        [|eexists _, _, _; reflexivity].
      destruct key; try (eexists _, _, _; reflexivity).
      destruct (calibrate_without_camera atan2 fuel
                  (head_tracker (set_last_key_time current_time p))
                  (tracker_world w0) Hcap) as (r & t' & tw & E & _).
      rewrite E. destruct r; eexists _, _, _; reflexivity. }
    destruct He as (r & p1 & w1 & E). rewrite E.
    destruct (handle_event_keeps atan2 (S fuel) _ _ _ _ _ _ E)
      as (_ & _ & _ & _ & _ & Hc).
    destruct r as [u|e].
    + apply IH. congruence.
    + eexists _, _, _. split; [reflexivity | congruence].
Qed.

(** X19. The program as it starts.  When [start] hands a program to the
    main loop the tracker is one a program can hold, the game is the new game of a 1024 by 768 window, no crash sound has been
    played and the state is [STATE_GAME].  It ends with an exception only
    when no camera could be opened; and without a camera it never leaves a
    calibration running, and should the calibration time out before it asks
    for a frame, every iteration of the main loop ends with
    [AttributeError]: the program never completes a frame without a
    camera. *)
Theorem start_spec (opened loaded : bool) (w : World) :
  match start atan2 (S fuel) opened loaded w with
  | Some (HeadTracker.Returned p, w') =>
      reachable atan2 (head_tracker p)
      /\ HeadTracker.cap (head_tracker p) = opened
      /\ fresh WINDOW_WIDTH WINDOW_HEIGHT (racing_game p)
      /\ game_over_sound_played p = false
      /\ sounds p = loaded
      /\ current_state p = STATE_GAME
      /\ running p = true
      /\ (opened = false ->
          forall events, exists p' w'',
            iteration atan2 (S fuel) events p w'
            = Some (HeadTracker.Raised HeadTracker.AttributeError, p', w''))
  | Some (HeadTracker.Raised e, _) => opened = false
  | None => opened = true
  end.
Proof.
  unfold start.
  pose proof (reach_init atan2 opened (tracker_world w)) as Hr.
  assert (Hcap : HeadTracker.cap (fst (HeadTracker.__init__ opened (tracker_world w)))
                 = opened) by reflexivity.
  destruct (HeadTracker.__init__ opened (tracker_world w)) as [t tw].
  cbn [fst] in Hr, Hcap.
  match goal with |- context [RacingGame.__init__ ?a ?b ?c] =>
    pose proof (init_layout a b c) as Hg;
    destruct (RacingGame.__init__ a b c) as [g gw]
  end.
  cbv zeta in Hg. cbn [fst] in Hg. destruct Hg as (Hfresh & _).
  match goal with |- context [HeadTracker.calibrate atan2 (S fuel) t ?v] =>
    pose proof (fun r t' w' => reach_calibrate atan2 (S fuel) t v r t' w' Hr) as Hrc;
    pose proof (calibrate_keeps_cap atan2 (S fuel) t v) as Hkc;
    pose proof (calibrate_without_camera atan2 fuel t v) as Hwc;
    destruct (HeadTracker.calibrate atan2 (S fuel) t v) as [[[[ok|e] t'] tw']|] eqn:E
  end.
  - specialize (Hrc _ _ _ eq_refl). specialize (Hkc _ _ _ eq_refl).
    cbn [head_tracker racing_game game_over_sound_played sounds current_state running].
    repeat split; try assumption; try congruence; try apply Hfresh.
    intros Hopen events.
    assert (Hc' : HeadTracker.cap t' = false) by congruence.
    match goal with |- context [iteration _ _ _ ?q ?v] =>
      destruct (handle_events_without_camera events q v Hc') as (r & p1 & w1 & Ee & Hc1)
    end.
    unfold iteration. rewrite Ee. destruct r as [u|[]].
    + unfold frame, HeadTracker.update. rewrite Hc1. cbn [negb].
      eexists _, _. reflexivity.
    + eexists _, _. reflexivity.
  - unfold HeadTracker.calibrate in E. destruct (HeadTracker.time _) as [s0 w0].
    apply calibrate_loop_raises in E. cbn in E. congruence.
  - destruct opened; [reflexivity|].
    destruct (Hwc Hcap) as (r & t' & w' & E' & _). discriminate.
Qed.

End Start.

Section ProgramExamples.

Import Driver.
Local Open Scope Q_scope.
Local Open Scope py_scope.

Lemma steady_reachable : reachable level_atan2 steady.
Proof.
  unfold steady, calibration_run.
  destruct (HeadTracker.calibrate level_atan2 40
              (fst (HeadTracker.__init__ true brisk_world))
              (snd (HeadTracker.__init__ true brisk_world))) as [[[r t] w]|] eqn:E.
  - exact (reach_calibrate level_atan2 40 _ _ r t w
             (reach_init _ true brisk_world) E).
  - apply reach_init.
Qed.

Lemma brisk_clock_monotone : monotone brisk_clock.
Proof.
  intros i j Hij. unfold brisk_clock.
  apply Qplus_le_r. unfold Qdiv. apply Qmult_le_compat_r; [|discriminate].
  rewrite <- Zle_Qle. lia.
Qed.

Lemma racing_sound_once_witness :
  match main_loop level_atan2 40 [[]; [KEYDOWN K_SPACE]; []] ready stage with
  | Some (_, p', w') =>
      (times_played racing_sound stage <= times_played racing_sound w'
       <= times_played racing_sound stage + 1)%nat
      /\ (1 <= RacingGame.speed (racing_game ready) ->
          times_played racing_sound w' = times_played racing_sound stage)
  | None => True
  end.
Proof.
  apply (racing_sound_once level_atan2 40 [[]; [KEYDOWN K_SPACE]; []] ready stage).
  exact steady_reachable.
Defined.

Lemma collision_sound_marks_penalty_witness :
  let g := racing_game ready in
  let g' := racing_game (fst (game_tick 0 0 ready stage)) in
  let w' := snd (game_tick 0 0 ready stage) in
  (times_played collision_sound w' = times_played collision_sound stage
   /\ RacingGame.last_collision_time g' = RacingGame.last_collision_time g
   /\ (RacingGame.score g <= RacingGame.score g')%Z)
  \/ (times_played collision_sound w' = S (times_played collision_sound stage)
      /\ RacingGame.last_collision_time g + RacingGame.collision_cooldown
         < RacingGame.last_collision_time g').
Proof.
  apply (collision_sound_marks_penalty 0 0 ready stage).
  - exact brisk_clock_monotone.
  - reflexivity.
  - reflexivity.
  - vm_compute. reflexivity.
Defined.

End ProgramExamples.
